(** * Spy Academy: role assignment, suspicion vote and Deception Duel

    A shallow embedding of the game logic of
    [js/roleManager.js] (class [RoleManager]) and
    [js/challenges/firstImpressionsChallenge.js] (classes
    [FirstImpressionsChallenge] and [RockPaperScissorsChallenge]).

    Conventions.
    - A JavaScript object field becomes a record field of the same name.
    - Players are JavaScript objects compared by identity; the duel and the
      vote identify a player by its position in [this.players], which is
      what [this.players.indexOf(player)] computes for distinct objects.
    - [Math.random()] is an explicit list of draws, each a rational in
      [0,1), consumed left to right; products, floors and the comparisons
      with 0.3 and 0.5 are exact.  A method that needs a draw when the
      list is empty stops with [OutOfDraws], and an event of the duel that
      comes with too few draws is dropped; these are the only places where
      the model stops although the program would go on.
    - DOM screens are values of a [Screen] type; a click on a button that
      is not on the current screen has no handler and changes nothing.
      An [async] handler that is still running when the next event
      arrives is counted as in flight, and its remaining steps are events
      of their own. *)

From Stdlib Require Import QArith Qround.
From stdpp Require Import list strings gmap pretty.

#[local] Set Warnings "-clear-no-such-hyp".
Local Open Scope nat_scope.

(** ** The random source *)

Module Rand.

(** A draw of [Math.random()]: [0 <= r < 1]. *)
Definition unit_draw (r : Q) : Prop := (0 <= r)%Q /\ (r < 1)%Q.

(** [Math.floor(Math.random() * n)]. *)
Definition randomInt (r : Q) (n : nat) : nat :=
  Z.to_nat (Qfloor (r * inject_Z (Z.of_nat n))).

(** [Math.random() < p]. *)
Definition below (r p : Q) : bool :=
  match Qlt_le_dec r p with left _ => true | right _ => false end.

End Rand.

(** ** Outcomes of a method call on an object with state [S] *)

Inductive outcome (S : Type) : Type :=
| Returned (s : S) (rs : list Q)  (* normal completion, draws left over *)
| Threw (msg : string) (s : S)    (* an exception, and the state it leaves *)
| OutOfDraws.                     (* the list of draws was too short *)
Arguments Returned {S} s rs.
Arguments Threw {S} msg s.
Arguments OutOfDraws {S}.

(** ** [shuffleArray]: the Fisher-Yates loop shared by both files *)

Module Shuffle.
Section Generic.
Context {A : Type}.

(** [[array[i], array[j]] = [array[j], array[i]]].  Both indices are in
    range whenever the draw is in [0,1); outside the range the model
    leaves the array as it is. *)
Definition swap (a : list A) (i j : nat) : list A :=
  match a !! i, a !! j with
  | Some x, Some y => <[i := y]> (<[j := x]> a)
  | _, _ => a
  end.

(** The loop [for (let i = array.length - 1; i > 0; i--)], entered with
    the current value of [i]. *)
Fixpoint shuffleFrom (i : nat) (a : list A) (rs : list Q)
  : option (list A * list Q) :=
  match i with
  | 0 => Some (a, rs)
  | S i' =>
      match rs with
      | [] => None
      | r :: rs' => shuffleFrom i' (swap a i (Rand.randomInt r (S i))) rs'
      end
  end.

Definition shuffleArray (a : list A) (rs : list Q) : option (list A * list Q) :=
  shuffleFrom (length a - 1) a rs.

End Generic.
End Shuffle.

(** ** [RoleManager] (js/roleManager.js) *)

Module RoleManager.

Inductive Role : Type := Good | Bad.

Inductive Team : Type := TeamGood | TeamBad.

#[global] Instance Role_eq_dec : EqDecision Role.
Proof. solve_decision. Defined.

#[global] Instance Team_eq_dec : EqDecision Team.
Proof. solve_decision. Defined.

(** An entry of [playersData]. *)
Record PlayerData : Type := mkPlayerData {
  pd_name : string;
  pd_color : string;
  pd_colorName : string
}.

(** A player object.  [team] is the field that the duel's
    [convertRolesToTeams] adds later; it is [None] until then. *)
Record Player : Type := mkPlayer {
  index : nat;
  name : string;
  color : string;
  colorName : string;
  role : Role;
  hasReceived : bool;
  partnerId : option nat;
  team : option Team
}.

#[global] Instance Player_eq_dec : EqDecision Player.
Proof. solve_decision. Defined.

Definition set_role (r : Role) (p : Player) : Player :=
  mkPlayer (index p) (name p) (color p) (colorName p) r
           (hasReceived p) (partnerId p) (team p).

Definition set_partnerId (i : nat) (p : Player) : Player :=
  mkPlayer (index p) (name p) (color p) (colorName p) (role p)
           (hasReceived p) (Some i) (team p).

(** The fields of [this] that role assignment touches. *)
Record State : Type := mkState {
  players : list Player;
  currentPlayerIndex : nat;
  isAssigningRoles : bool;
  badPlayersKnowEachOther : option bool
}.

Definition set_players (ps : list Player) (self : State) : State :=
  mkState ps (currentPlayerIndex self) (isAssigningRoles self)
          (badPlayersKnowEachOther self).

(** The object pushed for [playersData[i]]. *)
Definition newPlayer (i : nat) (d : PlayerData) : Player :=
  mkPlayer i (pd_name d) (pd_color d) (pd_colorName d) Good false None None.

(** The [switch (playerCount)]: [(badPlayerCount, badPlayersKnowEachOther)].
    Without a matching case both keep their initial values. *)
Definition roleDistribution (playerCount : nat) : nat * bool :=
  match playerCount with
  | 3 => (1, false)
  | 4 => (1, false)
  | 5 => (2, false)
  | 6 => (2, true)
  | 7 => (2, true)
  | 8 => (3, false)
  | _ => (0, false)
  end.

(** [while (badPlayerIndices.length < badPlayerCount)]: draw an index,
    push it unless [badPlayerIndices.includes] it. *)
Fixpoint selectBadPlayers (playerCount badPlayerCount : nat)
    (badPlayerIndices : list nat) (rs : list Q) : option (list nat * list Q) :=
  if decide (length badPlayerIndices < badPlayerCount) then
    match rs with
    | [] => None
    | r :: rs' =>
        let randomIndex := Rand.randomInt r playerCount in
        if decide (randomIndex ∈ badPlayerIndices)
        then selectBadPlayers playerCount badPlayerCount badPlayerIndices rs'
        else selectBadPlayers playerCount badPlayerCount
               (badPlayerIndices ++ [randomIndex]) rs'
    end
  else Some (badPlayerIndices, rs).

(** A write [this.players[i].field = v]: a [TypeError] when
    [this.players[i]] is [undefined]. *)
Definition updateAt (f : Player -> Player) (i : nat) (ps : list Player)
  : option (list Player) :=
  match ps !! i with
  | Some _ => Some (alter f i ps)
  | None => None
  end.

(** [badPlayerIndices.forEach(index => this.players[index].role = 'Bad')]:
    [inr] the array after all writes, [inl] the array at a [TypeError]. *)
Fixpoint assignBadRoles (ps : list Player) (badPlayerIndices : list nat)
  : list Player + list Player :=
  match badPlayerIndices with
  | [] => inr ps
  | i :: rest =>
      match updateAt (set_role Bad) i ps with
      | Some ps' => assignBadRoles ps' rest
      | None => inl ps
      end
  end.

(** The partner block: taken when [badPlayersKnowEachOther] holds and
    exactly two indices were selected. *)
Definition linkPartners (know : bool) (badPlayerIndices : list nat)
    (ps : list Player) : list Player + list Player :=
  match know, badPlayerIndices with
  | true, [b0; b1] =>
      match updateAt (set_partnerId b1) b0 ps with
      | Some ps1 =>
          match updateAt (set_partnerId b0) b1 ps1 with
          | Some ps2 => inr ps2
          | None => inl ps1
          end
      | None => inl ps
      end
  | _, _ => inr ps
  end.

Definition invalidPlayerCount : string := "Player count must be between 3 and 8".
Definition typeError : string := "TypeError".

Definition generatePlayerRoles (self : State) (playersData : list PlayerData)
    (rs : list Q) : outcome State :=
  let playerCount := length playersData in
  if decide (playerCount < 3 \/ 8 < playerCount) then
    Threw invalidPlayerCount self
  else
    let pushed := players self ++ imap newPlayer playersData in
    let '(badPlayerCount, know) := roleDistribution playerCount in
    match selectBadPlayers playerCount badPlayerCount [] rs with
    | None => OutOfDraws
    | Some (badPlayerIndices, rs1) =>
        match assignBadRoles pushed badPlayerIndices with
        | inl ps => Threw typeError (set_players ps self)
        | inr ps1 =>
            match linkPartners know badPlayerIndices ps1 with
            | inl ps => Threw typeError (set_players ps self)
            | inr ps2 =>
                match Shuffle.shuffleArray ps2 rs1 with
                | None => OutOfDraws
                | Some (ps3, rs2) =>
                    Returned (mkState ps3 (currentPlayerIndex self)
                                (isAssigningRoles self) (Some know)) rs2
                end
            end
        end
    end.

(** [startRoleAssignment], up to the call of [showInitialInstructions]
    (which only draws the first screen). *)
Definition startRoleAssignment (self : State) (playersData : list PlayerData)
    (rs : list Q) : outcome State :=
  let reset := mkState [] 0 true (badPlayersKnowEachOther self) in
  generatePlayerRoles reset playersData rs.

(** Accessors used by the other components. *)
Definition getBadPlayers (self : State) : list Player :=
  filter (fun p => role p = Bad) (players self).

Definition getGoodPlayers (self : State) : list Player :=
  filter (fun p => role p = Good) (players self).

Definition getBadPlayerPartners (self : State) : list Player :=
  filter (fun p => role p = Bad /\ partnerId p <> None) (players self).

(** *** Notions used to state the properties *)

(** The indices that a list of draws yields for [playerCount] players. *)
Definition drawnIndices (playerCount : nat) (rs : list Q) : list nat :=
  map (fun r => Rand.randomInt r playerCount) rs.

Definition isBad (p : Player) : Prop := role p = Bad.

(** What [assignBadRoles] leaves of a player who was at position [j]. *)
Definition roleWritten (idx : list nat) (j : nat) (p : Player) : Player :=
  if decide (j ∈ idx) then set_role Bad p else p.

(** What [linkPartners] leaves of a player who was at position [j]. *)
Definition partnerWritten (know : bool) (idx : list nat) (j : nat) (p : Player)
  : Player :=
  match know, idx with
  | true, [b0; b1] =>
      if decide (j = b1) then set_partnerId b0 p
      else if decide (j = b0) then set_partnerId b1 p
      else p
  | _, _ => p
  end.

(** The player built from [playersData[j]] once the roles and the
    partner links are written. *)
Definition assigned (know : bool) (idx : list nat) (j : nat) (d : PlayerData)
  : Player :=
  partnerWritten know idx j (roleWritten idx j (newPlayer j d)).

(** *** The distribution table as the specification words it

    Bad players by player count: 3 -> 1, 4 -> 1, 5 -> 2, 6 -> 2, 7 -> 2,
    8 -> 3; the Bad players know each other only with 6 and 7. *)
Definition tableBadCount (playerCount : nat) : nat :=
  match playerCount with
  | 3 | 4 => 1
  | 5 | 6 | 7 => 2
  | 8 => 3
  | _ => 0
  end.

Definition tableKnowEachOther (playerCount : nat) : bool :=
  bool_decide (playerCount = 6 \/ playerCount = 7).

End RoleManager.

(** ** A JavaScript [Map] with number keys

    A [Map] iterates in insertion order, and [set] on a key that is
    already present keeps the key's place: an association list in
    insertion order with at most one entry per key. *)

Module JSMap.
Section Generic.
Context {V : Type}.

Fixpoint mset (k : nat) (v : V) (m : list (nat * V)) : list (nat * V) :=
  match m with
  | [] => [(k, v)]
  | (k', v') :: m' =>
      if decide (k = k') then (k, v) :: m' else (k', v') :: mset k v m'
  end.

Fixpoint mget (k : nat) (m : list (nat * V)) : option V :=
  match m with
  | [] => None
  | (k', v') :: m' => if decide (k = k') then Some v' else mget k m'
  end.

Definition msize (m : list (nat * V)) : nat := length m.

Definition mkeys (m : list (nat * V)) : list nat := map fst m.

End Generic.
End JSMap.

(** ** [FirstImpressionsChallenge]: the public suspicion vote *)

Module FirstImpressions.
Import RoleManager.

(** What is on the right-hand panel. *)
Inductive Screen : Type :=
| CallPlayer                                          (* "READY TO VOTE" *)
| VotingInterface (votingPlayer : nat) (options : list nat)
| VoteConfirmation                                    (* 3 second timer *)
| VotingComplete.

(** The object stored in [gameState.firstImpressions]. *)
Record Analysis : Type := mkAnalysis {
  a_votes : list (nat * nat);
  suspicionCounts : list (nat * nat);
  mostSuspected : option nat
}.

Record State : Type := mkState {
  players : list Player;
  votes : list (nat * nat);            (* voter position -> suspect position *)
  currentPlayerIndex : nat;
  screen : Screen;
  firstImpressions : option Analysis
}.

(** The [data-player-index] values of the [.suspect-option] elements that
    [showVotingInterface] renders: every position except the voter's. *)
Definition suspectOptions (ps : list Player) (votingPlayer : nat) : list nat :=
  filter (fun i => i <> votingPlayer) (seq 0 (length ps)).

(** [recordVote]: [this.votes.set(votingPlayerIndex, suspectedPlayerIndex)]. *)
Definition recordVote (votingPlayer suspectedPlayerIndex : nat)
    (vs : list (nat * nat)) : list (nat * nat) :=
  JSMap.mset votingPlayer suspectedPlayerIndex vs.

(** The first loop of [analyzeVotes]:
    [suspicionCounts.set(s, (suspicionCounts.get(s) || 0) + 1)]. *)
Definition countStep (counts : list (nat * nat)) (vote : nat * nat)
  : list (nat * nat) :=
  JSMap.mset (snd vote) (default 0 (JSMap.mget (snd vote) counts) + 1) counts.

Definition countSuspicions (vs : list (nat * nat)) : list (nat * nat) :=
  fold_left countStep vs [].

(** The second loop: [(mostSuspected, maxSuspicions)], replaced when
    [count > maxSuspicions]. *)
Definition maxStep (acc : option nat * nat) (entry : nat * nat)
  : option nat * nat :=
  if decide (snd acc < snd entry) then (Some (fst entry), snd entry) else acc.

Definition findMostSuspected (counts : list (nat * nat)) : option nat * nat :=
  fold_left maxStep counts (None, 0).

Definition analyzeVotes (vs : list (nat * nat)) : Analysis :=
  let counts := countSuspicions vs in
  mkAnalysis vs counts (fst (findMostSuspected counts)).

(** [callNextPlayer]: past the last player the vote is analysed. *)
Definition callNextPlayer (s : State) : State :=
  if decide (length (players s) <= currentPlayerIndex s) then
    mkState (players s) (votes s) (currentPlayerIndex s) VotingComplete
            (Some (analyzeVotes (votes s)))
  else
    mkState (players s) (votes s) (currentPlayerIndex s) CallPlayer
            (firstImpressions s).

(** [init]: take the roster, clear the votes, shuffle the voting order;
    then, past the instructions and "Start Voting!", [callFirstPlayer]. *)
Definition init (roster : list Player) (rs : list Q) : outcome State :=
  match Shuffle.shuffleArray roster rs with
  | None => OutOfDraws
  | Some (ps, rs') =>
      Returned (callNextPlayer (mkState ps [] 0 CallPlayer None)) rs'
  end.

Inductive Event : Type :=
| ClickReady                      (* #ready-to-vote-btn *)
| ClickSuspect (playerIndex : nat) (* the .suspect-option with that index *)
| ConfirmationTimer.              (* the 3 second timeout *)

(** One event.  An event with no element or timer on the current screen
    leaves the state as it is. *)
Definition step (s : State) (e : Event) : State :=
  match screen s, e with
  | CallPlayer, ClickReady =>
      mkState (players s) (votes s) (currentPlayerIndex s)
              (VotingInterface (currentPlayerIndex s)
                 (suspectOptions (players s) (currentPlayerIndex s)))
              (firstImpressions s)
  | VotingInterface votingPlayer options, ClickSuspect i =>
      if decide (i ∈ options) then
        mkState (players s) (recordVote votingPlayer i (votes s))
                (currentPlayerIndex s) VoteConfirmation (firstImpressions s)
      else s
  | VoteConfirmation, ConfirmationTimer =>
      callNextPlayer
        (mkState (players s) (votes s) (S (currentPlayerIndex s))
                 VoteConfirmation (firstImpressions s))
  | _, _ => s
  end.

Definition run (s : State) (es : list Event) : State := fold_left step es s.

(** *** The tally as the specification words it

    Count the occurrences of each suspect over all votes; the most
    suspected is the first suspect, in voter order, that no suspect
    beats. *)
Definition bruteForceCount (vs : list (nat * nat)) (suspect : nat) : nat :=
  length (filter (fun v => snd v = suspect) vs).

Definition bruteForceMostSuspected (vs : list (nat * nat)) : option nat :=
  find (fun s =>
          forallb (fun s' => bruteForceCount vs s' <=? bruteForceCount vs s)
                  (map snd vs))
       (map snd vs).

(** The keys of a [Map] that already has [keys] after a pass that sets
    each element of [l] in turn: new keys are appended in the order in
    which they are first met. *)
Fixpoint keysAfter (keys l : list nat) : list nat :=
  match l with
  | [] => keys
  | x :: l' => keysAfter (if decide (x ∈ keys) then keys else keys ++ [x]) l'
  end.

(** What every reachable state satisfies: no recorded vote is a vote for
    oneself, and a voting screen offers the options rendered for its
    voter. *)
Definition votesSound (s : State) : Prop :=
  (forall voter suspect, (voter, suspect) ∈ votes s -> voter <> suspect) /\
  (forall votingPlayer options,
     screen s = VotingInterface votingPlayer options ->
     options = suspectOptions (players s) votingPlayer).

(** A complete vote: every player in turn presses "ready", clicks the
    suspect chosen for them and waits for the timer. *)
Definition everybodyVotes (suspects : list nat) : list Event :=
  flat_map (fun suspect => [ClickReady; ClickSuspect suspect; ConfirmationTimer])
           suspects.

End FirstImpressions.

(** ** [RockPaperScissorsChallenge]: the Deception Duel *)

Module Duel.
Import RoleManager.

Inductive Move : Type := rock | paper | scissors.

(** The strings ['player'], ['ai'] and ['tie'] of [gameResult]. *)
Inductive GameResult : Type := res_player | res_ai | res_tie.

#[global] Instance Move_eq_dec : EqDecision Move.
Proof. solve_decision. Defined.

#[global] Instance GameResult_eq_dec : EqDecision GameResult.
Proof. solve_decision. Defined.

Record Thresholds : Type := mkThresholds { good : nat; bad : nat }.

Record Score : Type := mkScore { goodTeam : nat; badTeam : nat; ties : nat }.

(** What the page shows.  The local variables of the handlers that a
    screen binds ([selectedPlayer], [selectedMove], [votesCast], ...) are
    arguments of the screen. *)
Inductive Screen : Type :=
| Introduction                        (* #skip-intro-btn *)
| TeamLeaderScreen                    (* #start-turn-btn *)
| StrategicConsole (options : list (nat * bool))   (* position, disabled *)
                   (selectedPlayer : option nat)
                   (selectedMove : option Move)
| TeamVoting (votesCast totalVotes : nat)
| VoteResultScreen (result : bool) (yesVotes noVotes : nat)
| PlayerDecision (selectedMove : option Move)
| BattleScene
| RegularTurnAnalysis                 (* #cont-ana-btn *)
| FinalVictory.

Record State : Type := mkState {
  players : list Player;
  winThresholds : Thresholds;
  gameEnded : bool;
  winningTeam : option Team;
  teamLeaderRotation : list nat;
  currentTeamLeaderIndex : nat;
  lastSelectedPlayer : option nat;
  completedFirstRound : bool;
  teamLeader : option nat;
  chosenPlayer : option nat;
  aiMove : option Move;
  suggestedMove : option Move;
  playerMove : option Move;
  gameResult : option GameResult;
  gameScore : Score;
  votes : list (nat * bool);
  votingComplete : bool;
  votingActive : bool;
  votingOverlay : bool;
  (* the page and the handlers in flight *)
  screen : Screen;
  voteTimer : bool;          (* the 500 ms timer before [processVoteResult] *)
  pendingReveal : nat;       (* #confirm-choice-btn handlers before
                                 [this.gameResult = this.determineWinner(...)] *)
  pendingAnalysis : nat      (* ... and before [showDeceptionAnalysis] *)
}.

(** The state the constructor builds. *)
Definition constructed : State :=
  mkState [] (mkThresholds 0 0) false None [] 0 None false
          None None None None None None (mkScore 0 0 0)
          [] false false false Introduction false 0 0.

(** *** Setters, one per group of fields written together *)

Definition with_screen (sc : Screen) (s : State) : State :=
  mkState (players s) (winThresholds s) (gameEnded s) (winningTeam s)
    (teamLeaderRotation s) (currentTeamLeaderIndex s) (lastSelectedPlayer s)
    (completedFirstRound s) (teamLeader s) (chosenPlayer s) (aiMove s)
    (suggestedMove s) (playerMove s) (gameResult s) (gameScore s)
    (votes s) (votingComplete s) (votingActive s) (votingOverlay s)
    sc (voteTimer s) (pendingReveal s) (pendingAnalysis s).

(** An overlay appended to the page goes under the victory overlay
    (z-index 20000; every other overlay of the duel is at 10002 or
    below) when that one is up: the page then still shows the victory
    screen. *)
Definition cover (sc : Screen) (s : State) : State :=
  match screen s with
  | FinalVictory => s
  | _ => with_screen sc s
  end.

Definition with_gameScore (g : Score) (s : State) : State :=
  mkState (players s) (winThresholds s) (gameEnded s) (winningTeam s)
    (teamLeaderRotation s) (currentTeamLeaderIndex s) (lastSelectedPlayer s)
    (completedFirstRound s) (teamLeader s) (chosenPlayer s) (aiMove s)
    (suggestedMove s) (playerMove s) (gameResult s) g
    (votes s) (votingComplete s) (votingActive s) (votingOverlay s)
    (screen s) (voteTimer s) (pendingReveal s) (pendingAnalysis s).

Definition with_winner (t : Team) (s : State) : State :=
  mkState (players s) (winThresholds s) true (Some t)
    (teamLeaderRotation s) (currentTeamLeaderIndex s) (lastSelectedPlayer s)
    (completedFirstRound s) (teamLeader s) (chosenPlayer s) (aiMove s)
    (suggestedMove s) (playerMove s) (gameResult s) (gameScore s)
    (votes s) (votingComplete s) (votingActive s) (votingOverlay s)
    (screen s) (voteTimer s) (pendingReveal s) (pendingAnalysis s).

Definition with_teamLeader (l : option nat) (s : State) : State :=
  mkState (players s) (winThresholds s) (gameEnded s) (winningTeam s)
    (teamLeaderRotation s) (currentTeamLeaderIndex s) (lastSelectedPlayer s)
    (completedFirstRound s) l (chosenPlayer s) (aiMove s)
    (suggestedMove s) (playerMove s) (gameResult s) (gameScore s)
    (votes s) (votingComplete s) (votingActive s) (votingOverlay s)
    (screen s) (voteTimer s) (pendingReveal s) (pendingAnalysis s).

Definition with_aiMove (m : option Move) (s : State) : State :=
  mkState (players s) (winThresholds s) (gameEnded s) (winningTeam s)
    (teamLeaderRotation s) (currentTeamLeaderIndex s) (lastSelectedPlayer s)
    (completedFirstRound s) (teamLeader s) (chosenPlayer s) m
    (suggestedMove s) (playerMove s) (gameResult s) (gameScore s)
    (votes s) (votingComplete s) (votingActive s) (votingOverlay s)
    (screen s) (voteTimer s) (pendingReveal s) (pendingAnalysis s).

Definition with_selection (c : option nat) (m : option Move) (s : State) : State :=
  mkState (players s) (winThresholds s) (gameEnded s) (winningTeam s)
    (teamLeaderRotation s) (currentTeamLeaderIndex s) (lastSelectedPlayer s)
    (completedFirstRound s) (teamLeader s) c (aiMove s)
    m (playerMove s) (gameResult s) (gameScore s)
    (votes s) (votingComplete s) (votingActive s) (votingOverlay s)
    (screen s) (voteTimer s) (pendingReveal s) (pendingAnalysis s).

Definition with_playerMove (m : option Move) (s : State) : State :=
  mkState (players s) (winThresholds s) (gameEnded s) (winningTeam s)
    (teamLeaderRotation s) (currentTeamLeaderIndex s) (lastSelectedPlayer s)
    (completedFirstRound s) (teamLeader s) (chosenPlayer s) (aiMove s)
    (suggestedMove s) m (gameResult s) (gameScore s)
    (votes s) (votingComplete s) (votingActive s) (votingOverlay s)
    (screen s) (voteTimer s) (pendingReveal s) (pendingAnalysis s).

Definition with_gameResult (r : option GameResult) (s : State) : State :=
  mkState (players s) (winThresholds s) (gameEnded s) (winningTeam s)
    (teamLeaderRotation s) (currentTeamLeaderIndex s) (lastSelectedPlayer s)
    (completedFirstRound s) (teamLeader s) (chosenPlayer s) (aiMove s)
    (suggestedMove s) (playerMove s) r (gameScore s)
    (votes s) (votingComplete s) (votingActive s) (votingOverlay s)
    (screen s) (voteTimer s) (pendingReveal s) (pendingAnalysis s).

Definition with_voting (vs : list (nat * bool)) (complete active overlay timer : bool)
    (s : State) : State :=
  mkState (players s) (winThresholds s) (gameEnded s) (winningTeam s)
    (teamLeaderRotation s) (currentTeamLeaderIndex s) (lastSelectedPlayer s)
    (completedFirstRound s) (teamLeader s) (chosenPlayer s) (aiMove s)
    (suggestedMove s) (playerMove s) (gameResult s) (gameScore s)
    vs complete active overlay
    (screen s) timer (pendingReveal s) (pendingAnalysis s).

Definition with_pending (reveal analysis : nat) (s : State) : State :=
  mkState (players s) (winThresholds s) (gameEnded s) (winningTeam s)
    (teamLeaderRotation s) (currentTeamLeaderIndex s) (lastSelectedPlayer s)
    (completedFirstRound s) (teamLeader s) (chosenPlayer s) (aiMove s)
    (suggestedMove s) (playerMove s) (gameResult s) (gameScore s)
    (votes s) (votingComplete s) (votingActive s) (votingOverlay s)
    (screen s) (voteTimer s) reveal analysis.

Definition with_turn (last : option nat) (pointer : nat) (s : State) : State :=
  mkState (players s) (winThresholds s) (gameEnded s) (winningTeam s)
    (teamLeaderRotation s) pointer last
    (completedFirstRound s) (teamLeader s) (chosenPlayer s) (aiMove s)
    (suggestedMove s) (playerMove s) (gameResult s) (gameScore s)
    (votes s) (votingComplete s) (votingActive s) (votingOverlay s)
    (screen s) (voteTimer s) (pendingReveal s) (pendingAnalysis s).

(** *** [init] and what it calls *)

(** The object literal [thresholds] of [setWinThresholds];
    [thresholds[playerCount]] is [undefined] off the table. *)
Definition thresholds (playerCount : nat) : option Thresholds :=
  match playerCount with
  | 3 => Some (mkThresholds 4 3)
  | 4 => Some (mkThresholds 5 3)
  | 5 => Some (mkThresholds 5 4)
  | 6 => Some (mkThresholds 6 5)
  | 7 => Some (mkThresholds 7 5)
  | 8 => Some (mkThresholds 8 6)
  | _ => None
  end.

(** [player.team = player.role === 'Bad' ? 'bad' : 'good']. *)
Definition convertRole (p : Player) : Player :=
  mkPlayer (index p) (name p) (color p) (colorName p) (role p)
           (hasReceived p) (partnerId p)
           (Some (if decide (role p = Bad) then TeamBad else TeamGood)).

Definition minimumPlayers : string := "This challenge requires a minimum of 3 players".
Definition maximumPlayers : string := "This challenge supports a maximum of 8 players".
Definition conversionFailed : string := "Team conversion failed".

(** [init], up to [showGameIntroduction].  [roster] is the array that
    [gameManager.getSecretRoles()] returns. *)
Definition init (roster : list Player) (rs : list Q) : outcome State :=
  let s0 := constructed in
  let s1 := mkState roster (winThresholds s0) false None [] 0 None false
              None None None None None None (gameScore s0)
              [] false false false Introduction false 0 0 in
  if decide (length roster < 3) then Threw minimumPlayers s1
  else if decide (8 < length roster) then Threw maximumPlayers s1
  else
    match thresholds (length roster) with
    | None => Threw typeError s1
    | Some t =>
        let converted := map convertRole roster in
        let expectedBadCount := length (filter (fun p => role p = Bad) roster) in
        let actualBadCount :=
          length (filter (fun p => team p = Some TeamBad) converted) in
        let s2 := mkState converted t false None [] 0 None false
                    None None None None None None (gameScore s0)
                    [] false false false Introduction false 0 0 in
        if decide (actualBadCount <> expectedBadCount) then Threw conversionFailed s2
        else
          match Shuffle.shuffleArray (seq 0 (length roster)) rs with
          | None => OutOfDraws
          | Some (rotation, rs') =>
              Returned
                (mkState converted t false None rotation 0 None false
                   None None None None None None (gameScore s0)
                   [] false false false Introduction false 0 0) rs'
          end
    end.

(** *** Win check *)

(** [checkWinConditions]: the returned boolean and the state it leaves. *)
Definition checkWinConditions (s : State) : bool * State :=
  if gameEnded s then (false, s)
  else if decide (good (winThresholds s) <= goodTeam (gameScore s)) then
    (true, with_winner TeamGood s)
  else if decide (bad (winThresholds s) <= badTeam (gameScore s)) then
    (true, with_winner TeamBad s)
  else (false, s).

(** *** Resolution and scoring *)

(** [determineWinner(p, a)] with its table [win].  The arguments are the
    fields [playerMove] and [aiMove], [null] until a move is made;
    [win[null]] is [undefined], which is [===] to nothing. *)
Definition win (m : Move) : Move :=
  match m with rock => scissors | paper => rock | scissors => paper end.

Definition determineWinner (p a : option Move) : GameResult :=
  if decide (p = a) then res_tie
  else if decide (win <$> p = a) then res_player else res_ai.

(** The score update at the head of [showDeceptionAnalysis]; [coin] is
    the draw of the tie-break at three ties.  A [gameResult] other than
    ['player'] and ['ai'] takes the final [else]. *)
Definition updateScore (result : option GameResult) (coin : Q) (g : Score) : Score :=
  match result with
  | Some res_player => mkScore (goodTeam g + 1) (badTeam g) (ties g)
  | Some res_ai => mkScore (goodTeam g) (badTeam g + 1) (ties g)
  | _ =>
      let t := ties g + 1 in
      if decide (t = 3) then
        if Rand.below coin (1 # 2)
        then mkScore (goodTeam g + 1) (badTeam g) t
        else mkScore (goodTeam g) (badTeam g + 1) t
      else if decide (t = 4) then mkScore (goodTeam g + 1) (badTeam g) t
      else mkScore (goodTeam g) (badTeam g) t
  end.

Definition showDeceptionAnalysis (coin : Q) (s : State) : State :=
  let s1 := with_gameScore (updateScore (gameResult s) coin (gameScore s)) s in
  let '(won, s2) := checkWinConditions s1 in
  if won then with_screen FinalVictory s2
  else cover RegularTurnAnalysis s2.

(** *** The turn *)

(** [selectTeamLeader]: [this.players[this.teamLeaderRotation[pointer]]]. *)
Definition selectTeamLeader (s : State) : State :=
  with_screen TeamLeaderScreen
    (with_teamLeader (teamLeaderRotation s !! currentTeamLeaderIndex s) s).

Definition nextTeamLeaderTurn (s : State) : State :=
  let '(won, s1) := checkWinConditions s in
  if won then with_screen FinalVictory s1 else selectTeamLeader s1.

(** [startContinuousGameplay]. *)
Definition startContinuousGameplay (s : State) : State :=
  nextTeamLeaderTurn (with_turn (lastSelectedPlayer s) 0 s).

Definition moves : list Move := [rock; paper; scissors].

(** [renderPlayerSelection]: the [.teammate-option] elements in display
    order, each with its [data-player] and whether it is [disabled]. *)
Definition renderPlayerSelection (s : State) (rs : list Q)
  : option (list (nat * bool)) :=
  let eligiblePlayers :=
    filter (fun i => Some i <> teamLeader s) (seq 0 (length (players s))) in
  match Shuffle.shuffleArray eligiblePlayers rs with
  | None => None
  | Some (shuffledPlayers, _) =>
      Some (map (fun i => (i, bool_decide (lastSelectedPlayer s = Some i)))
                shuffledPlayers)
  end.

(** [availablePlayers] of [bindCombinedSelection]. *)
Definition availablePlayers (s : State) : list nat :=
  filter (fun i => Some i <> teamLeader s /\ lastSelectedPlayer s <> Some i)
         (seq 0 (length (players s))).

(** The initial [selectedPlayer] of [bindCombinedSelection]. *)
Definition autoSelected (s : State) : option nat :=
  match availablePlayers s with
  | [only] => Some only
  | _ => None
  end.

(** [startRockPaperScissors]: draw the AI move, render the console and
    bind its handlers.  With too few draws for the display order the
    model drops the call. *)
Definition startRockPaperScissors (r : Q) (rs : list Q) (s : State) : State :=
  let s1 := with_aiMove (moves !! Rand.randomInt r (length moves)) s in
  match renderPlayerSelection s1 rs with
  | None => s
  | Some options =>
      with_screen (StrategicConsole options (autoSelected s1) None) s1
  end.

(** [showTeamVoting]. *)
Definition showTeamVoting (s : State) : State :=
  let voters := filter (fun i => Some i <> teamLeader s)
                       (seq 0 (length (players s))) in
  with_screen (TeamVoting 0 (length voters))
    (with_voting [] false true true (voteTimer s) s).

Definition showPlayerDecision (s : State) : State :=
  with_screen (PlayerDecision None) s.

(** The [shouldVote] test of the confirm handler. *)
Definition shouldVote (r : Q) (s : State) : bool :=
  completedFirstRound s
  && bool_decide (5 <= length (players s))
  && Rand.below r (3 # 10).

(** The click handler of [#confirm-selections-btn]. *)
Definition confirmSelections (r : Q) (selectedPlayer : option nat)
    (selectedMove : option Move) (s : State) : State :=
  match selectedPlayer, selectedMove with
  | Some _, Some _ =>
      let s1 :=
        with_voting (votes s) (votingComplete s) (votingActive s) false
          (voteTimer s) (with_selection selectedPlayer selectedMove s) in
      if shouldVote r s1 then showTeamVoting s1 else showPlayerDecision s1
  | _, _ => s
  end.

(** [castVote] of [showTeamVoting]. *)
Definition castVote (voteValue : bool) (votesCast totalVotes : nat) (s : State)
  : State :=
  if negb (votingActive s) || bool_decide (totalVotes <= votesCast) then s
  else
    let vs := JSMap.mset votesCast voteValue (votes s) in
    let votesCast' := votesCast + 1 in
    if bool_decide (totalVotes <= votesCast') && votingActive s then
      with_screen (TeamVoting votesCast' totalVotes)
        (with_voting vs true false (votingOverlay s) true s)
    else
      with_screen (TeamVoting votesCast' totalVotes)
        (with_voting vs (votingComplete s) (votingActive s) (votingOverlay s)
           (voteTimer s) s).

(** [processVoteResult], then [showVoteResult]. *)
Definition processVoteResult (s : State) : State :=
  if negb (votingComplete s) || negb (votingOverlay s) then s
  else
    let yesVotes := length (filter (fun v => snd v = true) (votes s)) in
    let noVotes := length (filter (fun v => snd v = false) (votes s)) in
    let totalVotes := yesVotes + noVotes in
    let majority := totalVotes / 2 + 1 in
    let result := bool_decide (majority <= yesVotes) in
    cover (VoteResultScreen result yesVotes noVotes)
      (with_voting (votes s) false false false (voteTimer s) s).

(** [completeTurn]. *)
Definition completeTurn (s : State) : State :=
  nextTeamLeaderTurn
    (with_turn (chosenPlayer s)
       ((currentTeamLeaderIndex s + 1) `mod` length (teamLeaderRotation s)) s).

(** *** Events *)

Inductive Event : Type :=
| ClickBeginChallenge                          (* #skip-intro-btn *)
| ClickStartTurn (r : Q) (rs : list Q)         (* #start-turn-btn *)
| ClickTeammate (playerIndex : nat)            (* a .teammate-option *)
| ClickMoveSuggestion (m : Move)               (* a .move-suggestion *)
| ClickConfirmSelections (r : Q)               (* #confirm-selections-btn *)
| ClickVote (voteValue : bool)                 (* #vote-yes-btn, #vote-no-btn *)
| VoteTimer                                    (* the 500 ms timeout *)
| ClickContinueVote (r : Q) (rs : list Q)      (* #continue-vote-btn *)
| ClickFinalMove (m : Move)                    (* a .final-move *)
| ClickConfirmChoice                           (* #confirm-choice-btn *)
| BattleBegins     (* a handler in flight reaches [determineWinner] *)
| BattleEnds (coin : Q)  (* ... and reaches [showDeceptionAnalysis] *)
| ClickNextTurn.                               (* #cont-ana-btn *)

(** One event.  Clicks are handled by the element they hit on the current
    screen; timers and handlers in flight run whatever the screen is.
    The [#confirm-choice-btn] stays on the page for 2.5 seconds after a
    click and its handler has no guard, so every click on it starts a
    handler; the overlay is gone when the first of them reaches the
    battle scene. *)
Definition step (s : State) (e : Event) : State :=
  match e with
  | VoteTimer =>
      if voteTimer s
      then processVoteResult
             (with_voting (votes s) (votingComplete s) (votingActive s)
                (votingOverlay s) false s)
      else s
  | BattleBegins =>
      match pendingReveal s with
      | 0 => s
      | S n =>
          cover BattleScene
            (with_gameResult (Some (determineWinner (playerMove s) (aiMove s)))
               (with_pending n (pendingAnalysis s + 1) s))
      end
  | BattleEnds coin =>
      match pendingAnalysis s with
      | 0 => s
      | S n => showDeceptionAnalysis coin (with_pending (pendingReveal s) n s)
      end
  | _ =>
      match screen s, e with
      | Introduction, ClickBeginChallenge => startContinuousGameplay s
      | TeamLeaderScreen, ClickStartTurn r rs => startRockPaperScissors r rs s
      | StrategicConsole options _ selectedMove, ClickTeammate i =>
          if decide ((i, false) ∈ options)
          then with_screen (StrategicConsole options (Some i) selectedMove) s
          else s
      | StrategicConsole options selectedPlayer _, ClickMoveSuggestion m =>
          with_screen (StrategicConsole options selectedPlayer (Some m)) s
      | StrategicConsole options selectedPlayer selectedMove,
        ClickConfirmSelections r =>
          confirmSelections r selectedPlayer selectedMove s
      | TeamVoting votesCast totalVotes, ClickVote v =>
          castVote v votesCast totalVotes s
      | VoteResultScreen result _ _, ClickContinueVote r rs =>
          if result then showPlayerDecision s
          else startRockPaperScissors r rs s
      | PlayerDecision _, ClickFinalMove m =>
          with_screen (PlayerDecision (Some m)) s
      | PlayerDecision (Some m), ClickConfirmChoice =>
          with_pending (pendingReveal s + 1) (pendingAnalysis s)
            (with_playerMove (Some m) s)
      | RegularTurnAnalysis, ClickNextTurn => completeTurn s
      | _, _ => s
      end
  end.

Definition run (s : State) (es : list Event) : State := fold_left step es s.

(** *** What each screen shows

    A view lists the values that the screen's template interpolates. *)

Definition moveName (m : Move) : string :=
  match m with rock => "rock" | paper => "paper" | scissors => "scissors" end.

Definition moveUpper (m : Move) : string :=
  match m with rock => "ROCK" | paper => "PAPER" | scissors => "SCISSORS" end.

(** [getMoveImage(move, isPlayer)]. *)
Definition getMoveImage (m : Move) (isPlayer : bool) : string :=
  "rockpaperscissorspng/" +:+ (if isPlayer then "player" else "AI")
    +:+ moveName m +:+ ".png".

Inductive View : Type :=
| VIntroduction (playerCount : nat) (t : Thresholds) (g : Score)
| VTeamLeader (leaderName leaderColor : string) (g : Score) (t : Thresholds)
| VConsole (aiImage aiText : string)
           (teammates : list (nat * string * string * bool))
| VTeamVoting (chosenColor : string) (chosenNumber : nat) (chosenName : string)
              (votesCast voters : nat)
| VVoteResult (result : bool) (yesVotes noVotes : nat) (chosenName : string)
| VPlayerDecision (chosenColor chosenName adviceImage : string)
| VBattle (playerImage aiImage : string) (result : GameResult)
| VTurnOver (result : GameResult) (goodPoints badPoints : nat)
| VVictory (winner : option Team) (g : Score).

Definition playerAt (s : State) (i : option nat) : option Player :=
  i ≫= fun k => players s !! k.

(** [render s]: the view that the handler builds when it puts up the
    screen of [s], from the state [s] it has then; [None] where the
    template dereferences [null] or [undefined]. *)
Definition render (s : State) : option View :=
  match screen s with
  | Introduction =>
      Some (VIntroduction (length (players s)) (winThresholds s) (gameScore s))
  | TeamLeaderScreen =>
      p ← playerAt s (teamLeader s);
      Some (VTeamLeader (name p) (color p) (gameScore s) (winThresholds s))
  | StrategicConsole options _ _ =>
      a ← aiMove s;
      teammates ← mapM (fun o : nat * bool =>
                          p ← players s !! fst o;
                          Some (fst o, name p, color p, snd o)) options;
      Some (VConsole (getMoveImage a false) (moveUpper a) teammates)
  | TeamVoting votesCast totalVotes =>
      i ← chosenPlayer s;
      p ← players s !! i;
      Some (VTeamVoting (color p) (i + 1) (name p) votesCast totalVotes)
  | VoteResultScreen result yesVotes noVotes =>
      p ← playerAt s (chosenPlayer s);
      Some (VVoteResult result yesVotes noVotes (name p))
  | PlayerDecision _ =>
      p ← playerAt s (chosenPlayer s);
      m ← suggestedMove s;
      Some (VPlayerDecision (color p) (name p) (getMoveImage m true))
  | BattleScene =>
      p ← playerMove s;
      a ← aiMove s;
      r ← gameResult s;
      Some (VBattle (getMoveImage p true) (getMoveImage a false) r)
  | RegularTurnAnalysis =>
      r ← gameResult s;
      Some (VTurnOver r (goodTeam (gameScore s)) (badTeam (gameScore s)))
  | FinalVictory => Some (VVictory (winningTeam s) (gameScore s))
  end.

(** The screens of a turn that come before the battle reveals the moves. *)
Definition preReveal (sc : Screen) : bool :=
  match sc with
  | TeamLeaderScreen | StrategicConsole _ _ _ | TeamVoting _ _
  | VoteResultScreen _ _ _ | PlayerDecision _ => true
  | _ => false
  end.

Definition isConsole (sc : Screen) : bool :=
  match sc with StrategicConsole _ _ _ => true | _ => false end.

(** *** Notions used to state the properties *)

(** The standard table, as the specification words it: rock beats
    scissors, scissors beats paper, paper beats rock. *)
Definition standardBeats (x y : Move) : bool :=
  match x, y with
  | rock, scissors | scissors, paper | paper, rock => true
  | _, _ => false
  end.

(** The score after a sequence of resolved turns, each with its result
    and the draw available to the tie-break. *)
Definition scoreRun (turns : list (option GameResult * Q)) (g : Score) : Score :=
  fold_left (fun g t => updateScore (fst t) (snd t) g) turns g.

Definition isPlayerWin (t : option GameResult * Q) : bool :=
  bool_decide (fst t = Some res_player).

Definition isAiWin (t : option GameResult * Q) : bool :=
  bool_decide (fst t = Some res_ai).

Definition isTie (t : option GameResult * Q) : bool :=
  negb (isPlayerWin t) && negb (isAiWin t).

Definition countTurns (f : option GameResult * Q -> bool)
    (turns : list (option GameResult * Q)) : nat :=
  length (List.filter f turns).


(** One when the tie counter passes [n] between [before] and [after]. *)
Definition crossed (n before after : nat) : nat :=
  if bool_decide (before < n /\ n <= after) then 1 else 0.

(** The battles that end while [es] is handled from [s], oldest first:
    for each call of [showDeceptionAnalysis] the [gameResult] it finds
    and the draw available to its tie-break. *)
Fixpoint resolvedTurns (s : State) (es : list Event)
  : list (option GameResult * Q) :=
  match es with
  | [] => []
  | e :: es' =>
      match e, pendingAnalysis s with
      | BattleEnds coin, S _ => (gameResult s, coin) :: resolvedTurns (step s e) es'
      | _, _ => resolvedTurns (step s e) es'
      end
  end.

(** The draw of the third tie of a duel, if it has come. *)
Definition thirdTieCoin (turns : list (option GameResult * Q)) : option Q :=
  snd <$> List.filter isTie turns !! 2.

(** Two states that differ at most in [aiMove]. *)
Definition sameButAiMove (s t : State) : Prop :=
  with_aiMove None s = with_aiMove None t.

(** Two events that differ at most in the draw of the engine's move. *)
Definition sameButEngineDraw (e e' : Event) : Prop :=
  match e, e' with
  | ClickStartTurn _ rs, ClickStartTurn _ rs' => rs = rs'
  | ClickContinueVote _ rs, ClickContinueVote _ rs' => rs = rs'
  | _, _ => e = e'
  end.

(** No handler reaches the reveal, [this.determineWinner(this.playerMove,
    this.aiMove)], while [es] is handled from [s]. *)
Fixpoint noReveal (s : State) (es : list Event) : bool :=
  match es with
  | [] => true
  | e :: es' =>
      match e, pendingReveal s with
      | BattleBegins, S _ => false
      | _, _ => noReveal (step s e) es'
      end
  end.

End Duel.

(** ** Concrete games used as examples *)

Module Scenarios.
Import RoleManager Duel.

Definition agent (i : nat) (n : string) (r : Role) : Player :=
  mkPlayer i n "#00ffff" "Cyan" r true None None.

Definition roster3 : list Player :=
  [agent 0 "Ada" Good; agent 1 "Bob" Bad; agent 2 "Cy" Good].

Definition roster5 : list Player :=
  [agent 0 "Ada" Good; agent 1 "Bob" Bad; agent 2 "Cy" Good;
   agent 3 "Dee" Bad; agent 4 "Eve" Good].

Definition zeros (n : nat) : list Q := repeat 0%Q n.

(** The duel on [roster] after [init] (all draws 0) and the click on
    "Begin Challenge". *)
Definition started (roster : list Player) : State :=
  match init roster (zeros 8) with
  | Returned s _ => step s ClickBeginChallenge
  | _ => constructed
  end.

(** The leader's part of a turn: the engine draws rock (draw 0), the
    leader picks [actor] and advises rock; the draw [vote] decides on the
    intervention vote. *)
Definition leaderPart (actor : nat) (vote : Q) : list Event :=
  [ClickStartTurn 0 (zeros 8); ClickTeammate actor; ClickMoveSuggestion rock;
   ClickConfirmSelections vote].

(** The actor's part: choose [m], confirm once, watch the battle. *)
Definition actorPart (m : Move) (coin : Q) : list Event :=
  [ClickFinalMove m; ClickConfirmChoice; BattleBegins; BattleEnds coin].

(** The same with a double click on "Confirm Choice". *)
Definition actorPartDoubleClick (m : Move) (coin : Q) : list Event :=
  [ClickFinalMove m; ClickConfirmChoice; ClickConfirmChoice;
   BattleBegins; BattleBegins; BattleEnds coin; BattleEnds coin].

(** Three players, thresholds 4 and 3: three turns won by the actor. *)
Definition threeWins : list Event :=
  leaderPart 0 0 ++ actorPart paper 0 ++ [ClickNextTurn]
  ++ leaderPart 1 0 ++ actorPart paper 0 ++ [ClickNextTurn]
  ++ leaderPart 2 0 ++ actorPart paper 0 ++ [ClickNextTurn].

(** The fourth turn up to the battle that ends the duel ... *)
Definition matchPoint : list Event :=
  threeWins ++ leaderPart 0 0
  ++ [ClickFinalMove paper; ClickConfirmChoice; ClickConfirmChoice;
      BattleBegins; BattleBegins; BattleEnds 0].

(** ... and the second handler of the double click. *)
Definition afterTheEnd : list Event := matchPoint ++ [BattleEnds 0].

(** Five players: one full turn, then the leader's part of the second
    turn with a draw of 0 for the intervention vote. *)
Definition secondTurnConfirmed : list Event :=
  leaderPart 0 0 ++ actorPart paper 0 ++ [ClickNextTurn] ++ leaderPart 1 0.

(** Three players at the start of the second turn: the first actor was
    player 0 and the leader is now player 2. *)
Definition secondTurn3 : State :=
  run (started roster3) (leaderPart 0 0 ++ actorPart paper 0 ++ [ClickNextTurn]).

Definition entry (n : string) : PlayerData := mkPlayerData n "#00ffff" "Cyan".

Definition twoEntries : list PlayerData := [entry "Ada"; entry "Bob"].

Definition sixEntries : list PlayerData :=
  [entry "Ada"; entry "Bob"; entry "Cy"; entry "Dee"; entry "Eve"; entry "Fay"].

(** A fresh role manager. *)
Definition freshManager : RoleManager.State := RoleManager.mkState [] 0 false None.

(** Draws for six players: index 3, index 3 again (rejected), index 0;
    then five draws for the shuffle. *)
Definition sixDraws1 : list Q := [1 # 2; 1 # 2; 1 # 10]%Q.
Definition sixDraws2 : list Q := [3 # 4; 1 # 3; 0; 9 # 10; 1 # 2]%Q.

(** The suspicion vote of three players, the voting order drawn with
    zeros, as the first player is called. *)
Definition voteStart : FirstImpressions.State :=
  match FirstImpressions.init roster3 (zeros 2) with
  | Returned s _ => s
  | _ => FirstImpressions.mkState [] [] 0 FirstImpressions.CallPlayer None
  end.

(** A game ended for Good on 4 of 4 points. *)
Definition endedGame : State :=
  with_winner TeamGood
    (with_gameScore (mkScore 4 1 0)
       (mkState roster3 (mkThresholds 4 3) false None [0; 1; 2] 0 None false
          None None None None None None (mkScore 0 0 0)
          [] false false false FinalVictory false 0 0)).

(** Three players: a turn that ends in a tie (the engine draws rock, the
    actor plays rock), and the third such turn up to its battle. *)
Definition tieTurn (actor : nat) (coin : Q) : list Event :=
  leaderPart actor 0 ++ actorPart rock coin ++ [ClickNextTurn].

Definition thirdTie : list Event :=
  tieTurn 0 0 ++ tieTurn 1 0 ++ leaderPart 2 0
  ++ [ClickFinalMove rock; ClickConfirmChoice; BattleBegins].

(** Three players: five turns that end in a tie; the draw of the third
    is 3/4. *)
Definition fiveTies : list Event :=
  ClickBeginChallenge
  :: tieTurn 0 0 ++ tieTurn 1 0 ++ tieTurn 2 (3 # 4) ++ tieTurn 0 0 ++ tieTurn 1 0.

(** The leader's part of a turn with the draw [r] for the engine's
    move. *)
Definition leaderPartOn (r : Q) (actor : nat) : list Event :=
  [ClickStartTurn r (zeros 8); ClickTeammate actor;
   ClickMoveSuggestion rock; ClickConfirmSelections 0].

End Scenarios.

(** * Further parts of the program

    The shuffle as a map from draws to orders, the turns and screens of
    the duel, the progress of the suspicion vote, the key of the audio
    cache, the hand-out of the secrets with the accessors of
    [RoleManager], the [GameManager] of the main script
    ([validateGameSetup], [setupGame] and its getters), the colour
    selection page of js/app-init.js, and the roster that the three
    phases share. *)

(** ** [shuffleArray]: the indices drawn *)

Module ShuffleOrder.

(** The values of [j] in the successive passes of the loop entered with
    [i]. *)
Fixpoint swapIndices (i : nat) (rs : list Q) : list nat :=
  match i, rs with
  | S i', r :: rs' => Rand.randomInt r (S i) :: swapIndices i' rs'
  | _, _ => []
  end.

(** A draw for which [Math.floor(Math.random() * n)] is [j]. *)
Definition drawFor (j n : nat) : Q := Z.of_nat j # Pos.of_nat n.

End ShuffleOrder.

(** ** The duel: turns, leaders and the intervention vote *)

Module DuelTurns.
Import RoleManager Duel.

(** A click on "Next Turn" that is handled: the only call of
    [completeTurn]. *)
Definition endsTurn (s : State) (e : Event) : bool :=
  match screen s, e with
  | RegularTurnAnalysis, ClickNextTurn => true
  | _, _ => false
  end.

(** The number of calls of [completeTurn] while [es] is handled from
    [s]. *)
Fixpoint completedTurns (s : State) (es : list Event) : nat :=
  match es with
  | [] => 0
  | e :: es' =>
      (if endsTurn s e then 1 else 0) + completedTurns (step s e) es'
  end.

(** The clicks of the voters on "YES" and "NO". *)
Definition ballots (vs : list bool) : list Event := map ClickVote vs.

Definition countYes (vs : list bool) : nat := length (filter (fun v => v = true) vs).

(** The duel that [init] leaves behind when it throws: the constructor's
    fields, and [this.players] as [getSecretRoles] returned it. *)
Definition rejected (roster : list Player) : State :=
  mkState roster (mkThresholds 0 0) false None [] 0 None false
          None None None None None None (mkScore 0 0 0)
          [] false false false Introduction false 0 0.

(** What holds after [k] completed turns of a duel with rotation [rot]. *)
Definition rotationInv (rot : list nat) (k : nat) (s : State) : Prop :=
  teamLeaderRotation s = rot /\
  currentTeamLeaderIndex s = k `mod` length rot /\
  (screen s = Introduction ->
   k = 0 /\ voteTimer s = false /\ pendingReveal s = 0 /\ pendingAnalysis s = 0) /\
  (screen s <> Introduction -> gameEnded s = false ->
   teamLeader s = rot !! (k `mod` length rot)).

(** The vote on [total] ballots of which [cast] have been counted. *)
Definition voteInv (s : State) (total : nat) (cast : list bool) (t : State)
  : Prop :=
  screen t = TeamVoting (length cast) total /\
  votes t = imap (fun i v => (i, v)) cast /\
  votingOverlay t = true /\
  chosenPlayer t = chosenPlayer s /\ teamLeader t = teamLeader s /\
  players t = players s /\ lastSelectedPlayer t = lastSelectedPlayer s /\
  (if decide (length cast < total)
   then votingActive t = true /\ votingComplete t = false
   else votingActive t = false /\ votingComplete t = true /\
        voteTimer t = true /\ length cast = total).

End DuelTurns.

(** ** The duel: what the screens read *)

Module DuelScreens.
Import RoleManager Duel Rand.

(** The draws that an event brings are draws of [Math.random()]. *)
Definition unitDraws (e : Event) : Prop :=
  match e with
  | ClickStartTurn r rs | ClickContinueVote r rs =>
      unit_draw r /\ Forall unit_draw rs
  | ClickConfirmSelections r | BattleEnds r => unit_draw r
  | _ => True
  end.

(** What every state of a duel started by [init] satisfies: the fields
    that the screen on the page and the handlers in flight read are
    set. *)
Definition screenInv (s : State) : Prop :=
  completedFirstRound s = false /\ voteTimer s = false /\
  3 <= length (players s) /\
  teamLeaderRotation s ≡ₚ seq 0 (length (players s)) /\
  currentTeamLeaderIndex s < length (players s) /\
  0 < good (winThresholds s) /\ 0 < bad (winThresholds s) /\
  (gameEnded s = false ->
   goodTeam (gameScore s) < good (winThresholds s) /\
   badTeam (gameScore s) < bad (winThresholds s)) /\
  (0 < pendingReveal s -> playerMove s <> None /\ aiMove s <> None) /\
  (0 < pendingAnalysis s -> gameResult s <> None) /\
  match screen s with
  | Introduction =>
      pendingReveal s = 0 /\ pendingAnalysis s = 0 /\ gameEnded s = false
  | TeamLeaderScreen =>
      exists l, teamLeader s = Some l /\ l < length (players s)
  | StrategicConsole options selectedPlayer _ =>
      aiMove s <> None /\
      (forall i b, (i, b) ∈ options -> i < length (players s)) /\
      (forall c, selectedPlayer = Some c -> c < length (players s))
  | TeamVoting _ _ | VoteResultScreen _ _ _ => False
  | PlayerDecision _ =>
      (exists c, chosenPlayer s = Some c /\ c < length (players s)) /\
      suggestedMove s <> None /\ aiMove s <> None
  | BattleScene =>
      playerMove s <> None /\ aiMove s <> None /\ gameResult s <> None
  | RegularTurnAnalysis => gameResult s <> None
  | FinalVictory => gameEnded s = true
  end.

End DuelScreens.

(** ** The suspicion vote: progress *)

Module VoteProgress.
Import RoleManager FirstImpressions JSMap.

(** The votes on record while the screen of [s] is up: one for each
    player called so far, and the current player's once it is
    confirmed. *)
Definition votesExpected (s : State) : nat :=
  currentPlayerIndex s
  + match screen s with VoteConfirmation => 1 | _ => 0 end.

(** What every state of a suspicion vote satisfies. *)
Definition progressInv (s : State) : Prop :=
  currentPlayerIndex s <= length (players s) /\
  mkeys (votes s) = seq 0 (votesExpected s) /\
  (forall voter suspect, (voter, suspect) ∈ votes s -> suspect < length (players s)) /\
  (screen s = VotingComplete <-> currentPlayerIndex s = length (players s)) /\
  firstImpressions s =
    match screen s with
    | VotingComplete => Some (analyzeVotes (votes s))
    | _ => None
    end /\
  (forall votingPlayer options,
     screen s = VotingInterface votingPlayer options ->
     votingPlayer = currentPlayerIndex s /\
     options = suspectOptions (players s) votingPlayer).

End VoteProgress.

(** ** [hashText]: the key of the audio cache *)

Module Voice.
Local Open Scope Z_scope.

(** [ToInt32] of an integer. *)
Definition toInt32 (x : Z) : Z := (x + 2 ^ 31) mod 2 ^ 32 - 2 ^ 31.

(** The body of the loop of [hashText] for the code unit [c]:
    [hash = ((hash << 5) - hash) + c; hash = hash & hash].  The shift and
    the conjunction work on 32-bit integers; the subtraction and the sum
    are exact. *)
Definition hashStep (hash c : Z) : Z :=
  let hash1 := toInt32 (Z.shiftl (toInt32 hash) 5) - hash + c in
  Z.land (toInt32 hash1) (toInt32 hash1).

(** [hash] after the loop; [text] is the list of the code units
    [text.charCodeAt(i)]. *)
Definition hashCode (text : list Z) : Z := fold_left hashStep text 0.

(** [hashText(text)]: [hash.toString()]. *)
Definition hashText (text : list Z) : string := pretty (hashCode text).

(** The polynomial [text[0]*31^(n-1) + ... + text[n-1]]. *)
Definition polynomial31 (text : list Z) : Z :=
  fold_left (fun h c => 31 * h + c) text 0.

End Voice.

(** ** [RoleManager]: handing out the secrets, and the accessors *)

Module Reveal.
Import RoleManager.

(** The challenge that [completeRoleAssignment] starts. *)
Inductive Challenge : Type := SuspicionVote | DeceptionDuel.

(** The "YOUR PARTNER" panel of the secret screen: [partner.index + 1],
    [partner.name], [partner.color], [partner.colorName]. *)
Record Partner : Type := mkPartner {
  partnerNumber : nat;
  partnerName : string;
  partnerColor : string;
  partnerColorName : string
}.

(** What [showPlayerSecret] interpolates: [roleColor],
    [player.role.toUpperCase()] and [partnerInfo] (empty when [None]). *)
Record Secret : Type := mkSecret {
  roleColor : string;
  roleUpper : string;
  partnerInfo : option Partner
}.

Inductive Screen : Type :=
| Instructions                      (* #skip-instructions-btn *)
| CallScreen (currentPlayer : nat)  (* #ready-btn; position in [this.players] *)
| SecretScreen (player : nat) (secret : Secret)   (* #continue-btn *)
| NextPlayerPrompt                  (* #finish-btn *)
| Started (challenge : Challenge).

(** The role manager, what it shows, [gameManager.gameState.secretRoles]
    and the setting [window.gameSettings.skipVotingScene]. *)
Record State : Type := mkState {
  manager : RoleManager.State;
  screen : Screen;
  secretRoles : option (list Player);
  skipVotingScene : bool
}.

Definition set_hasReceived (p : Player) : Player :=
  mkPlayer (index p) (name p) (color p) (colorName p) (role p)
           true (partnerId p) (team p).

(** [this.players.find(p => p.index === i)]. *)
Definition findByIndex (ps : list Player) (i : nat) : option Player :=
  find (fun p => bool_decide (index p = i)) ps.

(** The fields of the partner that the panel shows. *)
Definition panel (partner : Player) : Partner :=
  mkPartner (index partner + 1) (name partner) (color partner)
            (colorName partner).

(** The partner block of [showPlayerSecret]. *)
Definition partnerOf (ps : list Player) (player : Player) : option Partner :=
  match role player, partnerId player with
  | Bad, Some i =>
      match findByIndex ps i with
      | Some partner => Some (panel partner)
      | None => None
      end
  | _, _ => None
  end.

Definition secretOf (ps : list Player) (player : Player) : Secret :=
  mkSecret (match role player with Bad => "#ff0000" | Good => "#00ff00" end)
           (match role player with Bad => "BAD" | Good => "GOOD" end)
           (partnerOf ps player).

(** [completeRoleAssignment], with the branch of
    [startFirstImpressionsChallenge] on the setting. *)
Definition completeRoleAssignment (s : State) : State :=
  let m := manager s in
  mkState (RoleManager.mkState (players m) (currentPlayerIndex m) false
             (badPlayersKnowEachOther m))
          (Started (if skipVotingScene s then DeceptionDuel else SuspicionVote))
          (Some (players m)) (skipVotingScene s).

Definition callNextPlayer (s : State) : State :=
  let m := manager s in
  if decide (length (players m) <= currentPlayerIndex m) then
    completeRoleAssignment s
  else
    mkState m (CallScreen (currentPlayerIndex m)) (secretRoles s)
            (skipVotingScene s).

(** [showPlayerSecret(currentPlayer)], the player being the object at
    position [i] when the call screen was drawn. *)
Definition showPlayerSecret (i : nat) (s : State) : State :=
  let m := manager s in
  match players m !! i with
  | Some player =>
      mkState (set_players (alter set_hasReceived i (players m)) m)
              (SecretScreen i (secretOf (players m) player))
              (secretRoles s) (skipVotingScene s)
  | None => s
  end.

Definition showNextPlayerPrompt (s : State) : State :=
  let m := manager s in
  let s1 :=
    mkState (RoleManager.mkState (players m) (currentPlayerIndex m + 1)
               (isAssigningRoles m) (badPlayersKnowEachOther m))
            (screen s) (secretRoles s) (skipVotingScene s) in
  if decide (length (players m) <= currentPlayerIndex m + 1) then
    completeRoleAssignment s1
  else
    mkState (manager s1) NextPlayerPrompt (secretRoles s) (skipVotingScene s).

(** [showInitialInstructions]: without a voice manager the first player
    is called at once. *)
Definition showInitialInstructions (voiceManager : bool) (s : State) : State :=
  let s1 := mkState (manager s) Instructions (secretRoles s) (skipVotingScene s) in
  if voiceManager then s1 else callNextPlayer s1.

(** The events.  A click is an event once the handler of its button is
    bound: with a voice manager the "Ready" button is bound when the call
    of the player has been spoken.  A narration that fails is not
    modelled. *)
Inductive Event : Type :=
| ClickSkipInstructions     (* #skip-instructions-btn *)
| InstructionsSpoken        (* the narration and its 3 second pause end *)
| ClickReady                (* #ready-btn *)
| ClickContinue             (* #continue-btn *)
| ClickFinish.              (* #finish-btn *)

Definition step (s : State) (e : Event) : State :=
  match screen s, e with
  | Instructions, ClickSkipInstructions => callNextPlayer s
  | Instructions, InstructionsSpoken => callNextPlayer s
  | CallScreen i, ClickReady => showPlayerSecret i s
  | SecretScreen _ _, ClickContinue => showNextPlayerPrompt s
  | NextPlayerPrompt, ClickFinish => callNextPlayer s
  | _, _ => s
  end.

Definition run (s : State) (es : list Event) : State := fold_left step es s.

(** [startRoleAssignment] with its call of [showInitialInstructions]. *)
Definition startRoleAssignment (voiceManager : bool) (s : State)
    (playersData : list PlayerData) (rs : list Q) : outcome State :=
  match RoleManager.startRoleAssignment (manager s) playersData rs with
  | Returned m rs' =>
      Returned (showInitialInstructions voiceManager
                  (mkState m (screen s) (secretRoles s) (skipVotingScene s))) rs'
  | Threw msg m => Threw msg (mkState m (screen s) (secretRoles s) (skipVotingScene s))
  | OutOfDraws => OutOfDraws
  end.

(** *** The accessors *)

(** [getPlayerByColor]: [undefined] is [None]. *)
Definition getPlayerByColor (c : string) (m : RoleManager.State) : option Player :=
  find (fun p => bool_decide (color p = c)) (players m).

(** [getVillain]: [null] is [None]. *)
Definition getVillain (m : RoleManager.State) : option Player :=
  find (fun p => bool_decide (role p = Bad)) (players m).

(** [doBadPlayersKnowEachOther]: the field is [undefined] until the first
    assignment. *)
Definition doBadPlayersKnowEachOther (m : RoleManager.State) : bool :=
  default false (badPlayersKnowEachOther m).

(** *** Notions used to state the properties *)

(** The players who have pressed "Ready" when the screen of [s] is up. *)
Definition received (s : State) : nat :=
  currentPlayerIndex (manager s)
  + match screen s with SecretScreen _ _ => 1 | _ => 0 end.

(** The array after [k] players have pressed "Ready". *)
Definition handedTo (k : nat) (ps0 : list Player) : list Player :=
  imap (fun j p => if decide (j < k) then set_hasReceived p else p) ps0.

(** What every state of a hand-out satisfies; [ps0] is the array and
    [sr0] the value of [secretRoles] at its start. *)
Definition revealInv (ps0 : list Player) (sr0 : option (list Player))
    (skip : bool) (s : State) : Prop :=
  let k := currentPlayerIndex (manager s) in
  players (manager s) = handedTo (received s) ps0 /\
  skipVotingScene s = skip /\
  match screen s with
  | Instructions =>
      k = 0 /\ isAssigningRoles (manager s) = true /\ secretRoles s = sr0
  | CallScreen i =>
      i = k /\ k < length ps0 /\
      isAssigningRoles (manager s) = true /\ secretRoles s = sr0
  | SecretScreen i secret =>
      i = k /\ k < length ps0 /\
      (exists p, ps0 !! i = Some p /\ secret = secretOf ps0 p) /\
      isAssigningRoles (manager s) = true /\ secretRoles s = sr0
  | NextPlayerPrompt =>
      k < length ps0 /\
      isAssigningRoles (manager s) = true /\ secretRoles s = sr0
  | Started c =>
      k = length ps0 /\
      isAssigningRoles (manager s) = false /\
      secretRoles s = Some (players (manager s)) /\
      c = (if skip then DeceptionDuel else SuspicionVote)
  end.

(** The clicks of a hand-out to [n] players in which nobody presses a
    button twice. *)
Fixpoint everybodyLooks (n : nat) : list Event :=
  match n with
  | 0 => []
  | 1 => [ClickReady; ClickContinue]
  | S n' => [ClickReady; ClickContinue; ClickFinish] ++ everybodyLooks n'
  end.

End Reveal.

(** ** [GameManager]: validating a setup and starting the game *)

Module GameManager.
Import RoleManager Init.Byte.

(** *** [String.prototype.trim]

    A string is the UTF-8 encoding of the JavaScript string.  [trim]
    strips the white space and line terminator code points of ECMAScript
    from both ends: U+0009 to U+000D, U+0020, U+00A0, U+1680, U+2000 to
    U+200A, U+2028, U+2029, U+202F, U+205F, U+3000 and U+FEFF. *)

Fixpoint trimStart (bs : list byte) : list byte :=
  match bs with
  | (x09 | x0a | x0b | x0c | x0d | x20) :: rest => trimStart rest
  | xc2 :: xa0 :: rest => trimStart rest
  | xe1 :: x9a :: x80 :: rest => trimStart rest
  | xe2 :: x80 :: (x80 | x81 | x82 | x83 | x84 | x85 | x86 | x87 | x88 | x89
                   | x8a | xa8 | xa9 | xaf) :: rest => trimStart rest
  | xe2 :: x81 :: x9f :: rest => trimStart rest
  | xe3 :: x80 :: x80 :: rest => trimStart rest
  | xef :: xbb :: xbf :: rest => trimStart rest
  | _ => bs
  end.

(** The same from the end, on the reversed bytes. *)
Fixpoint trimEndReversed (bs : list byte) : list byte :=
  match bs with
  | (x09 | x0a | x0b | x0c | x0d | x20) :: rest => trimEndReversed rest
  | xa0 :: xc2 :: rest => trimEndReversed rest
  | x80 :: x9a :: xe1 :: rest => trimEndReversed rest
  | (x80 | x81 | x82 | x83 | x84 | x85 | x86 | x87 | x88 | x89
     | x8a | xa8 | xa9 | xaf) :: x80 :: xe2 :: rest => trimEndReversed rest
  | x9f :: x81 :: xe2 :: rest => trimEndReversed rest
  | x80 :: x80 :: xe3 :: rest => trimEndReversed rest
  | xbf :: xbb :: xef :: rest => trimEndReversed rest
  | _ => bs
  end.

Definition trim (s : string) : string :=
  String.string_of_list_byte
    (rev (trimEndReversed (rev (trimStart (String.list_byte_of_string s))))).

Arguments trim : simpl never.

(** The number of bytes of the white space code point at the head of
    [bs], and [0] when there is none; [trailingSpace] is the same for
    the reversed bytes.  Used to state how the loops proceed. *)
Definition leadingSpace (bs : list byte) : nat :=
  match bs with
  | (x09 | x0a | x0b | x0c | x0d | x20) :: _ => 1
  | xc2 :: xa0 :: _ => 2
  | xe1 :: x9a :: x80 :: _ => 3
  | xe2 :: x80 :: (x80 | x81 | x82 | x83 | x84 | x85 | x86 | x87 | x88 | x89
                   | x8a | xa8 | xa9 | xaf) :: _ => 3
  | xe2 :: x81 :: x9f :: _ => 3
  | xe3 :: x80 :: x80 :: _ => 3
  | xef :: xbb :: xbf :: _ => 3
  | _ => 0
  end.

Definition trailingSpace (bs : list byte) : nat :=
  match bs with
  | (x09 | x0a | x0b | x0c | x0d | x20) :: _ => 1
  | xa0 :: xc2 :: _ => 2
  | x80 :: x9a :: xe1 :: _ => 3
  | (x80 | x81 | x82 | x83 | x84 | x85 | x86 | x87 | x88 | x89
     | x8a | xa8 | xa9 | xaf) :: x80 :: xe2 :: _ => 3
  | x9f :: x81 :: xe2 :: _ => 3
  | x80 :: x80 :: xe3 :: _ => 3
  | xbf :: xbb :: xef :: _ => 3
  | _ => 0
  end.

(** *** The manager *)

(** [config.game]. *)
Record GameSection : Type := mkGameSection {
  minPlayers : nat;
  maxPlayers : nat
}.

(** The values of js/utils/config.js. *)
Definition shipped : GameSection := mkGameSection 3 8.

(** [gameState]; [playersData] is [undefined] ([None]) until [setupGame]
    stores the entries. *)
Record GameState : Type := mkGameState {
  playerCount : nat;
  playerColors : list (string * string);
  playersData : option (list PlayerData);
  currentChallenge : nat;
  gameStarted : bool;
  isInitialized : bool
}.

(** The manager, with what it finds around it: [window.gameConfig] and
    whether the class [RoleManager] is loaded.  [shownError] is the
    message that the last call of [showError] put up. *)
Record State : Type := mkState {
  config : option GameSection;
  roleManagerLoaded : bool;
  gameState : GameState;
  roleManager : option RoleManager.State;
  shownError : option string
}.

(** The state the constructor builds. *)
Definition constructed (config : option GameSection) (roleManagerLoaded : bool)
  : State :=
  mkState config roleManagerLoaded (mkGameState 0 [] None 0 false false) None None.

Definition with_error (msg : string) (gm : State) : State :=
  mkState (config gm) (roleManagerLoaded gm) (gameState gm) (roleManager gm)
          (Some msg).

(** [this.config?.game.<limit> || fallback]: [0] is falsy. *)
Definition limit (get : GameSection -> nat) (fallback : nat)
    (config : option GameSection) : nat :=
  match config with
  | Some game => if decide (get game = 0) then fallback else get game
  | None => fallback
  end.

(** The test of the [for] loop of [validateGameSetup] on one entry; the
    fields of an entry are strings, and the empty string is falsy. *)
Definition invalidEntry (player : PlayerData) : bool :=
  bool_decide (pd_name player = "" \/ pd_color player = ""
               \/ pd_colorName player = "")
  || bool_decide (trim (pd_name player) = "").

(** [validateGameSetup]; [playerCount] is a number and [playersData] an
    array.  The warnings it logs are not modelled. *)
Definition validateGameSetup (config : option GameSection) (playerCount : nat)
    (playersData : list PlayerData) : bool :=
  let minPlayers := limit minPlayers 2 config in
  let maxPlayers := limit maxPlayers 8 config in
  if bool_decide (playerCount < minPlayers \/ maxPlayers < playerCount) then false
  else if bool_decide (length playersData <> playerCount) then false
  else if existsb invalidEntry playersData then false
  else
    let colors := map pd_color playersData in
    let uniqueColors : gset string := list_to_set colors in
    if bool_decide (size uniqueColors <> length colors) then false
    else true.

Arguments validateGameSetup : simpl never.

Definition invalidSetup : string := "Invalid game setup parameters".
Definition startFailed : string :=
  "Failed to start the game. Please refresh and try again.".
Definition classNotLoaded : string := "RoleManager class not loaded".
Definition notAvailable : string := "Role Manager not available".

(** What [new RoleManager(this)] builds. *)
Definition newRoleManager : RoleManager.State := RoleManager.mkState [] 0 false None.

(** [initializeManagers], called with [isInitialized] false: [inr] the
    manager when it returns, [inl] the manager when it throws
    [classNotLoaded]. *)
Definition initializeManagers (gm : State) : State + State :=
  let g := gameState gm in
  if roleManagerLoaded gm then
    inr (mkState (config gm) (roleManagerLoaded gm)
           (mkGameState (playerCount g) (playerColors g) (playersData g)
              (currentChallenge g) (gameStarted g) true)
           (Some newRoleManager) (shownError gm))
  else
    inl (with_error
           ("Failed to initialize game components: " +:+ classNotLoaded
              +:+ ". Please refresh the page.")
           (mkState (config gm) (roleManagerLoaded gm)
              (mkGameState (playerCount g) (playerColors g) (playersData g)
                 (currentChallenge g) (gameStarted g) false)
              (roleManager gm) (shownError gm))).

(** [setupGame], up to the first screen of role assignment.  Every
    exception passes through its [catch], which puts up [startFailed]
    and throws it again.  The fade-out of the colour selection page and
    the log are not modelled. *)
Definition setupGame (gm : State) (count : nat) (data : list PlayerData)
    (rs : list Q) : outcome State :=
  if negb (validateGameSetup (config gm) count data) then
    Threw invalidSetup (with_error startFailed gm)
  else
    let g := gameState gm in
    let gm1 :=
      mkState (config gm) (roleManagerLoaded gm)
        (mkGameState count (map (fun p => (pd_color p, pd_colorName p)) data)
           (Some data) 1 true (isInitialized g))
        (roleManager gm) (shownError gm) in
    match (if isInitialized g then inr gm1 else initializeManagers gm1) with
    | inl gm2 => Threw classNotLoaded (with_error startFailed gm2)
    | inr gm2 =>
        match roleManager gm2 with
        | None => Threw notAvailable (with_error startFailed gm2)
        | Some rm =>
            match RoleManager.startRoleAssignment rm data rs with
            | Returned rm' rs' =>
                Returned (mkState (config gm2) (roleManagerLoaded gm2)
                            (gameState gm2) (Some rm') (shownError gm2)) rs'
            | Threw msg rm' =>
                Threw msg
                  (with_error startFailed
                     (mkState (config gm2) (roleManagerLoaded gm2)
                        (gameState gm2) (Some rm') (shownError gm2)))
            | OutOfDraws => OutOfDraws
            end
        end
    end.

(** [getSecretRoles]: the role manager's own array, or a new empty one. *)
Definition getSecretRoles (gm : State) : list Player :=
  match roleManager gm with
  | Some rm => players rm
  | None => []
  end.

(** [getVillain], [getBadPlayers] and [doBadPlayersKnowEachOther]. *)
Definition getVillain (gm : State) : option Player :=
  roleManager gm ≫= Reveal.getVillain.

Definition getBadPlayers (gm : State) : list Player :=
  match roleManager gm with
  | Some rm => RoleManager.getBadPlayers rm
  | None => []
  end.

Definition doBadPlayersKnowEachOther (gm : State) : bool :=
  match roleManager gm with
  | Some rm => Reveal.doBadPlayersKnowEachOther rm
  | None => false
  end.

End GameManager.

(** ** [setupColorSelection] (js/app-init.js): names, colours and "Confirm" *)

Module ColorSelection.
Import RoleManager.

(** An entry [{color, name}] of the palette. *)
Record Choice : Type := mkChoice {
  c_color : string;
  c_name : string
}.

Definition colors : list Choice :=
  [mkChoice "#ff0000" "Red"; mkChoice "#00ff00" "Green";
   mkChoice "#0080ff" "Blue"; mkChoice "#ffff00" "Yellow";
   mkChoice "#ff8000" "Orange"; mkChoice "#8000ff" "Purple";
   mkChoice "#ff0080" "Pink"; mkChoice "#00ff80" "Cyan"].

(** *** Arrays with holes

    [selectedColors] is written at arbitrary indices: an element is a
    value or a hole ([None]), and the length of the list is the
    [length] of the array. *)
Section Sparse.
Context {A : Type}.

(** [a[i] = x]: beyond the end the array grows, with holes in
    between. *)
Definition assign (i : nat) (x : A) (a : list (option A)) : list (option A) :=
  if decide (i < length a) then <[i := Some x]> a
  else a ++ replicate (i - length a) None ++ [Some x].

(** [a[i]], [None] for [undefined]. *)
Definition at_index (a : list (option A)) (i : nat) : option A :=
  mjoin (a !! i).

(** [a.some(f)] and [a.every(f)], entered at index [idx]: the callback
    is not called on a hole. *)
Fixpoint some_from (f : A -> nat -> bool) (idx : nat) (a : list (option A)) : bool :=
  match a with
  | [] => false
  | None :: a' => some_from f (S idx) a'
  | Some x :: a' => f x idx || some_from f (S idx) a'
  end.

Fixpoint every_from (f : A -> nat -> bool) (idx : nat) (a : list (option A)) : bool :=
  match a with
  | [] => true
  | None :: a' => every_from f (S idx) a'
  | Some x :: a' => f x idx && every_from f (S idx) a'
  end.

Definition some (f : A -> nat -> bool) (a : list (option A)) : bool :=
  some_from f 0 a.

Definition every (f : A -> nat -> bool) (a : list (option A)) : bool :=
  every_from f 0 a.

End Sparse.

(** *** The page *)

(** The variables of the closure and what the script has done to the
    "Confirm" button.  [confirmDisplay] is [confirmBtn.style.display],
    [None] while the script has not set it; [handedOver] lists the
    arguments of the calls of [startGameWithPlayers], oldest first, and
    [typeErrors] counts the runs of the confirm handler that ended in an
    uncaught [TypeError]. *)
Record State : Type := mkState {
  playerCount : nat;
  selectedColors : list (option Choice);
  playerNames : list string;
  confirmDisplay : option string;
  confirmDisabled : bool;
  handedOver : list (list PlayerData);
  typeErrors : nat
}.

(** ['Player ' + (i + 1)]. *)
Definition defaultName (i : nat) : string := "Player " +:+ pretty (i + 1).

(** [setupColorSelection(playerCount)] on a page with the two elements
    it needs; [disabled] is the state of the button in the document.
    Every name input starts with its [value] attribute. *)
Definition setupColorSelection (playerCount : nat) (disabled : bool) : State :=
  mkState playerCount [] (map defaultName (seq 0 playerCount)) None disabled [] 0.

(** [checkColorSelectionComplete]: an element of [selectedColors] is an
    object, and its colour is truthy unless it is the empty string. *)
Definition allSelected (s : State) : bool :=
  bool_decide (playerCount s <= length (selectedColors s))
  && every (fun c _ => bool_decide (c_color c <> ""))
           (take (playerCount s) (selectedColors s)).

Definition checkColorSelectionComplete (s : State) : State :=
  if allSelected s then
    mkState (playerCount s) (selectedColors s) (playerNames s)
            (Some "block") false (handedOver s) (typeErrors s)
  else
    mkState (playerCount s) (selectedColors s) (playerNames s)
            (Some "none") (confirmDisabled s) (handedOver s) (typeErrors s).

(** The [input] handler of the name field of player [playerIdx]. *)
Definition nameInput (playerIdx : nat) (value : string) (s : State) : State :=
  let trimmed := GameManager.trim value in
  let name := if decide (trimmed = "") then defaultName playerIdx else trimmed in
  checkColorSelectionComplete
    (mkState (playerCount s) (selectedColors s)
             (<[playerIdx := name]> (playerNames s))
             (confirmDisplay s) (confirmDisabled s) (handedOver s) (typeErrors s)).

(** The click handler of the option [c] in the row of player
    [playerIdx].  [updateColorStates] only restyles the page. *)
Definition colorClick (playerIdx : nat) (c : Choice) (s : State) : State :=
  let alreadySelected :=
    some (fun sc idx => bool_decide (c_color sc = c_color c /\ idx <> playerIdx))
         (selectedColors s) in
  if alreadySelected then s
  else
    checkColorSelectionComplete
      (mkState (playerCount s)
               (assign playerIdx (mkChoice (c_color c) (c_name c)) (selectedColors s))
               (playerNames s)
               (confirmDisplay s) (confirmDisabled s) (handedOver s) (typeErrors s)).

(** The entry that the loop of the confirm handler pushes for [i];
    [None] when [selectedColors[i]] is [undefined] and reading its
    [color] throws. *)
Definition entryFor (s : State) (i : nat) : option PlayerData :=
  c ← at_index (selectedColors s) i;
  let name :=
    match playerNames s !! i with
    | Some n => if decide (n = "") then defaultName i else n
    | None => defaultName i
    end in
  Some (mkPlayerData name (c_color c) (c_name c)).

(** [confirmHandler].  The call of [startGameWithPlayers] that follows
    the fade-out of 600 ms is recorded at once: its argument is built
    before the timer is set. *)
Definition confirmHandler (s : State) : State :=
  if confirmDisabled s then s
  else
    match mapM (entryFor s) (seq 0 (playerCount s)) with
    | Some playerData =>
        mkState (playerCount s) (selectedColors s) (playerNames s)
                (confirmDisplay s) true (handedOver s ++ [playerData])
                (typeErrors s)
    | None =>
        mkState (playerCount s) (selectedColors s) (playerNames s)
                (confirmDisplay s) true (handedOver s) (S (typeErrors s))
    end.

Inductive Event : Type :=
| ClickColor (playerIdx colorIdx : nat)       (* a .color-option *)
| InputName (playerIdx : nat) (value : string) (* a .player-name-input *)
| ClickConfirm.                               (* #confirm-colors *)

(** One event; an element that the page does not have takes no event. *)
Definition step (s : State) (e : Event) : State :=
  match e with
  | ClickColor playerIdx colorIdx =>
      match colors !! colorIdx with
      | Some c =>
          if decide (playerIdx < playerCount s) then colorClick playerIdx c s
          else s
      | None => s
      end
  | InputName playerIdx value =>
      if decide (playerIdx < playerCount s) then nameInput playerIdx value s
      else s
  | ClickConfirm => confirmHandler s
  end.

Definition run (s : State) (es : list Event) : State := fold_left step es s.

(** An event that ends with a call of [checkColorSelectionComplete]. *)
Definition checksCompletion (s : State) (e : Event) : Prop :=
  match e with
  | ClickColor playerIdx colorIdx =>
      playerIdx < playerCount s /\
      exists c, colors !! colorIdx = Some c /\
                some (fun sc idx => bool_decide (c_color sc = c_color c
                                                 /\ idx <> playerIdx))
                     (selectedColors s) = false
  | InputName playerIdx _ => playerIdx < playerCount s
  | ClickConfirm => False
  end.

(** What every state of the page satisfies. *)
Definition pageInv (n : nat) (s : State) : Prop :=
  playerCount s = n /\
  length (selectedColors s) <= n /\
  (forall i c, at_index (selectedColors s) i = Some c -> c ∈ colors) /\
  (forall i j ci cj,
     at_index (selectedColors s) i = Some ci ->
     at_index (selectedColors s) j = Some cj ->
     c_color ci = c_color cj -> i = j) /\
  (selectedColors s = [] \/ exists c, last (selectedColors s) = Some (Some c)) /\
  length (playerNames s) = n /\
  (forall i name, playerNames s !! i = Some name ->
                  name = defaultName i \/
                  name <> "" /\ exists value, name = GameManager.trim value) /\
  (forall data,
     data ∈ handedOver s ->
     length data = n /\
     NoDup (map pd_color data) /\
     forall i d, data !! i = Some d ->
       (exists c, c ∈ colors /\ pd_color d = c_color c /\ pd_colorName d = c_name c) /\
       (pd_name d = defaultName i \/
        pd_name d <> "" /\ exists value, pd_name d = GameManager.trim value)).

End ColorSelection.

(** ** The three phases on one roster

    [gameManager.getSecretRoles()] returns the role manager's own array,
    and both challenges keep it as [this.players]: the suspicion vote
    shuffles it in place and the duel writes [team] into its player
    objects.  A write through one name is a write to all of them. *)

Module Session.
Import RoleManager.

Record State : Type := mkState {
  roleManager : RoleManager.State;
  suspicionVote : option FirstImpressions.State;
  deceptionDuel : option Duel.State
}.

Definition vote_with_players (ps : list Player) (v : FirstImpressions.State)
  : FirstImpressions.State :=
  FirstImpressions.mkState ps (FirstImpressions.votes v)
    (FirstImpressions.currentPlayerIndex v) (FirstImpressions.screen v)
    (FirstImpressions.firstImpressions v).

Definition duel_with_players (ps : list Player) (d : Duel.State) : Duel.State :=
  Duel.mkState ps (Duel.winThresholds d) (Duel.gameEnded d) (Duel.winningTeam d)
    (Duel.teamLeaderRotation d) (Duel.currentTeamLeaderIndex d)
    (Duel.lastSelectedPlayer d) (Duel.completedFirstRound d) (Duel.teamLeader d)
    (Duel.chosenPlayer d) (Duel.aiMove d) (Duel.suggestedMove d)
    (Duel.playerMove d) (Duel.gameResult d) (Duel.gameScore d) (Duel.votes d)
    (Duel.votingComplete d) (Duel.votingActive d) (Duel.votingOverlay d)
    (Duel.screen d) (Duel.voteTimer d) (Duel.pendingReveal d)
    (Duel.pendingAnalysis d).

(** The array as it is after a write: every holder sees [ps]. *)
Definition with_roster (ps : list Player) (s : State) : State :=
  mkState (set_players ps (roleManager s))
          (vote_with_players ps <$> suspicionVote s)
          (duel_with_players ps <$> deceptionDuel s).

(** [gameManager.startFirstImpressionsChallenge]:
    [new FirstImpressionsChallenge(this).init()]. *)
Definition startFirstImpressionsChallenge (s : State) (rs : list Q)
  : outcome State :=
  match FirstImpressions.init (players (roleManager s)) rs with
  | Returned v rs' =>
      Returned (with_roster (FirstImpressions.players v)
                  (mkState (roleManager s) (Some v) (deceptionDuel s))) rs'
  | Threw msg v =>
      Threw msg (with_roster (FirstImpressions.players v)
                   (mkState (roleManager s) (Some v) (deceptionDuel s)))
  | OutOfDraws => OutOfDraws
  end.

(** [gameManager.startFirstChallenge], and
    [FirstImpressionsChallenge.startRockPaperScissorsChallenge]:
    [new RockPaperScissorsChallenge(gameManager).init()]. *)
Definition startFirstChallenge (s : State) (rs : list Q) : outcome State :=
  match Duel.init (players (roleManager s)) rs with
  | Returned d rs' =>
      Returned (with_roster (Duel.players d)
                  (mkState (roleManager s) (suspicionVote s) (Some d))) rs'
  | Threw msg d =>
      Threw msg (with_roster (Duel.players d)
                   (mkState (roleManager s) (suspicionVote s) (Some d)))
  | OutOfDraws => OutOfDraws
  end.

(** The events of the vote, handled by the vote. *)
Definition voteRun (s : State) (es : list FirstImpressions.Event) : State :=
  mkState (roleManager s)
          ((fun v => FirstImpressions.run v es) <$> suspicionVote s)
          (deceptionDuel s).

End Session.

(** ** Further concrete games *)

Module Examples.
Import RoleManager Duel Scenarios.

(** Six entries with the first six colours of the palette of
    js/app-init.js. *)
Definition sixColors : list PlayerData :=
  [mkPlayerData "Ada" "#ff0000" "Red"; mkPlayerData "Bob" "#00ff00" "Green";
   mkPlayerData "Cy" "#0080ff" "Blue"; mkPlayerData "Dee" "#ffff00" "Yellow";
   mkPlayerData "Eve" "#ff8000" "Orange"; mkPlayerData "Fay" "#8000ff" "Purple"].

(** Two entries, which [validateGameSetup] accepts when there is no
    [window.gameConfig]. *)
Definition twoColors : list PlayerData :=
  [mkPlayerData "Ada" "#ff0000" "Red"; mkPlayerData "Bob" "#00ff00" "Green"].

(** The role manager after [startRoleAssignment] on [sixColors] with the
    draws [sixDraws1] and [sixDraws2]. *)
Definition assignedSix : RoleManager.State :=
  match RoleManager.startRoleAssignment freshManager sixColors
          (sixDraws1 ++ sixDraws2) with
  | Returned st _ => st
  | _ => freshManager
  end.

(** The player built for the first entry: Bad, with partner 3. *)
Definition ada : Player :=
  mkPlayer 0 "Ada" "#ff0000" "Red" Bad false (Some 3) None.

(** ... and once every player has seen the secret. *)
Definition revealedSix : RoleManager.State :=
  RoleManager.set_players
    (map Reveal.set_hasReceived (RoleManager.players assignedSix)) assignedSix.

(** The first screen of a hand-out. *)
Definition beforeReveal : Reveal.State :=
  Reveal.mkState freshManager Reveal.Instructions None false.

(** The duel of three players as [init] returns it on draws of 0. *)
Definition duel3 : State :=
  match init roster3 (zeros 8) with
  | Returned s _ => s
  | _ => constructed
  end.

(** A duel of three players up to the battle of the fourth turn, the
    first three won by the actor. *)
Definition lastBattle : list Event :=
  ClickBeginChallenge :: threeWins ++ leaderPart 0 0
  ++ [ClickFinalMove paper; ClickConfirmChoice; BattleBegins].

End Examples.

(** * Properties *)

(** ** The random source *)

Module RandFacts.
Import Rand.

Lemma randomInt_lt r n : unit_draw r -> 0 < n -> randomInt r n < n.
Proof.
  intros [H0 H1] Hn. unfold randomInt.
  set (q := inject_Z (Z.of_nat n)).
  assert (Hq : (0 < q)%Q).
  { unfold q. change 0%Q with (inject_Z 0). rewrite <- Zlt_Qlt. lia. }
  assert (Hlo : (0 <= Qfloor (r * q))%Z).
  { change 0%Z with (Qfloor 0). apply Qfloor_resp_le.
    apply Qmult_le_0_compat; [exact H0 | apply Qlt_le_weak; exact Hq]. }
  assert (Hhi : (Qfloor (r * q) < Z.of_nat n)%Z).
  { rewrite Zlt_Qlt. eapply Qle_lt_trans; [apply Qfloor_le |].
    fold q. assert (Hm : (r * q < 1 * q)%Q) by (apply Qmult_lt_compat_r; assumption).
    by rewrite Qmult_1_l in Hm. }
  lia.
Qed.

Lemma below_true r p : below r p = true <-> (r < p)%Q.
Proof.
  unfold below. destruct (Qlt_le_dec r p) as [H | H]; split; intros H'; try done.
  exfalso. exact (Qle_not_lt _ _ H H').
Qed.

Lemma below_false r p : below r p = false <-> (p <= r)%Q.
Proof.
  unfold below. destruct (Qlt_le_dec r p) as [H | H]; split; intros H'; try done.
  exfalso. exact (Qle_not_lt _ _ H' H).
Qed.

End RandFacts.

(** ** The shuffle permutes *)

Module ShuffleFacts.
Import Shuffle.
Section Generic.
Context {A : Type}.

Lemma insert_head_Permutation (t : list A) j x y :
  t !! j = Some y -> y :: <[j := x]> t ≡ₚ x :: t.
Proof.
  revert j. induction t as [| h t IH]; intros [| j] Hj; simplify_eq/=.
  - apply perm_swap.
  - rewrite (perm_swap h y). rewrite (IH _ Hj). apply perm_swap.
Qed.

Lemma swap_Permutation (a : list A) i j : swap a i j ≡ₚ a.
Proof.
  unfold swap.
  destruct (a !! i) as [x |] eqn:Hi; [| done].
  destruct (a !! j) as [y |] eqn:Hj; [| done].
  revert i j Hi Hj. induction a as [| h t IH]; intros [| i] [| j] Hi Hj;
    simplify_eq/=.
  - done.
  - by apply insert_head_Permutation.
  - by apply insert_head_Permutation.
  - f_equiv. by apply IH.
Qed.

Lemma shuffleFrom_Permutation i (a : list A) rs b rs' :
  shuffleFrom i a rs = Some (b, rs') -> b ≡ₚ a.
Proof.
  revert a rs. induction i as [| i IH]; intros a rs H; simpl in H.
  - by simplify_eq.
  - destruct rs as [| r rs]; [done |].
    apply IH in H. by rewrite H, swap_Permutation.
Qed.

Lemma shuffleArray_Permutation (a : list A) rs b rs' :
  shuffleArray a rs = Some (b, rs') -> b ≡ₚ a.
Proof. apply shuffleFrom_Permutation. Qed.

(** The loop makes exactly [i] draws. *)
Lemma shuffleFrom_draws i (a : list A) rs :
  i <= length rs -> exists b, shuffleFrom i a rs = Some (b, drop i rs).
Proof.
  revert a rs. induction i as [| i IH]; intros a rs H; simpl.
  - eexists. by rewrite drop_0.
  - destruct rs as [| r rs]; simpl in H; [lia |].
    apply IH. lia.
Qed.

Lemma shuffleArray_draws (a : list A) rs :
  length a - 1 <= length rs ->
  exists b, shuffleArray a rs = Some (b, drop (length a - 1) rs).
Proof. apply shuffleFrom_draws. Qed.

End Generic.
End ShuffleFacts.

(** ** The Deception Duel *)

Module DuelFacts.
Import RoleManager Duel Rand RandFacts Scenarios.

(** *** Move resolution and scoring *)

Lemma determineWinner_table (p a : Move) :
  determineWinner (Some p) (Some a) =
    if decide (p = a) then res_tie
    else if standardBeats p a then res_player else res_ai.
Proof. by destruct p, a. Qed.

(** *** The tie-break bonus *)

Lemma updateScore_ties result coin g :
  ties (updateScore result coin g) =
    ties g + (if isTie (result, coin) then 1 else 0).
Proof.
  unfold updateScore, isTie, isPlayerWin, isAiWin.
  destruct result as [[| |] |]; simpl;
    repeat case_decide; try destruct (below _ _); simpl; lia.
Qed.

Lemma updateScore_points result coin g :
  goodTeam (updateScore result coin g) + badTeam (updateScore result coin g) =
    goodTeam g + badTeam g
    + (if isPlayerWin (result, coin) then 1 else 0)
    + (if isAiWin (result, coin) then 1 else 0)
    + crossed 3 (ties g) (ties (updateScore result coin g))
    + crossed 4 (ties g) (ties (updateScore result coin g)).
Proof.
  unfold updateScore, isPlayerWin, isAiWin, crossed.
  destruct result as [[| |] |]; simpl;
    repeat case_decide; try destruct (below _ _); simpl;
    repeat case_bool_decide; simplify_eq/=; lia.
Qed.

Lemma scoreRun_ties turns g :
  ties (scoreRun turns g) = ties g + countTurns isTie turns.
Proof.
  revert g. induction turns as [| [result coin] turns IH]; intros g.
  - unfold countTurns. simpl. lia.
  - unfold scoreRun in *. simpl. rewrite IH, updateScore_ties.
    unfold countTurns. simpl. destruct (isTie (result, coin)); simpl; lia.
Qed.

Lemma crossed_split n a b c :
  a <= b -> b <= c -> crossed n a c = crossed n a b + crossed n b c.
Proof. intros. unfold crossed. repeat case_bool_decide; lia. Qed.

Lemma scoreRun_points turns g :
  goodTeam (scoreRun turns g) + badTeam (scoreRun turns g) =
    goodTeam g + badTeam g
    + countTurns isPlayerWin turns + countTurns isAiWin turns
    + crossed 3 (ties g) (ties (scoreRun turns g))
    + crossed 4 (ties g) (ties (scoreRun turns g)).
Proof.
  revert g. induction turns as [| [result coin] turns IH]; intros g.
  - unfold countTurns, crossed. simpl. repeat case_bool_decide; lia.
  - change (scoreRun ((result, coin) :: turns) g)
      with (scoreRun turns (updateScore result coin g)).
    rewrite IH, updateScore_points.
    pose proof (updateScore_ties result coin g) as Hstep.
    pose proof (scoreRun_ties turns (updateScore result coin g)) as Hrest.
    rewrite (crossed_split 3 (ties g) (ties (updateScore result coin g))
               (ties (scoreRun turns (updateScore result coin g)))) by lia.
    rewrite (crossed_split 4 (ties g) (ties (updateScore result coin g))
               (ties (scoreRun turns (updateScore result coin g)))) by lia.
    unfold countTurns. simpl.
    destruct (isPlayerWin (result, coin)), (isAiWin (result, coin)); simpl; lia.
Qed.

(** *** The win check *)

(** Unfold every handler down to the record operations. *)
Ltac unfold_handlers :=
  unfold step, completeTurn, startContinuousGameplay, nextTeamLeaderTurn,
    selectTeamLeader, showDeceptionAnalysis, checkWinConditions,
    startRockPaperScissors, confirmSelections, castVote, processVoteResult,
    showTeamVoting, showPlayerDecision, cover in *.

Ltac handler_cases :=
  unfold_handlers; simpl in *;
  repeat (first [ case_match | case_decide ]; simpl in *; simplify_eq/=);
  try done.

Lemma checkWinConditions_ended (s : State) :
  gameEnded s = true -> checkWinConditions s = (false, s).
Proof. intros H. unfold checkWinConditions. by rewrite H. Qed.

Lemma checkWinConditions_true (s s' : State) :
  checkWinConditions s = (true, s') ->
  gameEnded s = false /\ gameEnded s' = true /\
  (good (winThresholds s) <= goodTeam (gameScore s) \/
   bad (winThresholds s) <= badTeam (gameScore s)) /\
  gameScore s' = gameScore s /\ winThresholds s' = winThresholds s.
Proof.
  unfold checkWinConditions. intros H.
  destruct (gameEnded s); [done |].
  repeat case_decide; simplify_eq/=; auto.
Qed.

Lemma checkWinConditions_false (s s' : State) :
  checkWinConditions s = (false, s') ->
  s' = s /\
  (gameEnded s = true \/
   (goodTeam (gameScore s) < good (winThresholds s) /\
    badTeam (gameScore s) < bad (winThresholds s))).
Proof.
  unfold checkWinConditions. intros H.
  destruct (gameEnded s); [by simplify_eq; auto |].
  repeat case_decide; simplify_eq/=. split; [done |]. right. lia.
Qed.

(** Nothing resets [gameEnded] or rewrites [winningTeam] once the game
    has ended. *)
Lemma step_ended (s : State) (e : Event) :
  gameEnded s = true ->
  gameEnded (step s e) = true /\ winningTeam (step s e) = winningTeam s.
Proof.
  intros H. destruct e; handler_cases.
Qed.

Lemma run_ended (s : State) (es : list Event) :
  gameEnded s = true ->
  gameEnded (run s es) = true /\ winningTeam (run s es) = winningTeam s.
Proof.
  revert s. induction es as [| e es IH]; intros s H; [done |].
  destruct (step_ended s e H) as [H1 H2].
  destruct (IH _ H1) as [H3 H4]. simpl. split; [done | congruence].
Qed.

(** C10: once [gameEnded] is set, [checkWinConditions] returns [false]
    and changes nothing, whatever the score, and it does so after every
    further sequence of events: the flag is never cleared and the winner
    never rewritten.  So a call that returns [true] is the last one to
    do so. *)
Theorem checkWinConditions_after_end (s : State) :
  (gameEnded s = true ->
   checkWinConditions s = (false, s) /\
   forall es,
     gameEnded (run s es) = true /\
     winningTeam (run s es) = winningTeam s /\
     checkWinConditions (run s es) = (false, run s es)) /\
  (forall s',
     checkWinConditions s = (true, s') ->
     forall es, checkWinConditions (run s' es) = (false, run s' es)).
Proof.
  assert (Hended : forall t, gameEnded t = true ->
            forall es, gameEnded (run t es) = true /\
                       winningTeam (run t es) = winningTeam t /\
                       checkWinConditions (run t es) = (false, run t es)).
  { intros t H es. destruct (run_ended t es H) as [H1 H2].
    split; [done |]. split; [done |]. by apply checkWinConditions_ended. }
  split.
  - intros H. split; [by apply checkWinConditions_ended | by apply Hended].
  - intros s' E es. apply checkWinConditions_true in E as (_ & E & _).
    by apply Hended.
Qed.

(** A game ended for Good on 4 of 4 points: the check says [false]. *)
Lemma checkWinConditions_after_end_witness :
  gameEnded endedGame = true /\
  good (winThresholds endedGame) <= goodTeam (gameScore endedGame) /\
  checkWinConditions endedGame = (false, endedGame).
Proof.
  split; [reflexivity |]. split; [vm_compute; lia |].
  exact (proj1 (proj1 (checkWinConditions_after_end endedGame) eq_refl)).
Defined.

(** *** The intervention vote *)

(** No handler writes [completedFirstRound], [players] or
    [winThresholds]. *)
Lemma step_constants (s : State) (e : Event) :
  completedFirstRound (step s e) = completedFirstRound s /\
  players (step s e) = players s /\
  winThresholds (step s e) = winThresholds s.
Proof. destruct e; handler_cases. Qed.

Lemma run_constants (s : State) (es : list Event) :
  completedFirstRound (run s es) = completedFirstRound s /\
  players (run s es) = players s /\
  winThresholds (run s es) = winThresholds s.
Proof.
  revert s. induction es as [| e es IH]; intros s; [done |].
  destruct (step_constants s e) as (H1 & H2 & H3).
  destruct (IH (step s e)) as (H4 & H5 & H6).
  simpl. repeat split; congruence.
Qed.

Lemma init_completedFirstRound roster rs s rs' :
  init roster rs = Returned s rs' -> completedFirstRound s = false.
Proof.
  unfold init. intros H.
  repeat (first [ case_match | case_decide ]; simplify_eq/=); done.
Qed.

(** The vote is taken only on a draw below 3/10, with five or more
    players, and with [completedFirstRound] set. *)
Lemma shouldVote_true r s :
  shouldVote r s = true <->
  completedFirstRound s = true /\ 5 <= length (players s) /\ (r < 3 # 10)%Q.
Proof.
  unfold shouldVote. rewrite !andb_true_iff, bool_decide_eq_true, below_true.
  tauto.
Qed.

(** In a duel started by [init] the flag stays [false], so the test
    [shouldVote] fails on every draw and no sequence of events reaches the
    team vote. *)
Lemma vote_never_activates roster rs s rs' es :
  init roster rs = Returned s rs' ->
  completedFirstRound (run s es) = false /\
  (forall r, shouldVote r (run s es) = false) /\
  (forall votesCast totalVotes, screen (run s es) <> TeamVoting votesCast totalVotes).
Proof.
  intros Hinit.
  assert (Hflag : forall es, completedFirstRound (run s es) = false).
  { intros es'. destruct (run_constants s es') as [-> _].
    by eapply init_completedFirstRound. }
  split; [apply Hflag |]. split.
  - intros r. unfold shouldVote. by rewrite Hflag.
  - assert (Hstart : forall a b, screen s <> TeamVoting a b).
    { unfold init in Hinit.
      repeat (first [ case_match | case_decide ]; simplify_eq/=); done. }
    induction es as [| e es IH] using rev_ind; [exact Hstart |].
    unfold run in *. rewrite fold_left_app. simpl.
    specialize (Hflag es). unfold run in Hflag.
    set (t := fold_left step es s) in *. clearbody t.
    intros a b. destruct e; handler_cases;
      try (by eapply IH); try congruence.
    all: unfold shouldVote in *; simpl in *; rewrite Hflag in *; done.
Qed.

(** C2 at a failing input: five players, one turn completed without a
    win, the leader of the second turn confirms and the draw for the
    vote is 0, below 3/10.  The flag is still [false], the test fails
    and the actor's screen comes up instead of the team vote. *)
Theorem second_turn_takes_no_vote :
  let s := run (started roster5) secondTurnConfirmed in
  length (players s) = 5 /\
  gameScore s = mkScore 1 0 0 /\
  gameEnded s = false /\
  lastSelectedPlayer s = Some 0 /\
  below 0 (3 # 10) = true /\
  completedFirstRound s = false /\
  shouldVote 0 s = false /\
  screen s = PlayerDecision None.
Proof. vm_compute. repeat split. Qed.

(** *** Scores, thresholds and the end of the duel *)

Lemma init_thresholds roster rs s rs' :
  init roster rs = Returned s rs' ->
  3 <= length roster <= 8 /\
  thresholds (length roster) = Some (winThresholds s) /\
  gameScore s = mkScore 0 0 0 /\ gameEnded s = false.
Proof.
  unfold init. intros H.
  repeat (first [ case_match | case_decide ]; simplify_eq/=).
  repeat split; try done; lia.
Qed.

Lemma thresholds_table :
  thresholds 3 = Some (mkThresholds 4 3) /\
  thresholds 4 = Some (mkThresholds 5 3) /\
  thresholds 5 = Some (mkThresholds 5 4) /\
  thresholds 6 = Some (mkThresholds 6 5) /\
  thresholds 7 = Some (mkThresholds 7 5) /\
  thresholds 8 = Some (mkThresholds 8 6).
Proof. repeat split. Qed.

Lemma updateScore_monotone result coin g :
  goodTeam g <= goodTeam (updateScore result coin g) /\
  badTeam g <= badTeam (updateScore result coin g) /\
  ties g <= ties (updateScore result coin g).
Proof.
  unfold updateScore. destruct result as [[| |] |]; simpl;
    repeat case_decide; try destruct (below _ _); simpl; lia.
Qed.

(** The counters never decrease, whatever the event. *)
Lemma step_score_monotone (s : State) (e : Event) :
  goodTeam (gameScore s) <= goodTeam (gameScore (step s e)) /\
  badTeam (gameScore s) <= badTeam (gameScore (step s e)) /\
  ties (gameScore s) <= ties (gameScore (step s e)).
Proof.
  destruct e; handler_cases;
    match goal with
    | |- context [updateScore ?r ?c ?g] => apply (updateScore_monotone r c g)
    end.
Qed.

Lemma run_score_monotone (s : State) (es : list Event) :
  goodTeam (gameScore s) <= goodTeam (gameScore (run s es)) /\
  badTeam (gameScore s) <= badTeam (gameScore (run s es)) /\
  ties (gameScore s) <= ties (gameScore (run s es)).
Proof.
  revert s. induction es as [| e es IH]; intros s; [simpl; lia |].
  pose proof (step_score_monotone s e). pose proof (IH (step s e)).
  simpl. lia.
Qed.

(** While the duel is on, a resolved turn ends it exactly when a team has
    reached its threshold, and then the victory screen comes up. *)
Lemma showDeceptionAnalysis_ends_iff coin (s : State) :
  gameEnded s = false ->
  let s' := showDeceptionAnalysis coin s in
  (gameEnded s' = true <->
     good (winThresholds s') <= goodTeam (gameScore s') \/
     bad (winThresholds s') <= badTeam (gameScore s')) /\
  (gameEnded s' = true -> screen s' = FinalVictory) /\
  (gameEnded s' = true ->
     winningTeam s' =
       Some (if decide (good (winThresholds s') <= goodTeam (gameScore s'))
             then TeamGood else TeamBad)).
Proof.
  intros H. unfold showDeceptionAnalysis, checkWinConditions. simpl.
  rewrite H.
  destruct (decide (good (winThresholds s) <=
                    goodTeam (updateScore (gameResult s) coin (gameScore s))))
    as [Hg | Hg]; simpl.
  { rewrite decide_True by done. repeat split; auto. }
  destruct (decide (bad (winThresholds s) <=
                    badTeam (updateScore (gameResult s) coin (gameScore s))))
    as [Hb | Hb]; simpl.
  { rewrite decide_False by done. repeat split; auto. }
  assert (Hsame : forall sc t,
            cover sc t = t \/ cover sc t = with_screen sc t).
  { intros sc t. unfold cover. destruct (screen t); auto. }
  destruct (Hsame RegularTurnAnalysis
              (with_gameScore (updateScore (gameResult s) coin (gameScore s)) s))
    as [E | E]; rewrite E in *; simpl in *; rewrite H;
    (split; [split; [done | intros [|]; lia] | split; done]).
Qed.

(** On the victory screen no click is handled. *)
Lemma victory_screen_ignores_clicks (s : State) (e : Event) :
  screen s = FinalVictory ->
  e <> VoteTimer -> e <> BattleBegins -> (forall c, e <> BattleEnds c) ->
  step s e = s.
Proof.
  intros H H1 H2 H3. destruct e; try congruence;
    try (by destruct (H3 coin)); unfold step; by rewrite H.
Qed.

(** With no handler in flight nothing at all changes there. *)
Lemma victory_screen_is_final (s : State) (e : Event) :
  screen s = FinalVictory ->
  voteTimer s = false -> pendingReveal s = 0 -> pendingAnalysis s = 0 ->
  step s e = s.
Proof.
  intros H Ht Hr Ha. destruct e; unfold step; rewrite ?H, ?Ht, ?Hr, ?Ha; done.
Qed.

(** C3 at a failing input: three players (thresholds 4 and 3), the Good
    team on 3 points, the actor beats the engine and double-clicks
    "Confirm Choice".  The first handler ends the duel on 4 points; the
    second one, already in flight, adds a fifth point to the ended
    duel. *)
Theorem score_changes_after_the_end :
  let s1 := run (started roster3) matchPoint in
  let s2 := run (started roster3) afterTheEnd in
  winThresholds s1 = mkThresholds 4 3 /\
  gameEnded s1 = true /\
  winningTeam s1 = Some TeamGood /\
  screen s1 = FinalVictory /\
  gameScore s1 = mkScore 4 0 0 /\
  s2 = step s1 (BattleEnds 0) /\
  gameEnded s2 = true /\
  gameScore s2 = mkScore 5 0 0.
Proof. vm_compute. repeat split. Qed.

(** *** Scoring in the duel *)

Lemma showDeceptionAnalysis_score coin (s : State) :
  gameScore (showDeceptionAnalysis coin s)
  = updateScore (gameResult s) coin (gameScore s).
Proof.
  unfold showDeceptionAnalysis, checkWinConditions, cover. simpl.
  repeat (first [ case_match | case_decide ]; simpl in *; simplify_eq/=); done.
Qed.

(** Only the end of a battle changes the score. *)
Lemma step_score (s : State) (e : Event) :
  gameScore (step s e)
  = match e, pendingAnalysis s with
    | BattleEnds coin, S _ => updateScore (gameResult s) coin (gameScore s)
    | _, _ => gameScore s
    end.
Proof.
  destruct e; handler_cases.
Qed.

(** Only the reveal writes [gameResult]. *)
Lemma step_gameResult (s : State) (e : Event) :
  gameResult (step s e)
  = match e, pendingReveal s with
    | BattleBegins, S _ => Some (determineWinner (playerMove s) (aiMove s))
    | _, _ => gameResult s
    end.
Proof.
  destruct e; handler_cases.
Qed.

Lemma run_gameResult (es : list Event) :
  forall s, noReveal s es = true -> gameResult (run s es) = gameResult s.
Proof.
  induction es as [| e es IH]; intros s Hno; [done |].
  simpl in *.
  assert (Hstep : gameResult (step s e) = gameResult s).
  { rewrite step_gameResult. destruct e; try done.
    by destruct (pendingReveal s). }
  rewrite <- Hstep. apply IH.
  destruct e; try done. by destruct (pendingReveal s).
Qed.

Lemma run_score (es : list Event) :
  forall s, gameScore (run s es) = scoreRun (resolvedTurns s es) (gameScore s).
Proof.
  induction es as [| e es IH]; intros s; [done |].
  simpl. rewrite IH, step_score.
  destruct e; try done. by destruct (pendingAnalysis s).
Qed.

(** C4, as stated, fails: the tie that brings the tie counter to three
    (or to four) also changes a team score.  Three players; two turns
    have ended in a tie; in the third the actor and the engine both show
    rock and the draw is 0: as the battle ends the Good team goes from 0
    to 1. *)
Lemma tie_changes_team_score :
  determineWinner (Some rock) (Some rock) = res_tie /\
  scoreRun [(Some res_tie, 0%Q); (Some res_tie, 0%Q)] (mkScore 0 0 0)
    = mkScore 0 0 2 /\
  updateScore (Some (determineWinner (Some rock) (Some rock))) 0 (mkScore 0 0 2)
    = mkScore 1 0 3 /\
  ~ (forall p a coin g,
       determineWinner (Some p) (Some a) = res_tie ->
       goodTeam (updateScore (Some res_tie) coin g) = goodTeam g /\
       badTeam (updateScore (Some res_tie) coin g) = badTeam g) /\
  (let s := run (started roster3) thirdTie in
   playerMove s = Some rock /\ aiMove s = Some rock /\
   gameResult s = Some res_tie /\ gameScore s = mkScore 0 0 2 /\
   gameScore (step s (BattleEnds 0)) = mkScore 1 0 3).
Proof.
  split; [reflexivity |]. split; [reflexivity |]. split; [reflexivity |].
  split; [| vm_compute; repeat split].
  intros H. specialize (H rock rock 0%Q (mkScore 0 0 2) eq_refl).
  destruct H as [H _]. vm_compute in H. discriminate.
Qed.

(** C4, amended.  When a handler of "Confirm Choice" reaches the reveal
    with the actor's move p and the engine's move a, the result it stores
    follows the standard table for all nine combinations: a tie exactly
    for equal moves, the actor's win exactly when p beats a, the engine's
    win exactly when a beats p; the score is not touched yet.  When the
    battle then ends, [showDeceptionAnalysis] scores that result: an
    actor win adds exactly one Good point and nothing else, an engine win
    exactly one Bad point and nothing else, a tie adds exactly one to the
    tie counter and changes no team score unless the new tie count is 3
    or 4.  Whatever is handled between the reveal and the end of the
    battle, short of another reveal, the result that is scored is the
    one of these two moves. *)
Theorem resolution_and_scoring (s : State) (p a : Move) (coin : Q) :
  playerMove s = Some p -> aiMove s = Some a -> 0 < pendingReveal s ->
  let r := determineWinner (Some p) (Some a) in
  let s1 := step s BattleBegins in
  let s2 := step s1 (BattleEnds coin) in
  let g := gameScore s in
  let g' := gameScore s2 in
  (r = res_tie <-> p = a) /\
  (r = res_player <-> standardBeats p a = true) /\
  (r = res_ai <-> standardBeats a p = true) /\
  gameResult s1 = Some r /\ gameScore s1 = g /\
  pendingAnalysis s1 = pendingAnalysis s + 1 /\
  s2 = showDeceptionAnalysis coin
         (with_pending (pendingReveal s1) (pendingAnalysis s) s1) /\
  g' = updateScore (Some r) coin g /\
  (r = res_player ->
     g' = mkScore (goodTeam g + 1) (badTeam g) (ties g)) /\
  (r = res_ai ->
     g' = mkScore (goodTeam g) (badTeam g + 1) (ties g)) /\
  (r = res_tie ->
     ties g' = ties g + 1 /\
     (ties g + 1 <> 3 -> ties g + 1 <> 4 ->
      goodTeam g' = goodTeam g /\ badTeam g' = badTeam g)) /\
  (forall es,
     noReveal s1 es = true -> 0 < pendingAnalysis (run s1 es) ->
     let s' := run s1 es in
     gameResult s' = Some r /\
     gameScore (step s' (BattleEnds coin))
     = updateScore (Some r) coin (gameScore s')).
Proof.
  intros Hp Ha Hpending. cbv zeta.
  split; [destruct p, a; done |].
  split; [destruct p, a; done |].
  split; [destruct p, a; done |].
  assert (Hs1 : gameResult (step s BattleBegins)
                = Some (determineWinner (Some p) (Some a)) /\
                gameScore (step s BattleBegins) = gameScore s /\
                pendingAnalysis (step s BattleBegins) = pendingAnalysis s + 1).
  { unfold step. destruct (pendingReveal s) as [| n]; [lia |].
    rewrite Hp, Ha. unfold cover. simpl. by destruct (screen s). }
  destruct Hs1 as (Hres & Hscore & Hana).
  split; [done |]. split; [done |]. split; [done |].
  assert (Hs2 : step (step s BattleBegins) (BattleEnds coin)
                = showDeceptionAnalysis coin
                    (with_pending (pendingReveal (step s BattleBegins))
                       (pendingAnalysis s) (step s BattleBegins))).
  { unfold step at 1. rewrite Hana. by rewrite Nat.add_1_r. }
  split; [done |].
  assert (Hg : gameScore (step (step s BattleBegins) (BattleEnds coin))
               = updateScore (Some (determineWinner (Some p) (Some a))) coin
                   (gameScore s)).
  { rewrite Hs2, showDeceptionAnalysis_score.
    cbn [with_pending gameResult gameScore]. by rewrite Hres, Hscore. }
  split; [done |]. rewrite Hg.
  split; [by intros -> |].
  split; [by intros -> |].
  split.
  { intros ->. unfold updateScore.
    repeat case_decide; try destruct (below _ _); simpl; try lia. }
  intros es Hno Hana'.
  assert (Hres' : gameResult (run (step s BattleBegins) es)
                  = Some (determineWinner (Some p) (Some a)))
    by (by rewrite run_gameResult).
  split; [done |].
  rewrite step_score, Hres'.
  destruct (pendingAnalysis (run (step s BattleBegins) es)); [lia | done].
Qed.

(** The theorem on the first turn of three players: the engine shows
    rock, the actor paper, and the Good team scores. *)
Lemma resolution_and_scoring_witness :
  let s := run (started roster3)
             (leaderPart 0 0 ++ [ClickFinalMove paper; ClickConfirmChoice]) in
  gameResult (step s BattleBegins) = Some res_player /\
  gameScore (step (step s BattleBegins) (BattleEnds 0)) = mkScore 1 0 0.
Proof.
  cbv zeta.
  set (s := run (started roster3)
              (leaderPart 0 0 ++ [ClickFinalMove paper; ClickConfirmChoice])).
  assert (Hp : playerMove s = Some paper) by (vm_compute; reflexivity).
  assert (Ha : aiMove s = Some rock) by (vm_compute; reflexivity).
  assert (Hpending : 0 < pendingReveal s) by (vm_compute; lia).
  assert (Hg : gameScore s = mkScore 0 0 0) by (vm_compute; reflexivity).
  pose proof (resolution_and_scoring s paper rock 0 Hp Ha Hpending) as H.
  cbv zeta in H.
  destruct H as (_ & _ & _ & Hres & _ & _ & _ & _ & Hwin & _).
  split; [exact Hres |].
  rewrite (Hwin eq_refl), Hg. reflexivity.
Defined.

(** *** The exact score of a duel *)

Lemma scoreRun_snoc turns x g :
  scoreRun (turns ++ [x]) g = updateScore (fst x) (snd x) (scoreRun turns g).
Proof. unfold scoreRun. by rewrite fold_left_app. Qed.

Lemma countTurns_snoc f turns x :
  countTurns f (turns ++ [x]) = countTurns f turns + (if f x then 1 else 0).
Proof.
  unfold countTurns. rewrite List.filter_app, length_app. simpl.
  by destruct (f x).
Qed.

Lemma thirdTieCoin_early turns :
  countTurns isTie turns <= 2 -> thirdTieCoin turns = None.
Proof.
  unfold countTurns, thirdTieCoin. intros H.
  by rewrite lookup_ge_None_2 by lia.
Qed.

Lemma thirdTieCoin_snoc turns x :
  thirdTieCoin (turns ++ [x]) =
    if decide (countTurns isTie turns = 2) then
      (if isTie x then Some (snd x) else None)
    else thirdTieCoin turns.
Proof.
  unfold countTurns, thirdTieCoin. rewrite List.filter_app. simpl.
  case_decide as Hk.
  - destruct (isTie x).
    + rewrite lookup_app_r by lia. by rewrite Hk, Nat.sub_diag.
    + rewrite app_nil_r. by rewrite lookup_ge_None_2 by lia.
  - destruct (decide (2 < length (List.filter isTie turns))) as [Hlt | Hge].
    + by rewrite lookup_app_l.
    + rewrite (lookup_ge_None_2 (List.filter isTie turns)) by lia.
      rewrite lookup_ge_None_2; [done |].
      rewrite length_app. destruct (isTie x); simpl; lia.
Qed.

(** The score after the turns of a duel that started at 0 : 0. *)
Lemma scoreRun_exact turns :
  let g := scoreRun turns (mkScore 0 0 0) in
  ties g = countTurns isTie turns /\
  goodTeam g =
    countTurns isPlayerWin turns
    + match thirdTieCoin turns with
      | Some coin => if below coin (1 # 2) then 1 else 0
      | None => 0
      end
    + (if bool_decide (4 <= countTurns isTie turns) then 1 else 0) /\
  badTeam g =
    countTurns isAiWin turns
    + match thirdTieCoin turns with
      | Some coin => if below coin (1 # 2) then 0 else 1
      | None => 0
      end.
Proof.
  cbv zeta. induction turns as [| [result coin] turns IH] using rev_ind.
  - done.
  - destruct IH as (Ht & Hg & Hb).
    rewrite scoreRun_snoc, !countTurns_snoc, thirdTieCoin_snoc. simpl.
    set (g := scoreRun turns (mkScore 0 0 0)) in *.
    set (k := countTurns isTie turns) in *.
    set (np := countTurns isPlayerWin turns) in *.
    set (na := countTurns isAiWin turns) in *.
    assert (Hearly : k <= 2 -> thirdTieCoin turns = None)
      by apply thirdTieCoin_early.
    assert (Hthird : forall c, thirdTieCoin turns = Some c -> 3 <= k).
    { intros c Hc. destruct (decide (k <= 2)) as [Hk |]; [| lia].
      rewrite Hearly in Hc by done. done. }
    destruct (thirdTieCoin turns) as [c3 |].
    + specialize (Hthird c3 eq_refl).
      unfold updateScore, isTie, isPlayerWin, isAiWin. simpl.
      destruct result as [[| |] |]; simpl;
        repeat case_decide; repeat case_bool_decide; simplify_eq/=;
        try lia; destruct (below c3 (1 # 2)); simpl; lia.
    + unfold updateScore, isTie, isPlayerWin, isAiWin. simpl.
      destruct result as [[| |] |]; simpl;
        repeat case_decide; repeat case_bool_decide; simplify_eq/=;
        try lia; try destruct (below coin (1 # 2)); simpl; lia.
Qed.

Lemma thirdTieCoin_None turns :
  thirdTieCoin turns = None <-> countTurns isTie turns <= 2.
Proof.
  split; [| apply thirdTieCoin_early].
  unfold thirdTieCoin, countTurns. intros H.
  destruct (List.filter isTie turns !! 2) as [x |] eqn:E; [done |].
  apply lookup_ge_None in E. lia.
Qed.

(** C5.  In the duel: when a battle that ended in a tie is scored, the
    tie counter goes up by one; if that makes it 3, one point goes to
    Good when the draw is below 1/2 and to Bad otherwise, and the two
    sets of draws are translates of each other (each half of [0,1)); if
    it makes it 4, one point goes to Good; at any other count no team
    score changes.  Over a whole duel started by [init] the score is the
    fold of these updates over the battles that ended: the ties are the
    battles that ended in a tie, Good has its wins, the bonus of the
    third tie if its draw was below 1/2 and one point once there are four
    ties, Bad has its wins and the bonus of the third tie otherwise: each
    bonus is counted once, however many ties follow. *)
Theorem tie_break_bonus :
  (forall coin a b,
     updateScore (Some res_tie) coin (mkScore a b 2) =
       if below coin (1 # 2) then mkScore (a + 1) b 3 else mkScore a (b + 1) 3) /\
  (forall coin,
     unit_draw coin ->
     (below coin (1 # 2) = true ->
        unit_draw (coin + (1 # 2)) /\ below (coin + (1 # 2)) (1 # 2) = false) /\
     (below coin (1 # 2) = false ->
        unit_draw (coin - (1 # 2)) /\ below (coin - (1 # 2)) (1 # 2) = true)) /\
  (forall coin a b,
     updateScore (Some res_tie) coin (mkScore a b 3) = mkScore (a + 1) b 4) /\
  (forall coin a b t,
     t <> 2 -> t <> 3 ->
     updateScore (Some res_tie) coin (mkScore a b t) = mkScore a b (t + 1)) /\
  (forall turns,
     let g := scoreRun turns (mkScore 0 0 0) in
     ties g = countTurns isTie turns /\
     goodTeam g + badTeam g =
       countTurns isPlayerWin turns + countTurns isAiWin turns
       + (if bool_decide (3 <= ties g) then 1 else 0)
       + (if bool_decide (4 <= ties g) then 1 else 0)) /\
  (forall (s : State) coin,
     0 < pendingAnalysis s -> gameResult s = Some res_tie ->
     let g := gameScore s in
     let g' := gameScore (step s (BattleEnds coin)) in
     ties g' = ties g + 1 /\
     (ties g = 2 ->
      g' = if below coin (1 # 2)
           then mkScore (goodTeam g + 1) (badTeam g) 3
           else mkScore (goodTeam g) (badTeam g + 1) 3) /\
     (ties g = 3 -> g' = mkScore (goodTeam g + 1) (badTeam g) 4) /\
     (ties g <> 2 -> ties g <> 3 ->
      g' = mkScore (goodTeam g) (badTeam g) (ties g + 1))) /\
  (forall roster rs s0 rs' es,
     init roster rs = Returned s0 rs' ->
     let g := gameScore (run s0 es) in
     let turns := resolvedTurns s0 es in
     g = scoreRun turns (mkScore 0 0 0) /\
     ties g = countTurns isTie turns /\
     (thirdTieCoin turns = None <-> ties g <= 2) /\
     goodTeam g =
       countTurns isPlayerWin turns
       + match thirdTieCoin turns with
         | Some coin => if below coin (1 # 2) then 1 else 0
         | None => 0
         end
       + (if bool_decide (4 <= ties g) then 1 else 0) /\
     badTeam g =
       countTurns isAiWin turns
       + match thirdTieCoin turns with
         | Some coin => if below coin (1 # 2) then 0 else 1
         | None => 0
         end).
Proof.
  split; [| split; [| split; [| split; [| split; [| split]]]]].
  - intros coin a b. unfold updateScore. simpl. by destruct (below _ _).
  - intros coin [H0 H1]. split; intros Hb.
    + apply below_true in Hb. rewrite below_false. unfold unit_draw.
      destruct coin as [n d]. unfold Qlt, Qle, Qplus in *. simpl in *. lia.
    + apply below_false in Hb. rewrite below_true. unfold unit_draw.
      destruct coin as [n d]. unfold Qlt, Qle, Qminus, Qplus, Qopp in *.
      simpl in *. lia.
  - intros coin a b. reflexivity.
  - intros coin a b t H2 H3. unfold updateScore. simpl.
    repeat case_decide; try lia. done.
  - intros turns. cbv zeta. split.
    + by rewrite scoreRun_ties.
    + rewrite scoreRun_points. unfold crossed. simpl.
      repeat case_bool_decide; lia.
  - intros s coin Hpending Hres. cbv zeta.
    rewrite step_score. destruct (pendingAnalysis s) as [| n]; [lia |].
    rewrite Hres. unfold updateScore.
    split; [repeat case_decide; try destruct (below _ _); simpl; lia |].
    split; [intros ->; simpl; by destruct (below _ _) |].
    split; [by intros -> |].
    intros H2 H3. rewrite !decide_False by lia. done.
  - intros roster rs s0 rs' es Hinit. cbv zeta.
    destruct (init_thresholds _ _ _ _ Hinit) as (_ & _ & Hzero & _).
    rewrite run_score, Hzero.
    destruct (scoreRun_exact (resolvedTurns s0 es)) as (Ht & Hg & Hb).
    split; [done |]. split; [done |].
    split; [rewrite Ht; apply thirdTieCoin_None |].
    split; [by rewrite Ht | done].
Qed.

(** The theorem on a duel of three players with five ties, the draw of
    the third being 3/4: Bad has the bonus of the third tie, Good that of
    the fourth, and the fifth gives nothing. *)
Lemma tie_break_bonus_witness :
  exists s0 rs',
    init roster3 (zeros 8) = Returned s0 rs' /\
    thirdTieCoin (resolvedTurns s0 fiveTies) = Some (3 # 4)%Q /\
    gameScore (run s0 fiveTies) = mkScore 1 1 5.
Proof.
  eexists _, _. split; [reflexivity |].
  destruct tie_break_bonus as (_ & _ & _ & _ & _ & _ & H).
  destruct (H roster3 (zeros 8) _ _ fiveTies eq_refl) as (Hscore & _).
  split; [vm_compute; reflexivity |].
  rewrite Hscore. vm_compute. reflexivity.
Defined.

(** *** Who sees the engine's move *)

(** C1, as stated, fails: the Team Leader's console shows the engine's
    move.  Two duels that differ only in the engine's draw (0: rock,
    1/2: paper) put up different consoles. *)
Lemma console_shows_engine_move :
  let a := run (started roster3) [ClickStartTurn 0 (zeros 8)] in
  let b := run (started roster3) [ClickStartTurn (1 # 2) (zeros 8)] in
  preReveal (screen a) = true /\
  b = with_aiMove (Some paper) a /\
  render a = Some (VConsole "rockpaperscissorspng/AIrock.png" "ROCK"
                     [(2, "Cy", "#00ffff", false); (0, "Ada", "#00ffff", false)]) /\
  render b = Some (VConsole "rockpaperscissorspng/AIpaper.png" "PAPER"
                     [(2, "Cy", "#00ffff", false); (0, "Ada", "#00ffff", false)]) /\
  ~ (forall s m, preReveal (screen s) = true -> render (with_aiMove m s) = render s).
Proof.
  cbv zeta. split; [reflexivity |]. split; [reflexivity |].
  split; [reflexivity |]. split; [reflexivity |].
  intros H.
  specialize (H (run (started roster3) [ClickStartTurn 0 (zeros 8)])
                (Some paper) eq_refl).
  vm_compute in H. discriminate.
Qed.

Lemma moveUpper_inj a b : moveUpper a = moveUpper b -> a = b.
Proof. by destruct a, b. Qed.

Lemma with_aiMove_twice m m' (s : State) :
  with_aiMove m (with_aiMove m' s) = with_aiMove m s.
Proof. done. Qed.

Lemma with_aiMove_same (s : State) : with_aiMove (aiMove s) s = s.
Proof. by destruct s. Qed.

Lemma sameButAiMove_spec (s t : State) :
  sameButAiMove s t <-> t = with_aiMove (aiMove t) s.
Proof.
  unfold sameButAiMove. split.
  - intros H. rewrite <- (with_aiMove_twice (aiMove t) None s), H.
    by rewrite with_aiMove_twice, with_aiMove_same.
  - intros ->. by rewrite !with_aiMove_twice.
Qed.

(** Before the reveal no handler reads [aiMove] ... *)
Lemma step_reads_no_aiMove (s : State) (e : Event) (m : option Move) :
  match e, pendingReveal s with BattleBegins, S _ => False | _, _ => True end ->
  with_aiMove None (step (with_aiMove m s) e) = with_aiMove None (step s e).
Proof.
  intros Hreveal.
  destruct e; unfold_handlers; unfold shouldVote, renderPlayerSelection in *;
    simpl in *;
    repeat (first [ case_match | case_decide ]; simpl in *; simplify_eq/=);
    done.
Qed.

(** ... and the draw of the engine's move goes nowhere else. *)
Lemma step_engine_draw (s : State) (e e' : Event) :
  sameButEngineDraw e e' ->
  with_aiMove None (step s e) = with_aiMove None (step s e').
Proof.
  intros H. destruct e, e'; simpl in H; simplify_eq; try done.
  - unfold step. destruct (screen s); try done.
    unfold startRockPaperScissors, renderPlayerSelection. simpl.
    repeat (first [ case_match | case_decide ]; simpl; simplify_eq/=); done.
  - unfold step. destruct (screen s); try done.
    unfold startRockPaperScissors, renderPlayerSelection. simpl.
    repeat (first [ case_match | case_decide ]; simpl; simplify_eq/=); done.
Qed.

Lemma step_sameButAiMove (s t : State) (e e' : Event) :
  sameButAiMove s t -> sameButEngineDraw e e' ->
  match e, pendingReveal s with BattleBegins, S _ => False | _, _ => True end ->
  sameButAiMove (step s e) (step t e').
Proof.
  intros Hst He Hreveal.
  pose proof (proj1 (sameButAiMove_spec s t) Hst) as Ht. clear Hst.
  revert Ht. generalize (aiMove t). intros m ->.
  unfold sameButAiMove.
  rewrite step_reads_no_aiMove.
  - by apply step_engine_draw.
  - assert (e' = BattleBegins -> e = BattleBegins).
    { intros ->. by destruct e. }
    destruct e'; try done.
    by rewrite (H eq_refl) in Hreveal.
Qed.

Lemma run_sameButAiMove (es es' : list Event) :
  Forall2 sameButEngineDraw es es' ->
  forall s t,
    sameButAiMove s t -> noReveal s es = true ->
    sameButAiMove (run s es) (run t es').
Proof.
  induction 1 as [| e e' es es' He Hes IH]; intros s t Hst Hbefore; [done |].
  simpl in *. apply IH.
  - apply step_sameButAiMove; [done | done |].
    destruct e; try done. by destruct (pendingReveal s).
  - destruct e; try done. by destruct (pendingReveal s).
Qed.

(** The screens other than the console and the battle scene are built
    without [aiMove]. *)
Lemma render_sameButAiMove (s t : State) :
  sameButAiMove s t ->
  isConsole (screen s) = false -> screen s <> BattleScene ->
  render s = render t.
Proof.
  intros Hst Hc Hb.
  pose proof (proj1 (sameButAiMove_spec s t) Hst) as Ht. clear Hst.
  revert Ht. generalize (aiMove t). intros m ->.
  unfold render, playerAt. simpl. by destruct (screen s).
Qed.

Lemma console_view (s : State) (v : View) :
  isConsole (screen s) = true -> render s = Some v ->
  exists a teammates,
    aiMove s = Some a /\
    v = VConsole (getMoveImage a false) (moveUpper a) teammates.
Proof.
  unfold render. destruct (screen s); simpl; try done.
  intros _ Hv. destruct (aiMove s) as [a |]; simpl in Hv; [| done].
  match type of Hv with
  | context [mapM ?f ?l] => destruct (mapM f l) as [t |]
  end; simpl in Hv; [| done].
  simplify_eq. eauto.
Qed.

Lemma console_view_differs (s : State) (m : option Move) (v : View) :
  isConsole (screen s) = true -> render s = Some v -> m <> aiMove s ->
  render (with_aiMove m s) <> Some v.
Proof.
  unfold render. simpl. destruct (screen s); simpl; try done.
  intros _ Hv Hne. destruct (aiMove s) as [a |]; simpl in Hv; [| done].
  match type of Hv with
  | context [mapM ?f ?l] => destruct (mapM f l) as [t |]
  end; simpl in Hv; [| done].
  simplify_eq. destruct m as [b |]; simpl; [| done].
  intros E. simplify_eq. apply Hne. f_equal.
  symmetry. by apply moveUpper_inj.
Qed.

(** C1, amended.  Take two duels in the same state but for the engine's
    move and let them handle the same events, the draws of the engine's
    move apart, up to the reveal.  Then they are still in the same state
    but for the engine's move: no handler before the reveal reads it, and
    its draw goes nowhere else.  Every screen but the Team Leader's
    console (and the battle scene, which is the reveal) is the same in
    both: the leader announcement, the team vote, the vote result and the
    actor's decision screen neither show nor depend on the move.  The
    console shows the move as an image and as text, so that two different
    moves give two different consoles. *)
Theorem engine_move_hidden_except_console (s t : State) (es es' : list Event) :
  sameButAiMove s t -> Forall2 sameButEngineDraw es es' ->
  noReveal s es = true ->
  let s' := run s es in
  let t' := run t es' in
  sameButAiMove s' t' /\
  screen t' = screen s' /\
  (isConsole (screen s') = false -> screen s' <> BattleScene ->
   render t' = render s') /\
  (forall m, preReveal (screen s') = true -> isConsole (screen s') = false ->
             render (with_aiMove m s') = render s') /\
  (isConsole (screen s') = true ->
   forall v, render s' = Some v ->
   exists a teammates,
     aiMove s' = Some a /\
     v = VConsole (getMoveImage a false) (moveUpper a) teammates) /\
  (isConsole (screen s') = true ->
   forall v, render s' = Some v ->
   (aiMove t' <> aiMove s' -> render t' <> Some v) /\
   (forall m, m <> aiMove s' -> render (with_aiMove m s') <> Some v)).
Proof.
  intros Hst Hes Hbefore. cbv zeta.
  pose proof (run_sameButAiMove es es' Hes s t Hst Hbefore) as Hrun.
  set (s' := run s es) in *. set (t' := run t es') in *.
  split; [done |].
  assert (Hscreen : screen t' = screen s').
  { change (screen (with_aiMove None t') = screen (with_aiMove None s')).
    by rewrite Hrun. }
  split; [done |].
  split; [intros; symmetry; by apply render_sameButAiMove |].
  split.
  { intros m Hpre Hc. symmetry. apply render_sameButAiMove; [| done |].
    - unfold sameButAiMove. by rewrite with_aiMove_twice.
    - intros E. by rewrite E in Hpre. }
  split; [intros Hc v Hv; by apply console_view |].
  intros Hc v Hv. split.
  - intros Hne. rewrite (proj1 (sameButAiMove_spec s' t') Hrun).
    by apply console_view_differs.
  - intros m Hne. by apply console_view_differs.
Qed.

(** The theorem on the first turn of three players, the engine drawing
    rock in one duel and paper in the other: the actor's decision screen
    is the same in both. *)
Lemma engine_move_hidden_except_console_witness :
  let a := run (started roster3) (leaderPartOn 0 0) in
  let b := run (started roster3) (leaderPartOn (1 # 2) 0) in
  screen a = PlayerDecision None /\
  aiMove a = Some rock /\ aiMove b = Some paper /\
  render b = render a.
Proof.
  cbv zeta.
  assert (Hes : Forall2 sameButEngineDraw (leaderPartOn 0 0)
                  (leaderPartOn (1 # 2) 0)).
  { repeat constructor. }
  assert (Hbefore : noReveal (started roster3) (leaderPartOn 0 0) = true)
    by (vm_compute; reflexivity).
  destruct (engine_move_hidden_except_console (started roster3)
              (started roster3) _ _ eq_refl Hes Hbefore)
    as (_ & _ & Hrender & _).
  split; [vm_compute; reflexivity |].
  split; [vm_compute; reflexivity |]. split; [vm_compute; reflexivity |].
  apply Hrender; [vm_compute; reflexivity |].
  intros E. vm_compute in E. discriminate.
Defined.

(** *** Choosing the actor *)

Lemma availablePlayers_spec (s : State) (i : nat) :
  i ∈ availablePlayers s <->
  i < length (players s) /\ Some i <> teamLeader s /\ lastSelectedPlayer s <> Some i.
Proof.
  unfold availablePlayers. rewrite list_elem_of_filter, elem_of_seq.
  intuition lia.
Qed.

Lemma renderPlayerSelection_options (s : State) rs options :
  renderPlayerSelection s rs = Some options ->
  forall i b,
    (i, b) ∈ options <->
    i < length (players s) /\ Some i <> teamLeader s /\
    b = bool_decide (lastSelectedPlayer s = Some i).
Proof.
  unfold renderPlayerSelection. intros H.
  destruct (Shuffle.shuffleArray _ rs) as [[shuffled rest] |] eqn:E; [| done].
  simplify_eq. apply ShuffleFacts.shuffleArray_Permutation in E.
  intros i b. rewrite list_elem_of_fmap. split.
  - intros (j & Hj & Hin). simplify_eq. rewrite E in Hin.
    apply list_elem_of_filter in Hin as [H1 H2]. apply elem_of_seq in H2.
    repeat split; [lia | done].
  - intros (H1 & H2 & ->). exists i. split; [done |].
    rewrite E. apply list_elem_of_filter. split; [done |].
    apply elem_of_seq. lia.
Qed.

Lemma renderPlayerSelection_draws (s : State) rs :
  length (players s) - 1 <= length rs ->
  exists options, renderPlayerSelection s rs = Some options.
Proof.
  intros H. unfold renderPlayerSelection.
  match goal with
  | |- context [Shuffle.shuffleArray ?l rs] =>
      destruct (ShuffleFacts.shuffleArray_draws l rs) as [b Hb]
  end.
  - etransitivity; [| exact H].
    assert (length (filter (fun i => Some i <> teamLeader s)
                      (seq 0 (length (players s)))) <= length (players s)).
    { etransitivity; [apply length_filter |]. by rewrite length_seq. }
    lia.
  - rewrite Hb. eauto.
Qed.

(** With three or more players there is always somebody to choose. *)
Lemma availablePlayers_nonempty (s : State) :
  3 <= length (players s) -> availablePlayers s <> [].
Proof.
  intros Hn.
  assert (exists i, i < 3 /\ Some i <> teamLeader s /\ lastSelectedPlayer s <> Some i)
    as (i & Hi & Hl & Hp).
  { destruct (teamLeader s) as [[| [| l]] |], (lastSelectedPlayer s) as [[| [| p]] |];
      first [ exists 0; split; [lia | split; congruence]
            | exists 1; split; [lia | split; congruence]
            | exists 2; split; [lia | split; congruence] ]. }
  assert (Hin : i ∈ availablePlayers s).
  { apply availablePlayers_spec. repeat split; [lia | done | done]. }
  intros E. rewrite E in Hin. by apply not_elem_of_nil in Hin.
Qed.




End DuelFacts.

(** ** The [Map] model *)

Module JSMapFacts.
Import JSMap.
Section Generic.
Context {V : Type}.
Implicit Types (m : list (nat * V)) (k : nat) (v : V).

Lemma mget_mset_eq k v m : mget k (mset k v m) = Some v.
Proof.
  induction m as [| [k' v'] m IH]; simpl.
  - by rewrite decide_True.
  - case_decide; simpl; [by rewrite decide_True | by rewrite decide_False].
Qed.

Lemma mget_mset_ne k k' v m : k' <> k -> mget k' (mset k v m) = mget k' m.
Proof.
  intros Hne. induction m as [| [k0 v0] m IH]; simpl.
  - by rewrite decide_False.
  - case_decide; simplify_eq/=.
    + by rewrite !decide_False.
    + case_decide; [done | exact IH].
Qed.

Lemma mkeys_mset k v m :
  mkeys (mset k v m) = if decide (k ∈ mkeys m) then mkeys m else mkeys m ++ [k].
Proof.
  unfold mkeys. induction m as [| [k0 v0] m IH]; cbn [mset map fst app].
  - destruct (decide (k ∈ [])) as [Hin | _]; [| done].
    by apply not_elem_of_nil in Hin.
  - destruct (decide (k = k0)) as [-> | Hne]; cbn [map fst].
    + rewrite decide_True; [done | apply list_elem_of_here].
    + rewrite IH. destruct (decide (k ∈ map fst m)) as [Hin | Hin].
      * rewrite decide_True; [done | by apply list_elem_of_further].
      * rewrite decide_False; [done |].
        rewrite elem_of_cons. intros [? | ?]; done.
Qed.

Lemma elem_of_mset k v k' v' m :
  (k', v') ∈ mset k v m -> (k', v') = (k, v) \/ (k', v') ∈ m.
Proof.
  induction m as [| [k0 v0] m IH]; simpl.
  - rewrite list_elem_of_singleton. auto.
  - case_decide; simplify_eq/=; rewrite !elem_of_cons; intuition.
Qed.

(** [set] on a new key adds one entry; on a present key it adds none. *)
Lemma msize_mset k v m :
  msize (mset k v m) = if decide (k ∈ mkeys m) then msize m else S (msize m).
Proof.
  unfold msize. rewrite <- (length_map fst (mset k v m)).
  change (map fst (mset k v m)) with (mkeys (mset k v m)).
  rewrite mkeys_mset. unfold mkeys.
  case_decide; rewrite ?length_app, length_map; simpl; lia.
Qed.

End Generic.
End JSMapFacts.

(** ** The suspicion vote *)

Module FirstImpressionsFacts.
Import RoleManager FirstImpressions JSMap JSMapFacts.

(** *** Facts about [find] *)

Lemma find_none_iff {A} (P : A -> bool) (l : list A) :
  find P l = None <-> forall x, x ∈ l -> P x = false.
Proof.
  induction l as [| a l IH]; simpl.
  - split; [intros _ x Hx; by apply not_elem_of_nil in Hx | done].
  - destruct (P a) eqn:E.
    + split; [done |]. intros H. specialize (H a (list_elem_of_here _ _)). congruence.
    + rewrite IH. split.
      * intros H x Hx. apply elem_of_cons in Hx as [-> | Hx]; auto.
      * intros H x Hx. apply H. by apply list_elem_of_further.
Qed.

Lemma find_ext_elem {A} (P Q : A -> bool) (l : list A) :
  (forall x, x ∈ l -> P x = Q x) -> find P l = find Q l.
Proof.
  induction l as [| a l IH]; intros H; simpl; [done |].
  rewrite (H a (list_elem_of_here _ _)).
  destruct (Q a); [done |]. apply IH. intros x Hx. apply H.
  by apply list_elem_of_further.
Qed.

Lemma find_app {A} (P : A -> bool) (l1 l2 : list A) :
  find P (l1 ++ l2) = match find P l1 with Some y => Some y | None => find P l2 end.
Proof. induction l1 as [| a l1 IH]; simpl; [done |]. by destruct (P a). Qed.

Lemma find_map {A B} (f : A -> B) (P : B -> bool) (l : list A) :
  find P (map f l) = f <$> find (fun x => P (f x)) l.
Proof. induction l as [| a l IH]; simpl; [done |]. by destruct (P (f a)). Qed.

Lemma forallb_elem {A} (P : A -> bool) (l : list A) :
  forallb P l = true <-> forall x, x ∈ l -> P x = true.
Proof.
  rewrite forallb_forall. split; intros H x Hx; apply H; by apply list_elem_of_In.
Qed.

Lemma forallb_same_elements {A} (P : A -> bool) (l1 l2 : list A) :
  (forall x, x ∈ l1 <-> x ∈ l2) -> forallb P l1 = forallb P l2.
Proof.
  intros H. apply eq_true_iff_eq. rewrite !forallb_elem.
  split; intros Hall x Hx; apply Hall; by apply H.
Qed.

(** A non-empty list of numbers has a greatest element. *)
Lemma greatest_exists {A} (f : A -> nat) (l : list A) :
  l <> [] -> exists x, x ∈ l /\ forallb (fun y => f y <=? f x) l = true.
Proof.
  induction l as [| a l IH]; [done |]. intros _.
  destruct l as [| b l].
  - exists a. split; [apply list_elem_of_here |]. simpl.
    rewrite andb_true_r. apply Nat.leb_le. lia.
  - destruct IH as (x & Hx & Hall); [done |].
    rewrite forallb_elem in Hall.
    destruct (decide (f a <= f x)) as [Hle | Hgt].
    + exists x. split; [by apply list_elem_of_further |].
      apply forallb_elem. intros y Hy. apply elem_of_cons in Hy as [-> | Hy].
      * by apply Nat.leb_le.
      * by apply Hall.
    + exists a. split; [apply list_elem_of_here |].
      apply forallb_elem. intros y Hy. apply elem_of_cons in Hy as [-> | Hy].
      * apply Nat.leb_le. lia.
      * specialize (Hall y Hy). apply Nat.leb_le in Hall. apply Nat.leb_le. lia.
Qed.

(** *** The order of the keys *)

Lemma elem_of_keysAfter keys l x :
  x ∈ keysAfter keys l <-> x ∈ keys \/ x ∈ l.
Proof.
  revert keys. induction l as [| a l IH]; intros keys; simpl.
  - rewrite elem_of_nil. tauto.
  - rewrite IH, elem_of_cons. case_decide as Hin.
    + split; [tauto |]. intros [? | [-> | ?]]; auto.
    + rewrite elem_of_app, list_elem_of_singleton. tauto.
Qed.

(** Searching the keys in their order is searching the list itself. *)
Lemma find_keysAfter (P : nat -> bool) keys l :
  find P (keysAfter keys l) =
    match find P keys with Some y => Some y | None => find P l end.
Proof.
  revert keys. induction l as [| a l IH]; intros keys; simpl.
  - by destruct (find P keys).
  - rewrite IH. case_decide as Hin.
    + destruct (find P keys) eqn:E; [done |].
      rewrite find_none_iff in E. by rewrite (E a Hin).
    + rewrite find_app. simpl.
      destruct (find P keys); [done |]. by destruct (P a).
Qed.

(** *** The two loops of [analyzeVotes] *)

Lemma bruteForceCount_cons v vs s :
  bruteForceCount (v :: vs) s =
    (if decide (snd v = s) then 1 else 0) + bruteForceCount vs s.
Proof.
  unfold bruteForceCount. rewrite filter_cons.
  destruct (decide (snd v = s)); simpl; lia.
Qed.

Lemma bruteForceCount_pos vs s : s ∈ map snd vs -> 0 < bruteForceCount vs s.
Proof.
  induction vs as [| v vs IH]; simpl; [by intros ?%not_elem_of_nil |].
  rewrite elem_of_cons, bruteForceCount_cons. intros [-> | Hin].
  - rewrite decide_True by done. lia.
  - specialize (IH Hin). lia.
Qed.

Lemma NoDup_mkeys_mset {V} k (v : V) m :
  NoDup (mkeys m) -> NoDup (mkeys (mset k v m)).
Proof.
  intros H. rewrite mkeys_mset. case_decide as Hin; [done |].
  apply NoDup_app. split; [done |]. split; [| apply NoDup_singleton].
  intros x Hx ->%list_elem_of_singleton. done.
Qed.

(** A map with one entry per key is its keys, each with its value. *)
Lemma map_of_its_keys (m : list (nat * nat)) :
  NoDup (mkeys m) -> m = map (fun k => (k, default 0 (mget k m))) (mkeys m).
Proof.
  unfold mkeys. induction m as [| [k c] m IH]; intros Hnd; [done |].
  cbn [map fst] in *. apply NoDup_cons in Hnd as [Hk Hnd].
  cbn [mget]. rewrite decide_True by done. simpl. f_equal.
  rewrite (IH Hnd) at 1. apply map_ext_in. intros k' Hk'.
  apply list_elem_of_In in Hk'.
  rewrite decide_False; [done |]. by intros ->.
Qed.

(** The first loop, started on any map [m]: the keys in the order of
    first appearance, each with its old count plus its occurrences. *)
Lemma count_loop vs (m : list (nat * nat)) :
  NoDup (mkeys m) ->
  fold_left countStep vs m =
    map (fun k => (k, default 0 (mget k m) + bruteForceCount vs k))
        (keysAfter (mkeys m) (map snd vs)).
Proof.
  revert m. induction vs as [| [v s] vs IH]; intros m Hnd.
  - simpl. rewrite (map_of_its_keys m Hnd) at 1.
    apply map_ext. intros k. unfold bruteForceCount. simpl.
    by rewrite Nat.add_0_r.
  - cbn [fold_left map snd keysAfter]. unfold countStep at 2. cbn [snd].
    rewrite IH by (by apply NoDup_mkeys_mset).
    rewrite mkeys_mset. apply map_ext. intros k.
    rewrite bruteForceCount_cons. cbn [snd]. f_equal.
    destruct (decide (s = k)) as [-> | Hne].
    + rewrite mget_mset_eq. simpl. lia.
    + rewrite mget_mset_ne by done. lia.
Qed.

Lemma countSuspicions_spec vs :
  countSuspicions vs =
    map (fun k => (k, bruteForceCount vs k)) (keysAfter [] (map snd vs)).
Proof.
  unfold countSuspicions. rewrite count_loop by apply NoDup_nil_2. done.
Qed.

(** The second loop, started on any pair: the first entry that beats the
    running maximum and is beaten by no entry. *)
Lemma max_loop (es : list (nat * nat)) (b : option nat) (mx : nat) :
  fold_left maxStep es (b, mx) =
    match find (fun e => (mx <? snd e)
                         && forallb (fun e' => snd e' <=? snd e) es) es with
    | Some e => (Some (fst e), snd e)
    | None => (b, mx)
    end.
Proof.
  revert b mx. induction es as [| [k c] es IH]; intros b mx; [done |].
  cbn [fold_left]. unfold maxStep at 2. cbn [fst snd].
  cbn [find forallb snd]. rewrite Nat.leb_refl. cbn [andb].
  destruct (decide (mx < c)) as [Hlt | Hge].
  - rewrite IH. replace (mx <? c) with true by (symmetry; by apply Nat.ltb_lt).
    cbn [andb].
    destruct (forallb (fun e' => snd e' <=? c) es) eqn:Hall.
    + (* nothing further on beats [c] *)
      rewrite forallb_elem in Hall.
      replace (find _ es) with (@None (nat * nat)); [done |].
      symmetry. apply find_none_iff. intros x Hx.
      specialize (Hall x Hx). apply Nat.leb_le in Hall.
      apply andb_false_iff. left. apply Nat.ltb_ge. lia.
    + (* something further on beats [c]: the searches agree *)
      assert (Hbig : exists y, y ∈ es /\ c < snd y).
      { apply not_true_iff_false in Hall. rewrite forallb_elem in Hall.
        destruct (decide (Exists (fun y => c < snd y) es)) as [Hex | Hno].
        - apply Exists_exists in Hex. naive_solver.
        - exfalso. apply Hall. intros x Hx. apply Nat.leb_le.
          rewrite Exists_exists in Hno.
          destruct (decide (snd x <= c)); [done |].
          exfalso. apply Hno. exists x. split; [done | lia]. }
      destruct Hbig as (y & Hy & Hyc).
      assert (Hagree : forall x : nat * nat,
                (c <? snd x) && forallb (fun e' => snd e' <=? snd x) es
                = (mx <? snd x)
                  && ((c <=? snd x) && forallb (fun e' => snd e' <=? snd x) es)).
      { intros x.
        destruct (forallb (fun e' => snd e' <=? snd x) es) eqn:Hx;
          [| by rewrite !andb_false_r].
        rewrite forallb_elem in Hx. specialize (Hx y Hy).
        apply Nat.leb_le in Hx. rewrite !andb_true_r.
        replace (c <? snd x) with true by (symmetry; apply Nat.ltb_lt; lia).
        replace (mx <? snd x) with true by (symmetry; apply Nat.ltb_lt; lia).
        replace (c <=? snd x) with true by (symmetry; apply Nat.leb_le; lia).
        done. }
      rewrite (find_ext_elem _ _ es (fun x _ => Hagree x)).
      destruct (find _ es) as [e |] eqn:Hfind; [done |].
      exfalso. rewrite find_none_iff in Hfind.
      destruct (greatest_exists (fun e : nat * nat => snd e) es) as (g & Hg & Hgall).
      { intros ->. by apply not_elem_of_nil in Hy. }
      specialize (Hfind g Hg). rewrite Hgall, andb_true_r in Hfind.
      pose proof Hgall as Hgy. rewrite forallb_elem in Hgy.
      specialize (Hgy y Hy). apply Nat.leb_le in Hgy.
      apply andb_false_iff in Hfind as [Hf | Hf].
      * apply Nat.ltb_ge in Hf. lia.
      * apply Nat.leb_gt in Hf. lia.
  - rewrite IH. replace (mx <? c) with false by (symmetry; apply Nat.ltb_ge; lia).
    cbn [andb]. erewrite find_ext_elem; [reflexivity |].
    intros x _. cbn beta.
    destruct (mx <? snd x) eqn:E; [| done]. cbn [andb].
    apply Nat.ltb_lt in E.
    replace (c <=? snd x) with true by (symmetry; apply Nat.leb_le; lia).
    done.
Qed.

Lemma bruteForceCount_zero vs s : s ∉ map snd vs -> bruteForceCount vs s = 0.
Proof.
  induction vs as [| v vs IH]; [done |].
  cbn [map]. rewrite not_elem_of_cons, bruteForceCount_cons. intros [Hne Hin].
  rewrite decide_False by done. by rewrite IH.
Qed.

Lemma mget_of_keys (f : nat -> nat) (keys : list nat) (k : nat) :
  mget k (map (fun x => (x, f x)) keys) =
    if decide (k ∈ keys) then Some (f k) else None.
Proof.
  induction keys as [| x keys IH]; cbn [map mget].
  - destruct (decide (k ∈ [])) as [Hin | _]; [| done].
    by apply not_elem_of_nil in Hin.
  - destruct (decide (k = x)) as [-> | Hne].
    + rewrite decide_True; [done | apply list_elem_of_here].
    + rewrite IH. destruct (decide (k ∈ keys)) as [Hin | Hin].
      * rewrite decide_True; [done | by apply list_elem_of_further].
      * rewrite decide_False; [done |]. rewrite elem_of_cons. tauto.
Qed.

(** The count that the code keeps for a suspect is the number of votes
    against them; a player nobody suspects has no entry. *)
Lemma suspicionCounts_brute_force vs s :
  mget s (suspicionCounts (analyzeVotes vs)) =
    if decide (bruteForceCount vs s = 0) then None
    else Some (bruteForceCount vs s).
Proof.
  unfold analyzeVotes. cbn [suspicionCounts].
  rewrite countSuspicions_spec, mget_of_keys.
  destruct (decide (s ∈ keysAfter [] (map snd vs))) as [Hin | Hin].
  - apply elem_of_keysAfter in Hin as [Hin | Hin]; [by apply elem_of_nil in Hin |].
    apply bruteForceCount_pos in Hin. rewrite decide_False by lia. done.
  - rewrite decide_True; [done |]. apply bruteForceCount_zero.
    intros H. apply Hin. apply elem_of_keysAfter. by right.
Qed.

(** The most suspected player that the code finds is the one of the
    brute-force count. *)
Lemma mostSuspected_brute_force vs :
  mostSuspected (analyzeVotes vs) = bruteForceMostSuspected vs.
Proof.
  unfold analyzeVotes, bruteForceMostSuspected, findMostSuspected.
  cbn [mostSuspected]. rewrite max_loop, countSuspicions_spec.
  set (D := keysAfter [] (map snd vs)).
  set (f := fun k => (k, bruteForceCount vs k)).
  rewrite find_map.
  assert (HD : forall k, k ∈ D <-> k ∈ map snd vs).
  { intros k. unfold D. rewrite elem_of_keysAfter, elem_of_nil. tauto. }
  rewrite (find_ext_elem _
             (fun s => forallb (fun s' => bruteForceCount vs s' <=? bruteForceCount vs s)
                               (map snd vs)) D).
  - unfold D at 1. rewrite find_keysAfter. cbn [find].
    by destruct (find _ (map snd vs)).
  - intros k Hk. unfold f at 1. cbn [snd].
    replace (0 <? bruteForceCount vs k) with true
      by (symmetry; apply Nat.ltb_lt, bruteForceCount_pos; by apply HD).
    cbn [andb]. apply eq_true_iff_eq. rewrite !forallb_elem. split.
    + intros H s' Hs'. apply HD in Hs'.
      apply (H (f s')). apply list_elem_of_fmap. by exists s'.
    + intros H e He. apply list_elem_of_fmap in He as (s' & -> & Hs').
      apply HD in Hs'. exact (H s' Hs').
Qed.

(** *** Casting votes *)

(** The voter gets no option for themselves. *)
Lemma suspectOptions_spec (ps : list Player) (votingPlayer i : nat) :
  i ∈ suspectOptions ps votingPlayer <-> i < length ps /\ i <> votingPlayer.
Proof.
  unfold suspectOptions. rewrite list_elem_of_filter, elem_of_seq. lia.
Qed.

Lemma callNextPlayer_sound (s : State) :
  (forall voter suspect, (voter, suspect) ∈ votes s -> voter <> suspect) ->
  votesSound (callNextPlayer s).
Proof.
  intros H. unfold callNextPlayer. case_decide; split; simpl; done.
Qed.

Lemma init_sound roster rs s rs' :
  init roster rs = Returned s rs' -> votesSound s.
Proof.
  unfold init. destruct (Shuffle.shuffleArray roster rs) as [[ps rest] |]; [| done].
  intros [= <- _]. apply callNextPlayer_sound. simpl.
  intros ? ? H. by apply elem_of_nil in H.
Qed.

Lemma step_sound (s : State) (e : Event) : votesSound s -> votesSound (step s e).
Proof.
  intros Hs. pose proof Hs as [Hv Ho]. unfold step.
  destruct (screen s) as [| votingPlayer options | |] eqn:Hsc; destruct e;
    try exact Hs.
  - split; simpl; [done |]. by intros ? ? [= <- <-].
  - case_decide as Hin; [| exact Hs].
    split; simpl; [| done].
    intros voter suspect Hvs. unfold recordVote in Hvs.
    apply elem_of_mset in Hvs as [[= -> ->] | Hvs]; [| by eapply Hv].
    rewrite (Ho _ _ eq_refl) in Hin.
    apply suspectOptions_spec in Hin. lia.
  - by apply callNextPlayer_sound.
Qed.

Lemma run_sound (s : State) (es : list Event) : votesSound s -> votesSound (run s es).
Proof.
  revert s. induction es as [| e es IH]; intros s H; [done |].
  simpl. by apply IH, step_sound.
Qed.

(** A click on the voter's own position hits no option: nothing happens. *)
Lemma self_vote_rejected (s : State) votingPlayer options :
  votesSound s ->
  screen s = VotingInterface votingPlayer options ->
  step s (ClickSuspect votingPlayer) = s.
Proof.
  intros [_ Ho] Hsc. unfold step. rewrite Hsc.
  rewrite decide_False; [done |].
  rewrite (Ho _ _ Hsc), suspectOptions_spec. lia.
Qed.

(** Votes by voters who have not voted yet are appended one by one. *)
Lemma recordVote_fresh voter suspect (vs : list (nat * nat)) :
  voter ∉ mkeys vs -> recordVote voter suspect vs = vs ++ [(voter, suspect)].
Proof.
  unfold recordVote, mkeys. induction vs as [| [k v] vs IH]; simpl; [done |].
  rewrite not_elem_of_cons. intros [Hne Hin].
  rewrite decide_False by done. by rewrite IH.
Qed.

Lemma unique_voters_recorded (cast vs : list (nat * nat)) :
  NoDup (mkeys vs ++ map fst cast) ->
  fold_left (fun m c => recordVote (fst c) (snd c) m) cast vs = vs ++ cast.
Proof.
  revert vs. induction cast as [| [voter suspect] cast IH]; intros vs Hnd; simpl.
  - by rewrite app_nil_r.
  - apply NoDup_app in Hnd as (Hvs & Hdisj & Hcast).
    apply NoDup_cons in Hcast as [Hvoter Hcast].
    rewrite recordVote_fresh.
    2: { intros Hin. apply (Hdisj _ Hin). apply list_elem_of_here. }
    rewrite IH; [by rewrite <- app_assoc |].
    unfold mkeys. rewrite map_app. simpl. rewrite <- app_assoc. simpl.
    apply NoDup_app. split; [done |]. split; [| by apply NoDup_cons].
    intros x Hx. apply Hdisj. done.
Qed.

(** The whole vote, from the state in which player [k] is called. *)
Lemma everybodyVotes_from (ps : list Player) (suspects : list nat) :
  forall (k : nat) (vs : list (nat * nat)) sc fi,
    k + length suspects = length ps ->
    (forall i suspect, suspects !! i = Some suspect ->
                       suspect < length ps /\ suspect <> k + i) ->
    (forall voter, voter ∈ mkeys vs -> voter < k) ->
    run (callNextPlayer (mkState ps vs k sc fi)) (everybodyVotes suspects) =
      callNextPlayer
        (mkState ps (vs ++ imap (fun i suspect => (k + i, suspect)) suspects)
                 (length ps) VoteConfirmation fi).
Proof.
  induction suspects as [| suspect suspects IH]; intros k vs sc fi Hlen Hvalid Hkeys.
  - simpl in *. rewrite app_nil_r. replace k with (length ps) by lia.
    unfold callNextPlayer. simpl. by rewrite !decide_True by lia.
  - simpl in Hlen. cbn [everybodyVotes flat_map app run fold_left].
    destruct (Hvalid 0 suspect eq_refl) as [Hlt Hne].
    assert (Hcall : callNextPlayer (mkState ps vs k sc fi)
                    = mkState ps vs k CallPlayer fi).
    { unfold callNextPlayer. simpl. rewrite decide_False by lia. done. }
    rewrite Hcall. cbn [step screen players votes currentPlayerIndex firstImpressions].
    rewrite decide_True by (apply suspectOptions_spec; lia).
    rewrite recordVote_fresh.
    2: { intros Hin. apply Hkeys in Hin. lia. }
    specialize (IH (S k) (vs ++ [(k, suspect)]) VoteConfirmation fi).
    unfold run, everybodyVotes in IH.
    cbn [step screen players votes currentPlayerIndex firstImpressions].
    rewrite IH.
    + f_equal. f_equal. rewrite <- app_assoc. simpl. f_equal. f_equal.
      * f_equal. lia.
      * apply imap_ext. intros i x _. simpl. f_equal. lia.
    + lia.
    + intros i x Hi. destruct (Hvalid (S i) x Hi). split; [done | lia].
    + intros voter. unfold mkeys. rewrite map_app, elem_of_app. simpl.
      rewrite list_elem_of_singleton. intros [Hin | ->]; [| lia].
      apply Hkeys in Hin. lia.
Qed.

(** C9: in a vote started by [init], whatever is clicked, no recorded
    vote has the voter as its suspect, and a click on the voter's own
    position changes nothing; votes cast by distinct voters are all
    recorded, one entry each, and when every player in turn votes for
    somebody else the vote completes with as many entries as players;
    the most suspected player and the counts that [analyzeVotes] stores
    are those of the brute-force count, the first suspect in voter order
    winning a draw. *)
Theorem suspicion_tally :
  (forall roster rs s0 rs' es,
     init roster rs = Returned s0 rs' ->
     let s := run s0 es in
     (forall voter suspect, (voter, suspect) ∈ votes s -> voter <> suspect) /\
     (forall votingPlayer options,
        screen s = VotingInterface votingPlayer options ->
        step s (ClickSuspect votingPlayer) = s)) /\
  (forall cast,
     NoDup (map fst cast) ->
     msize (fold_left (fun m c => recordVote (fst c) (snd c) m) cast [])
       = length cast) /\
  (forall roster rs s0 rs' suspects,
     init roster rs = Returned s0 rs' ->
     length suspects = length roster ->
     (forall i suspect, suspects !! i = Some suspect ->
                        suspect < length roster /\ suspect <> i) ->
     let s := run s0 (everybodyVotes suspects) in
     screen s = VotingComplete /\
     msize (votes s) = length roster /\
     firstImpressions s = Some (analyzeVotes (votes s))) /\
  (forall vs,
     mostSuspected (analyzeVotes vs) = bruteForceMostSuspected vs /\
     forall s,
       mget s (suspicionCounts (analyzeVotes vs)) =
         if decide (bruteForceCount vs s = 0) then None
         else Some (bruteForceCount vs s)).
Proof.
  split; [| split; [| split]].
  - intros roster rs s0 rs' es Hinit. cbv zeta.
    pose proof (run_sound s0 es (init_sound _ _ _ _ Hinit)) as Hs.
    split; [exact (proj1 Hs) |].
    intros votingPlayer options Hsc. by eapply self_vote_rejected.
  - intros cast Hnd. rewrite unique_voters_recorded; [done |]. done.
  - intros roster rs s0 rs' suspects Hinit Hlen Hvalid. cbv zeta.
    unfold init in Hinit.
    destruct (Shuffle.shuffleArray roster rs) as [[ps rest] |] eqn:E; [| done].
    injection Hinit as <- _.
    apply ShuffleFacts.shuffleArray_Permutation, Permutation_length in E.
    rewrite everybodyVotes_from.
    + unfold callNextPlayer. simpl. rewrite decide_True by lia. simpl.
      split; [done |]. split; [| done].
      unfold msize. rewrite length_imap. lia.
    + simpl. lia.
    + intros i x Hi. destruct (Hvalid i x Hi). split; [lia | done].
    + intros voter Hin. by apply elem_of_nil in Hin.
  - intros vs. split; [apply mostSuspected_brute_force |].
    intros s. apply suspicionCounts_brute_force.
Qed.

(** The theorem on three players: 0 suspects 1, 1 suspects 2 and 2
    suspects 1; three votes are recorded and player 1 is the most
    suspected. *)
Lemma suspicion_tally_witness :
  let s := run Scenarios.voteStart (everybodyVotes [1; 2; 1]) in
  screen s = VotingComplete /\
  msize (votes s) = 3 /\
  (mostSuspected <$> firstImpressions s) = Some (Some 1).
Proof.
  cbv zeta.
  destruct suspicion_tally as (_ & _ & H & _).
  specialize (H Scenarios.roster3 (Scenarios.zeros 2) Scenarios.voteStart []
                [1; 2; 1] eq_refl eq_refl).
  cbv zeta in H. destruct H as (H1 & H2 & H3).
  { intros [| [| [| i]]] x [= <-]; simpl; lia. }
  split; [exact H1 |]. split; [exact H2 |].
  rewrite H3. reflexivity.
Defined.

End FirstImpressionsFacts.

(** ** Role assignment *)

Module RoleManagerFacts.
Import Rand RandFacts RoleManager.

(** *** Selecting the Bad players *)

Lemma selectBadPlayers_eq n k acc rs :
  selectBadPlayers n k acc rs =
    if decide (length acc < k) then
      match rs with
      | [] => None
      | r :: rs' =>
          if decide (randomInt r n ∈ acc)
          then selectBadPlayers n k acc rs'
          else selectBadPlayers n k (acc ++ [randomInt r n]) rs'
      end
    else Some (acc, rs).
Proof. by destruct rs. Qed.

(** The loop returns [badPlayerCount] distinct indices in range. *)
Lemma selectBadPlayers_spec n k rs :
  0 < n -> Forall unit_draw rs ->
  forall acc idx rs',
    selectBadPlayers n k acc rs = Some (idx, rs') ->
    NoDup acc -> length acc <= k -> (forall i, i ∈ acc -> i < n) ->
    NoDup idx /\ length idx = k /\ (forall i, i ∈ idx -> i < n).
Proof.
  intros Hn Hrs. induction Hrs as [| r rs Hr _ IH]; intros acc idx rs' H Hnd Hlen Hin;
    rewrite selectBadPlayers_eq in H; case_decide as Hlt; simplify_eq.
  - split; [done |]. split; [lia | done].
  - case_decide as Hmem.
    + by eapply IH.
    + eapply IH; [exact H | | |].
      * apply NoDup_app. split; [done |]. split; [| apply NoDup_singleton].
        by intros x Hx ->%list_elem_of_singleton.
      * rewrite length_app. simpl. lia.
      * intros i [Hi | ->%list_elem_of_singleton]%elem_of_app; [by apply Hin |].
        by apply randomInt_lt.
  - split; [done |]. split; [lia | done].
Qed.

(** Draws that are not needed are left over. *)
Lemma selectBadPlayers_app n k rs extra :
  forall acc idx rs',
    selectBadPlayers n k acc rs = Some (idx, rs') ->
    selectBadPlayers n k acc (rs ++ extra) = Some (idx, rs' ++ extra).
Proof.
  induction rs as [| r rs IH]; intros acc idx rs' H;
    rewrite selectBadPlayers_eq in H; rewrite selectBadPlayers_eq;
    case_decide as Hlt; simplify_eq/=; try done.
  case_decide; by apply IH.
Qed.

Lemma size_list_to_set_le (l : list nat) :
  size (list_to_set l : gset nat) <= length l.
Proof.
  induction l as [| x l IH]; [done |].
  cbn [list_to_set length]. rewrite size_union_alt, size_singleton.
  assert (size (list_to_set l ∖ {[x]} : gset nat) <= size (list_to_set l : gset nat))
    by (apply subseteq_size; set_solver).
  lia.
Qed.

(** The loop ends as soon as the draws have produced enough different
    indices. *)
Lemma selectBadPlayers_total n k rs :
  forall acc,
    k <= size (list_to_set (acc ++ drawnIndices n rs) : gset nat) ->
    exists idx rs', selectBadPlayers n k acc rs = Some (idx, rs').
Proof.
  induction rs as [| r rs IH]; intros acc Hsize;
    rewrite selectBadPlayers_eq; case_decide as Hlt; eauto.
  - exfalso. simpl in Hsize. rewrite app_nil_r in Hsize.
    pose proof (size_list_to_set_le acc). lia.
  - case_decide as Hmem.
    + apply IH. etransitivity; [exact Hsize |].
      apply Nat.eq_le_incl. f_equal. simpl.
      rewrite !list_to_set_app_L. simpl. set_solver.
    + apply IH. by rewrite <- app_assoc.
Qed.

(** *** Writing the roles and the partner links *)

Lemma updateAt_Some f i (ps : list Player) p :
  ps !! i = Some p -> updateAt f i ps = Some (alter f i ps).
Proof. intros H. unfold updateAt. by rewrite H. Qed.

(** Turning one Good player Bad adds one to the number of Bad players. *)
Lemma alter_Bad_count (ps : list Player) i p :
  ps !! i = Some p -> role p = Good ->
  length (filter isBad (alter (set_role Bad) i ps)) = S (length (filter isBad ps)).
Proof.
  revert i. induction ps as [| q ps IH]; intros [| i] Hi Hgood; simplify_eq/=.
  - rewrite !filter_cons.
    rewrite (decide_False (P := isBad p)); [done |].
    unfold isBad. by rewrite Hgood.
  - rewrite !filter_cons. change (list_alter (set_role Bad) i ps)
      with (alter (set_role Bad) i ps).
    case_decide; simpl; by erewrite IH.
Qed.

Lemma imap_unchanged {A} (f : nat -> A -> A) (l : list A) :
  (forall j x, l !! j = Some x -> f j x = x) -> imap f l = l.
Proof.
  intros H. apply list_eq. intros j. rewrite list_lookup_imap.
  destruct (l !! j) as [x |] eqn:E; [| done]. simpl. by rewrite (H j x E).
Qed.

Lemma assignBadRoles_spec idx :
  forall ps,
    NoDup idx ->
    (forall i, i ∈ idx -> exists p, ps !! i = Some p /\ role p = Good) ->
    exists ps',
      assignBadRoles ps idx = inr ps' /\
      length (filter isBad ps') = length idx + length (filter isBad ps) /\
      ps' = imap (roleWritten idx) ps.
Proof.
  induction idx as [| i idx IH]; intros ps Hnd Hin.
  - exists ps. split; [done |]. split; [done |].
    symmetry. apply imap_unchanged. intros j p _. unfold roleWritten.
    rewrite decide_False; [done | apply not_elem_of_nil].
  - apply NoDup_cons in Hnd as [Hi Hnd].
    destruct (Hin i (list_elem_of_here _ _)) as (p & Hp & Hgood).
    cbn [assignBadRoles]. rewrite (updateAt_Some _ _ _ _ Hp).
    destruct (IH (alter (set_role Bad) i ps) Hnd) as (ps' & E & Hcount & Hps').
    { intros j Hj. destruct (Hin j (list_elem_of_further _ _ _ Hj)) as (q & Hq & Hqg).
      exists q. split; [| done]. rewrite list_lookup_alter_ne; [done |].
      intros ->. done. }
    exists ps'. split; [done |]. split.
    + rewrite Hcount, (alter_Bad_count _ _ _ Hp Hgood). simpl. lia.
    + rewrite Hps'. apply list_eq. intros j.
      rewrite !list_lookup_imap, list_lookup_alter.
      unfold roleWritten. destruct (decide (i = j)) as [<- | Hne].
      * destruct (ps !! i) as [q |]; [| done]. simpl. f_equal.
        rewrite decide_False by done.
        rewrite decide_True by apply list_elem_of_here. done.
      * destruct (ps !! j) as [q |]; [| done]. simpl. f_equal.
        destruct (decide (j ∈ idx)) as [Hj | Hj].
        -- rewrite decide_True; [done | by apply list_elem_of_further].
        -- rewrite decide_False; [done |]. rewrite elem_of_cons. naive_solver.
Qed.

Lemma linkPartners_spec know idx (ps : list Player) :
  (forall i, i ∈ idx -> i < length ps) ->
  linkPartners know idx ps = inr (imap (partnerWritten know idx) ps).
Proof.
  intros Hin. unfold linkPartners, partnerWritten.
  assert (Hid : imap (fun (_ : nat) (p : Player) => p) ps = ps)
    by (by apply imap_unchanged).
  destruct know; [| by rewrite Hid].
  destruct idx as [| b0 [| b1 [| b2 idx]]]; try by rewrite Hid.
  destruct (lookup_lt_is_Some_2 ps b0) as [p0 Hp0];
    [apply Hin; set_solver |].
  destruct (lookup_lt_is_Some_2 (alter (set_partnerId b1) b0 ps) b1) as [p1 Hp1];
    [rewrite length_alter; apply Hin; set_solver |].
  rewrite (updateAt_Some _ _ _ _ Hp0), (updateAt_Some _ _ _ _ Hp1).
  f_equal. apply list_eq. intros j.
  rewrite list_lookup_imap, !list_lookup_alter.
  destruct (decide (b1 = j)) as [<- | H1].
  - destruct (decide (b0 = b1)) as [<- | H0].
    + destruct (ps !! b0); [| done]. simpl. by rewrite decide_True by done.
    + destruct (ps !! b1); [| done]. simpl. by rewrite decide_True by done.
  - destruct (decide (b0 = j)) as [<- | H0].
    + destruct (ps !! b0); [| done]. simpl.
      rewrite decide_False by done. by rewrite decide_True by done.
    + destruct (ps !! j); [| done]. simpl.
      rewrite decide_False by done. by rewrite decide_False by done.
Qed.

(** *** The roster before the shuffle *)

Lemma imap_imap {A B C} (f : nat -> B -> C) (g : nat -> A -> B) (l : list A) :
  imap f (imap g l) = imap (fun j x => f j (g j x)) l.
Proof.
  apply list_eq. intros j. rewrite !list_lookup_imap. by destruct (l !! j).
Qed.

Lemma role_partnerWritten know idx j p :
  role (partnerWritten know idx j p) = role p.
Proof.
  unfold partnerWritten. destruct know; [| done].
  destruct idx as [| b0 [| b1 [| b2 idx]]]; try done.
  by repeat case_decide.
Qed.

Lemma role_assigned know idx j d :
  role (assigned know idx j d) = if decide (j ∈ idx) then Bad else Good.
Proof.
  unfold assigned. rewrite role_partnerWritten. unfold roleWritten.
  by case_decide.
Qed.

Lemma index_assigned know idx j d : index (assigned know idx j d) = j.
Proof.
  unfold assigned, partnerWritten, roleWritten.
  destruct know; [| by case_decide].
  destruct idx as [| b0 [| b1 [| b2 idx]]]; by repeat case_decide.
Qed.

Lemma partnerId_assigned know idx j d :
  partnerId (assigned know idx j d) =
    match know, idx with
    | true, [b0; b1] =>
        if decide (j = b1) then Some b0
        else if decide (j = b0) then Some b1 else None
    | _, _ => None
    end.
Proof.
  unfold assigned, partnerWritten, roleWritten.
  destruct know; [| by case_decide].
  destruct idx as [| b0 [| b1 [| b2 idx]]]; by repeat case_decide.
Qed.

Lemma filter_isBad_imap (f : nat -> Player -> Player) (l : list Player) :
  (forall j p, role (f j p) = role p) ->
  length (filter isBad (imap f l)) = length (filter isBad l).
Proof.
  revert f. induction l as [| p l IH]; intros f Hf; [done |].
  rewrite imap_cons, !filter_cons.
  assert (Hsame : isBad (f 0 p) <-> isBad p) by (unfold isBad; by rewrite Hf).
  specialize (IH (f ∘ S) (fun j q => Hf (S j) q)).
  destruct (decide (isBad (f 0 p))) as [Hb | Hb].
  - rewrite decide_True by (by apply Hsame). simpl. by rewrite IH.
  - rewrite decide_False by (by rewrite <- Hsame). done.
Qed.

Lemma good_and_bad (l : list Player) :
  length (filter (fun p => role p = Good) l) + length (filter isBad l) = length l.
Proof.
  induction l as [| p l IH]; [done |].
  rewrite !filter_cons.
  destruct (decide (role p = Good)) as [Hg | Hg],
           (decide (isBad p)) as [Hb | Hb]; unfold isBad in *; simpl;
    try congruence; try lia.
  destruct (role p); congruence.
Qed.

Lemma newPlayers_all_good (pd : list PlayerData) :
  length (filter isBad (imap newPlayer pd)) = 0.
Proof.
  assert (H : forall f : nat -> nat,
             length (filter isBad (imap (fun j => newPlayer (f j)) pd)) = 0).
  { induction pd as [| d pd IH]; intros f; [done |].
    rewrite imap_cons, filter_cons.
    rewrite decide_False by done. apply (IH (fun j => f (S j))). }
  apply (H (fun j => j)).
Qed.

(** The roster that [generatePlayerRoles] hands to the shuffle. *)
Lemma roster_before_shuffle (pd : list PlayerData) know idx :
  NoDup idx -> (forall i, i ∈ idx -> i < length pd) ->
  exists ps1,
    assignBadRoles (imap newPlayer pd) idx = inr ps1 /\
    linkPartners know idx ps1 = inr (imap (assigned know idx) pd) /\
    length (filter isBad (imap (assigned know idx) pd)) = length idx.
Proof.
  intros Hnd Hin.
  destruct (assignBadRoles_spec idx (imap newPlayer pd) Hnd) as (ps1 & E & Hc & Hps1).
  { intros i Hi. destruct (lookup_lt_is_Some_2 pd i (Hin i Hi)) as [d Hd].
    exists (newPlayer i d). split; [| done].
    by rewrite list_lookup_imap, Hd. }
  exists ps1. split; [done |].
  assert (Hlen : length ps1 = length pd) by (by rewrite Hps1, !length_imap).
  rewrite linkPartners_spec by (intros i Hi; rewrite Hlen; by apply Hin).
  assert (Hfinal : imap (partnerWritten know idx) ps1 = imap (assigned know idx) pd).
  { rewrite Hps1, !imap_imap. done. }
  split; [by rewrite Hfinal |].
  rewrite <- Hfinal, filter_isBad_imap by apply role_partnerWritten.
  rewrite Hc, newPlayers_all_good. lia.
Qed.

(** *** [startRoleAssignment] *)

Lemma roleDistribution_table n :
  3 <= n <= 8 -> roleDistribution n = (tableBadCount n, tableKnowEachOther n).
Proof.
  intros H. do 9 (destruct n as [| n]; [try lia; try reflexivity |]). lia.
Qed.

(** With a valid roster the call never throws, and when it returns, the
    roster is a permutation of the players built from [playersData] with
    the roles and links of some [badCount] distinct positions. *)
Lemma startRoleAssignment_valid (self : State) (pd : list PlayerData) (rs : list Q) :
  3 <= length pd <= 8 -> Forall unit_draw rs ->
  match startRoleAssignment self pd rs with
  | Returned st rs' =>
      exists idx,
        NoDup idx /\ length idx = tableBadCount (length pd) /\
        (forall i, i ∈ idx -> i < length pd) /\
        players st ≡ₚ imap (assigned (tableKnowEachOther (length pd)) idx) pd
  | Threw _ _ => False
  | OutOfDraws => True
  end.
Proof.
  intros Hn Hrs. unfold startRoleAssignment, generatePlayerRoles.
  rewrite decide_False by lia. cbn [players app].
  rewrite (roleDistribution_table _ Hn).
  destruct (selectBadPlayers _ _ [] rs) as [[idx rs1] |] eqn:Esel; [| done].
  assert (Hpos : 0 < length pd) by lia.
  destruct (selectBadPlayers_spec _ _ rs Hpos Hrs [] idx rs1 Esel)
    as (Hnd & Hlen & Hin); [apply NoDup_nil_2 | simpl; lia | set_solver |].
  destruct (roster_before_shuffle pd (tableKnowEachOther (length pd)) idx Hnd Hin)
    as (ps1 & E1 & E2 & _).
  rewrite E1, E2.
  destruct (Shuffle.shuffleArray _ rs1) as [[ps3 rs2] |] eqn:Esh; [| done].
  exists idx. repeat split; try done.
  by eapply ShuffleFacts.shuffleArray_Permutation.
Qed.

(** It returns as soon as the draws hold enough different indices,
    followed by the draws of the shuffle. *)
Lemma startRoleAssignment_returns (self : State) (pd : list PlayerData)
    (draws1 draws2 : list Q) :
  3 <= length pd <= 8 -> Forall unit_draw (draws1 ++ draws2) ->
  tableBadCount (length pd)
    <= size (list_to_set (drawnIndices (length pd) draws1) : gset nat) ->
  length pd - 1 <= length draws2 ->
  exists st rs', startRoleAssignment self pd (draws1 ++ draws2) = Returned st rs'.
Proof.
  intros Hn Hrs Hsize Hlen.
  unfold startRoleAssignment, generatePlayerRoles.
  rewrite decide_False by lia. cbn [players app].
  rewrite (roleDistribution_table _ Hn).
  destruct (selectBadPlayers_total (length pd) (tableBadCount (length pd)) draws1 [])
    as (idx & rest & Esel); [done |].
  apply (selectBadPlayers_app _ _ _ draws2) in Esel. rewrite Esel.
  assert (Hpos : 0 < length pd) by lia.
  destruct (selectBadPlayers_spec _ _ (draws1 ++ draws2) Hpos Hrs
              [] idx (rest ++ draws2) Esel)
    as (Hnd & _ & Hin); [apply NoDup_nil_2 | simpl; lia | set_solver |].
  destruct (roster_before_shuffle pd (tableKnowEachOther (length pd)) idx Hnd Hin)
    as (ps1 & E1 & E2 & _).
  rewrite E1, E2.
  destruct (ShuffleFacts.shuffleArray_draws
              (imap (assigned (tableKnowEachOther (length pd)) idx) pd)
              (rest ++ draws2)) as [b Hb].
  { rewrite length_imap, length_app. lia. }
  rewrite Hb. eauto.
Qed.

(** C7: with fewer than 3 or more than 8 entries [generatePlayerRoles]
    throws before it touches the state, and [startRoleAssignment] leaves
    an empty roster: nobody has a role.  With 3 to 8 entries the call
    never throws, and it returns once the draws have produced enough
    different indices. *)
Theorem invalid_player_count (self : State) (playersData : list PlayerData) :
  (length playersData < 3 \/ 8 < length playersData ->
   forall rs,
     generatePlayerRoles self playersData rs = Threw invalidPlayerCount self /\
     startRoleAssignment self playersData rs =
       Threw invalidPlayerCount
             (mkState [] 0 true (badPlayersKnowEachOther self))) /\
  (3 <= length playersData <= 8 ->
   (forall rs msg st,
      Forall unit_draw rs ->
      startRoleAssignment self playersData rs <> Threw msg st) /\
   (forall draws1 draws2,
      Forall unit_draw (draws1 ++ draws2) ->
      tableBadCount (length playersData)
        <= size (list_to_set (drawnIndices (length playersData) draws1) : gset nat) ->
      length playersData - 1 <= length draws2 ->
      exists st rs',
        startRoleAssignment self playersData (draws1 ++ draws2) = Returned st rs')).
Proof.
  split.
  - intros Hn rs. unfold startRoleAssignment, generatePlayerRoles.
    by rewrite !decide_True by done.
  - intros Hn. split.
    + intros rs msg st Hrs E.
      pose proof (startRoleAssignment_valid self playersData rs Hn Hrs) as H.
      by rewrite E in H.
    + intros draws1 draws2 Hrs Hsize Hlen.
      by apply startRoleAssignment_returns.
Qed.

(** The theorem on a roster of two. *)
Lemma invalid_player_count_witness :
  startRoleAssignment Scenarios.freshManager Scenarios.twoEntries [] =
    Threw invalidPlayerCount (mkState [] 0 true None).
Proof.
  destruct (invalid_player_count Scenarios.freshManager Scenarios.twoEntries)
    as [H _].
  apply H. left. simpl. lia.
Defined.

(** *** What the assigned roster looks like *)

Lemma elem_of_assigned know idx (pd : list PlayerData) (p : Player) :
  p ∈ imap (assigned know idx) pd <->
  exists j d, pd !! j = Some d /\ p = assigned know idx j d.
Proof.
  rewrite elem_of_lookup_imap. naive_solver.
Qed.

Lemma index_of_assigned know idx (pd : list PlayerData) :
  map index (imap (assigned know idx) pd) = seq 0 (length pd).
Proof.
  apply list_eq. intros j.
  change (map index ?l) with (index <$> l).
  rewrite list_lookup_fmap, list_lookup_imap.
  destruct (pd !! j) as [d |] eqn:E; simpl.
  - rewrite index_assigned. symmetry. apply lookup_seq. split; [done |].
    by apply lookup_lt_Some in E.
  - symmetry. apply lookup_seq_ge. by apply lookup_ge_None in E.
Qed.

(** C6: for 3 to 8 entries, when role assignment returns, the roster has
    one player per entry with the original indices, exactly the table's
    number of Bad players and everybody else Good; some player has a
    partner exactly when there are 6 or 7 players, and then two Bad
    players point at each other's index and nobody else is Bad or has a
    partner.  Assignment does return once the draws have produced enough
    different indices. *)
Theorem role_assignment (self : State) (playersData : list PlayerData) :
  3 <= length playersData <= 8 ->
  let n := length playersData in
  (forall rs st rs',
     Forall unit_draw rs ->
     startRoleAssignment self playersData rs = Returned st rs' ->
     length (players st) = n /\
     map index (players st) ≡ₚ seq 0 n /\
     length (getBadPlayers st) = tableBadCount n /\
     length (getGoodPlayers st) = n - tableBadCount n /\
     ((exists p, p ∈ players st /\ partnerId p <> None) <-> n = 6 \/ n = 7) /\
     (n = 6 \/ n = 7 ->
      exists a b,
        a ∈ players st /\ b ∈ players st /\ index a <> index b /\
        role a = Bad /\ role b = Bad /\
        partnerId a = Some (index b) /\ partnerId b = Some (index a) /\
        forall p, p ∈ players st ->
                  partnerId p <> None \/ role p = Bad -> p = a \/ p = b)) /\
  (forall draws1 draws2,
     Forall unit_draw (draws1 ++ draws2) ->
     tableBadCount n <= size (list_to_set (drawnIndices n draws1) : gset nat) ->
     n - 1 <= length draws2 ->
     exists st rs',
       startRoleAssignment self playersData (draws1 ++ draws2) = Returned st rs').
Proof.
  intros Hn n. split; [| intros; by apply startRoleAssignment_returns].
  intros rs st rs' Hrs E.
  pose proof (startRoleAssignment_valid self playersData rs Hn Hrs) as H.
  rewrite E in H. destruct H as (idx & Hnd & Hlen & Hin & Hperm).
  fold n in Hlen, Hin, Hperm.
  set (know := tableKnowEachOther n) in *.
  set (L := imap (assigned know idx) playersData) in *.
  assert (HbadL : length (filter isBad L) = tableBadCount n).
  { destruct (roster_before_shuffle playersData know idx Hnd Hin) as (_ & _ & _ & Hc).
    by rewrite <- Hlen. }
  assert (Hbad : length (getBadPlayers st) = tableBadCount n).
  { unfold getBadPlayers. rewrite <- HbadL.
    apply Permutation_length. by apply filter_Permutation. }
  assert (Hsize : length (players st) = n).
  { rewrite (Permutation_length Hperm). unfold L. by rewrite length_imap. }
  split; [done |]. split.
  { rewrite Hperm. unfold L. by rewrite index_of_assigned. }
  split; [done |]. split.
  { pose proof (good_and_bad (players st)) as Hgb.
    unfold getGoodPlayers, getBadPlayers in *.
    change (fun p => role p = Bad) with isBad in Hbad. lia. }
  assert (Hknow : know = true <-> n = 6 \/ n = 7).
  { unfold know, tableKnowEachOther. by rewrite bool_decide_eq_true. }
  assert (Hpair : know = true -> exists b0 b1, idx = [b0; b1] /\ b0 <> b1).
  { intros Hk. apply Hknow in Hk.
    assert (length idx = 2) as H2 by (rewrite Hlen; by destruct Hk as [-> | ->]).
    destruct idx as [| b0 [| b1 [| b2 idx]]]; simplify_eq/=.
    exists b0, b1. split; [done |].
    apply NoDup_cons in Hnd as [Hne _]. set_solver. }
  split.
  - split.
    + intros (p & Hp & Hpartner). apply Hknow.
      rewrite Hperm in Hp. apply elem_of_assigned in Hp as (j & d & Hd & ->).
      rewrite partnerId_assigned in Hpartner. by destruct know.
    + intros Hk. apply Hknow in Hk. destruct (Hpair Hk) as (b0 & b1 & -> & Hne).
      destruct (lookup_lt_is_Some_2 playersData b0) as [d0 Hd0];
        [apply Hin; set_solver |].
      exists (assigned know [b0; b1] b0 d0). split.
      * rewrite Hperm. apply elem_of_assigned. eauto.
      * rewrite partnerId_assigned, Hk.
        rewrite decide_False by done. by rewrite decide_True by done.
  - intros Hk. apply Hknow in Hk. destruct (Hpair Hk) as (b0 & b1 & -> & Hne).
    destruct (lookup_lt_is_Some_2 playersData b0) as [d0 Hd0];
      [apply Hin; set_solver |].
    destruct (lookup_lt_is_Some_2 playersData b1) as [d1 Hd1];
      [apply Hin; set_solver |].
    exists (assigned know [b0; b1] b0 d0), (assigned know [b0; b1] b1 d1).
    rewrite !index_assigned, !role_assigned, !partnerId_assigned.
    split; [rewrite Hperm; apply elem_of_assigned; by exists b0, d0 |].
    split; [rewrite Hperm; apply elem_of_assigned; by exists b1, d1 |].
    split; [done |].
    split; [rewrite decide_True; [done | set_solver] |].
    split; [rewrite decide_True; [done | set_solver] |].
    split; [rewrite Hk, decide_False by done; by rewrite decide_True by done |].
    split; [by rewrite Hk, decide_True by done |].
    intros p Hp Hor. rewrite Hperm in Hp.
    apply elem_of_assigned in Hp as (j & d & Hd & ->).
    assert (Hj : j = b0 \/ j = b1).
    { destruct Hor as [Hpartner | Hrole].
      - rewrite partnerId_assigned, Hk in Hpartner.
        repeat case_decide; auto. done.
      - rewrite role_assigned in Hrole. case_decide as Hmem; [| done].
        set_solver. }
    destruct Hj as [-> | ->]; simplify_eq; auto.
Qed.

(** The theorem on six entries: the draws give the indices 3, 3 (drawn
    again, rejected) and 0; players 3 and 0 are Bad and partners. *)
Lemma role_assignment_witness :
  exists st rs',
    startRoleAssignment Scenarios.freshManager Scenarios.sixEntries
      (Scenarios.sixDraws1 ++ Scenarios.sixDraws2) = Returned st rs' /\
    length (getBadPlayers st) = 2 /\ length (getGoodPlayers st) = 4.
Proof.
  assert (Hn : 3 <= length Scenarios.sixEntries <= 8) by (simpl; lia).
  assert (Hrs : Forall unit_draw (Scenarios.sixDraws1 ++ Scenarios.sixDraws2)).
  { repeat constructor; unfold Qle, Qlt; simpl; lia. }
  destruct (role_assignment Scenarios.freshManager Scenarios.sixEntries Hn)
    as [Hprop Hret].
  destruct (Hret Scenarios.sixDraws1 Scenarios.sixDraws2 Hrs) as (st & rs' & E).
  { vm_compute. lia. }
  { simpl. lia. }
  exists st, rs'. split; [exact E |].
  destruct (Hprop _ st rs' Hrs E) as (_ & _ & Hb & Hg & _).
  split; [exact Hb | exact Hg].
Defined.

End RoleManagerFacts.

(** ** The shuffle reaches every order *)

Module ShuffleOrderFacts.
Import Rand RandFacts Shuffle ShuffleFacts ShuffleOrder.

Lemma drawFor_spec j n :
  j < n -> unit_draw (drawFor j n) /\ randomInt (drawFor j n) n = j.
Proof.
  intros Hj. unfold unit_draw, drawFor, randomInt.
  assert (Hn : Z.pos (Pos.of_nat n) = Z.of_nat n).
  { destruct n; [lia |]. lia. }
  split; [split |].
  - unfold Qle. simpl. lia.
  - unfold Qlt. simpl. lia.
  - unfold Qmult, inject_Z, Qfloor. simpl.
    rewrite Pos.mul_1_r, Hn, Z.div_mul by lia. lia.
Qed.

Section Generic.
Context {A : Type}.

Lemma swap_lookup_i (a : list A) i j y :
  i < length a -> a !! j = Some y -> swap a i j !! i = Some y.
Proof.
  intros Hi Hj. unfold swap.
  destruct (lookup_lt_is_Some_2 a i Hi) as [x Hx]. rewrite Hx, Hj.
  apply list_lookup_insert_eq. rewrite length_insert. done.
Qed.

Lemma swap_lookup_above (a : list A) i j k :
  i < k -> j < k -> swap a i j !! k = a !! k.
Proof.
  intros Hi Hj. unfold swap.
  destruct (a !! i); [| done]. destruct (a !! j); [| done].
  rewrite !list_lookup_insert_ne by lia. done.
Qed.

Lemma swap_length (a : list A) i j : length (swap a i j) = length a.
Proof.
  unfold swap. destruct (a !! i); [| done]. destruct (a !! j); [| done].
  by rewrite !length_insert.
Qed.

Lemma shuffleFrom_above i :
  forall (a : list A) rs b rs',
    Forall unit_draw rs ->
    shuffleFrom i a rs = Some (b, rs') ->
    forall k, i < k -> b !! k = a !! k.
Proof.
  induction i as [| i IH]; intros a rs b rs' Hrs H k Hk; simpl in H.
  - by simplify_eq.
  - destruct rs as [| r rs]; [done |].
    apply Forall_cons in Hrs as [Hr Hrs].
    rewrite (IH _ _ _ _ Hrs H k) by lia.
    apply swap_lookup_above; [lia |].
    pose proof (randomInt_lt r (S (S i)) Hr). lia.
Qed.

Lemma swap_take (a : list A) i j n :
  i < n -> j < n -> take n (swap a i j) = swap (take n a) i j.
Proof.
  intros Hi Hj. unfold swap.
  rewrite !lookup_take_lt by done.
  destruct (a !! i); [| done]. destruct (a !! j); [| done].
  by rewrite !take_insert_lt by done.
Qed.

Lemma swap_drop (a : list A) i j n :
  i < n -> j < n -> drop n (swap a i j) = drop n a.
Proof.
  intros Hi Hj. unfold swap.
  destruct (a !! i); [| done]. destruct (a !! j); [| done].
  by rewrite !drop_insert_lt by done.
Qed.

(** Any arrangement of the first [i + 1] elements can be drawn. *)
Lemma shuffleFrom_reaches i :
  forall a b : list A,
    i < length a ->
    take (S i) b ≡ₚ take (S i) a -> drop (S i) b = drop (S i) a ->
    exists rs,
      Forall unit_draw rs /\ length rs = i /\ shuffleFrom i a rs = Some (b, []).
Proof.
  induction i as [| i IH]; intros a b Hlen Hperm Hdrop.
  - exists []. split; [done |]. split; [done |]. simpl. do 2 f_equal.
    rewrite <- (take_drop 1 a), <- (take_drop 1 b), Hdrop. f_equal.
    destruct a as [| x a]; [simpl in Hlen; lia |].
    destruct b as [| y b]; simpl in *.
    + by apply Permutation_nil_cons in Hperm.
    + apply Permutation_singleton_r in Hperm. by simplify_eq.
  - assert (Hlenb : length b = length a).
    { rewrite <- (take_drop (S (S i)) a), <- (take_drop (S (S i)) b).
      rewrite !length_app, Hdrop. f_equal. by apply Permutation_length. }
    destruct (lookup_lt_is_Some_2 b (S i)) as [y Hy]; [lia |].
    assert (Hin : y ∈ take (S (S i)) a).
    { rewrite <- Hperm. apply list_elem_of_lookup. exists (S i).
      apply lookup_take_Some. split; [done | lia]. }
    apply list_elem_of_lookup in Hin as [j Hj].
    apply lookup_take_Some in Hj as [Hj Hji].
    destruct (drawFor_spec j (S (S i)) Hji) as [Hunit Hdraw].
    set (a' := swap a (S i) j).
    assert (Hy' : a' !! S i = Some y) by (by apply swap_lookup_i).
    destruct (IH a' b) as (rs & Hrs & Hl & Hsh).
    + unfold a'. rewrite swap_length. lia.
    + assert (Hp : take (S (S i)) b ≡ₚ take (S (S i)) a').
      { unfold a'. rewrite swap_take by lia. by rewrite swap_Permutation. }
      rewrite (take_S_r _ _ _ Hy), (take_S_r _ _ _ Hy') in Hp.
      by apply (inj (.++ [y])) in Hp.
    + rewrite (drop_S _ _ _ Hy), (drop_S _ _ _ Hy'). f_equal.
      unfold a'. rewrite swap_drop by lia. done.
    + exists (drawFor j (S (S i)) :: rs).
      split; [by constructor |]. split; [simpl; lia |].
      simpl. rewrite Hdraw. exact Hsh.
Qed.

(** With distinct elements the result determines every [j]. *)
Lemma shuffleFrom_indices i :
  forall (a : list A) rs1 rs2 b t1 t2,
    NoDup a -> i < length a ->
    Forall unit_draw rs1 -> Forall unit_draw rs2 ->
    shuffleFrom i a rs1 = Some (b, t1) -> shuffleFrom i a rs2 = Some (b, t2) ->
    swapIndices i rs1 = swapIndices i rs2.
Proof.
  induction i as [| i IH]; intros a rs1 rs2 b t1 t2 Hnd Hlen H1 H2 E1 E2.
  - by destruct rs1, rs2.
  - destruct rs1 as [| r1 rs1]; [done |]. destruct rs2 as [| r2 rs2]; [done |].
    apply Forall_cons in H1 as [Hr1 H1]. apply Forall_cons in H2 as [Hr2 H2].
    simpl in E1, E2. simpl.
    pose proof (randomInt_lt r1 (S (S i)) Hr1 ltac:(lia)) as Hj1.
    pose proof (randomInt_lt r2 (S (S i)) Hr2 ltac:(lia)) as Hj2.
    set (j1 := randomInt r1 (S (S i))) in *.
    set (j2 := randomInt r2 (S (S i))) in *.
    destruct (lookup_lt_is_Some_2 a j1) as [y1 Hy1]; [lia |].
    destruct (lookup_lt_is_Some_2 a j2) as [y2 Hy2]; [lia |].
    pose proof (shuffleFrom_above _ _ _ _ _ H1 E1 (S i) ltac:(lia)) as Hb1.
    pose proof (shuffleFrom_above _ _ _ _ _ H2 E2 (S i) ltac:(lia)) as Hb2.
    rewrite (swap_lookup_i a (S i) j1 y1) in Hb1 by done.
    rewrite (swap_lookup_i a (S i) j2 y2) in Hb2 by done.
    assert (y1 = y2) as <- by congruence.
    assert (j1 = j2) as Hj by (eapply NoDup_lookup; eauto).
    f_equal; [done |].
    rewrite <- Hj in E2.
    eapply (IH (swap a (S i) j1)); eauto.
    + by rewrite swap_Permutation.
    + rewrite swap_length. lia.
Qed.

Lemma shuffleFrom_out_of_draws i :
  forall (a : list A) rs, length rs < i -> shuffleFrom i a rs = None.
Proof.
  induction i as [| i IH]; intros a rs H; [lia |].
  destruct rs as [| r rs]; [done |]. simpl in *. apply IH. lia.
Qed.

Lemma swapIndices_in_range i :
  forall rs k j,
    Forall unit_draw rs -> swapIndices i rs !! k = Some j -> j <= i - k.
Proof.
  induction i as [| i IH]; intros rs k j Hrs H; [done |].
  destruct rs as [| r rs]; [done |].
  apply Forall_cons in Hrs as [Hr Hrs].
  destruct k as [| k]; simpl in H.
  - injection H as <-.
    pose proof (randomInt_lt r (S (S i)) Hr). lia.
  - apply (IH _ _ _ Hrs) in H. lia.
Qed.

(** X1: [shuffleArray] on an array of n elements takes exactly n - 1
    draws (none for an empty array) and returns a rearrangement of the
    array, of the same length; with fewer draws the model stops.  With
    draws in [0,1) the index j drawn in the pass for i is at most i, so
    that both elements of every exchange exist. *)
Theorem shuffleArray_rearranges (a : list A) (rs : list Q) :
  (length a - 1 <= length rs ->
   exists b, shuffleArray a rs = Some (b, drop (length a - 1) rs) /\
             b ≡ₚ a /\ length b = length a) /\
  (length rs < length a - 1 -> shuffleArray a rs = None) /\
  (Forall unit_draw rs ->
   forall k j, swapIndices (length a - 1) rs !! k = Some j ->
               j <= length a - 1 - k /\ j < length a).
Proof.
  split; [| split].
  - intros Hrs. destruct (shuffleArray_draws a rs Hrs) as [b Hb].
    exists b. split; [done |].
    pose proof (shuffleArray_Permutation _ _ _ _ Hb) as Hperm.
    split; [done |]. by rewrite Hperm.
  - apply shuffleFrom_out_of_draws.
  - intros Hrs k j Hj.
    pose proof (swapIndices_in_range _ _ _ _ Hrs Hj) as Hle.
    split; [done |].
    destruct a as [| x a]; [done |]. simpl in *. lia.
Qed.

(** X2: every order of the array is an outcome of [shuffleArray]: for
    each rearrangement b of a there are length a - 1 draws in [0,1) on
    which the shuffle returns b.  When the elements of a are distinct,
    the outcome determines the index drawn in every pass, so that two
    runs with the same result made the same exchanges: each of the n!
    orders comes from exactly one of the n! sequences of indices. *)
Theorem shuffleArray_each_order_once (a b : list A) :
  b ≡ₚ a ->
  (exists rs,
     Forall unit_draw rs /\ length rs = length a - 1 /\
     shuffleArray a rs = Some (b, [])) /\
  (NoDup a ->
   forall rs1 rs2 t1 t2,
     Forall unit_draw rs1 -> Forall unit_draw rs2 ->
     shuffleArray a rs1 = Some (b, t1) -> shuffleArray a rs2 = Some (b, t2) ->
     swapIndices (length a - 1) rs1 = swapIndices (length a - 1) rs2).
Proof.
  intros Hperm. split.
  - destruct a as [| x a].
    + apply Permutation_nil_r in Hperm as ->. by exists [].
    + unfold shuffleArray.
      replace (length (x :: a) - 1) with (length a) by (simpl; lia).
      apply shuffleFrom_reaches.
      * simpl. lia.
      * rewrite !take_ge; [done | simpl; lia |].
        rewrite (Permutation_length Hperm). simpl. lia.
      * rewrite !drop_ge; [done | simpl; lia |].
        rewrite (Permutation_length Hperm). simpl. lia.
  - intros Hnd rs1 rs2 t1 t2 H1 H2 E1 E2.
    destruct a as [| x a]; [done |].
    eapply shuffleFrom_indices; eauto. simpl. lia.
Qed.

End Generic.

(** The theorem on the array [1, 2, 3] and its reverse. *)
Lemma shuffleArray_each_order_once_witness :
  exists rs,
    Forall unit_draw rs /\ length rs = 2 /\
    shuffleArray [1; 2; 3] rs = Some ([3; 2; 1], []).
Proof.
  assert (Hperm : [3; 2; 1] ≡ₚ [1; 2; 3]).
  { change [3; 2; 1] with (reverse [1; 2; 3]). apply reverse_Permutation. }
  exact (proj1 (shuffleArray_each_order_once [1; 2; 3] [3; 2; 1] Hperm)).
Defined.

End ShuffleOrderFacts.

(** ** The duel: start, leaders and the intervention vote *)

Module DuelTurnsFacts.
Import RoleManager Duel Rand RandFacts Scenarios DuelFacts DuelTurns.

Lemma convertRole_count (roster : list Player) :
  length (filter (fun p => team p = Some TeamBad) (map convertRole roster)) =
  length (filter (fun p => role p = Bad) roster).
Proof.
  induction roster as [| p roster IH]; [done |].
  cbn [map].
  assert (Ht : team (convertRole p) = Some TeamBad <-> role p = Bad).
  { unfold convertRole. simpl. case_decide; split; intros; simplify_eq; done. }
  destruct (decide (role p = Bad)) as [Hb | Hb].
  - rewrite (filter_cons_True _ (convertRole p)) by (by apply Ht).
    rewrite (filter_cons_True _ p) by done. simpl. by rewrite IH.
  - rewrite (filter_cons_False _ (convertRole p)) by (by rewrite Ht).
    by rewrite (filter_cons_False _ p) by done.
Qed.

Lemma thresholds_Some n : 3 <= n <= 8 -> exists t, thresholds n = Some t /\ 0 < good t /\ 0 < bad t.
Proof.
  intros H.
  do 9 (destruct n as [| n];
        [first [lia | eexists; split; [reflexivity | simpl; lia]] |]).
  lia.
Qed.

Lemma init_returns (roster : list Player) (rs : list Q) :
  3 <= length roster <= 8 -> length roster - 1 <= length rs ->
  exists s,
    init roster rs = Returned s (drop (length roster - 1) rs) /\
    players s = map convertRole roster /\
    teamLeaderRotation s ≡ₚ seq 0 (length roster) /\
    thresholds (length roster) = Some (winThresholds s) /\
    gameScore s = mkScore 0 0 0 /\ gameEnded s = false /\
    currentTeamLeaderIndex s = 0 /\ teamLeader s = None /\
    screen s = Introduction.
Proof.
  intros Hn Hrs. unfold init.
  rewrite decide_False by lia. rewrite decide_False by lia.
  destruct (thresholds_Some _ Hn) as (t & -> & _).
  rewrite convertRole_count. rewrite decide_False by (intros H; by apply H).
  destruct (ShuffleFacts.shuffleArray_draws (seq 0 (length roster)) rs)
    as [rot Hrot]; [by rewrite length_seq |].
  rewrite length_seq in Hrot. rewrite Hrot.
  eexists. split; [reflexivity |]. simpl.
  split; [done |].
  split; [by eapply ShuffleFacts.shuffleArray_Permutation |]. done.
Qed.

(** X3: [init] of the duel on a roster of 3 to 8 players returns, after
    exactly one draw less than there are players: every player is on the
    team of its role (Bad on team Bad, Good on team Good), so that the
    teams have the sizes of the roles; the rotation of team leaders is a
    rearrangement of all player positions; the thresholds are those of the
    table for the player count; the score is 0 : 0, the game is running,
    no leader is chosen yet and the introduction is on the screen. *)
Theorem init_starts_the_duel (roster : list Player) (rs : list Q) :
  3 <= length roster <= 8 -> length roster - 1 <= length rs ->
  exists s,
    init roster rs = Returned s (drop (length roster - 1) rs) /\
    players s = map convertRole roster /\
    (forall p, p ∈ players s -> (team p = Some TeamBad <-> role p = Bad) /\
                                (team p = Some TeamGood <-> role p = Good)) /\
    length (filter (fun p => team p = Some TeamBad) (players s))
      = length (filter (fun p => role p = Bad) roster) /\
    teamLeaderRotation s ≡ₚ seq 0 (length roster) /\
    thresholds (length roster) = Some (winThresholds s) /\
    gameScore s = mkScore 0 0 0 /\ gameEnded s = false /\
    currentTeamLeaderIndex s = 0 /\ teamLeader s = None /\
    screen s = Introduction.
Proof.
  intros Hn Hrs.
  destruct (init_returns roster rs Hn Hrs) as (s & Hinit & Hps & Hrest).
  exists s. split; [done |]. split; [done |]. split; [| split; [| done]].
  - intros p Hp. rewrite Hps in Hp.
    apply list_elem_of_fmap in Hp as (q & -> & _).
    unfold convertRole. simpl. destruct (role q); simpl; split; split; done.
  - rewrite Hps. apply convertRole_count.
Qed.

(** The theorem on five players: teams Good, Bad, Good, Bad, Good and
    thresholds 5 and 4. *)
Lemma init_starts_the_duel_witness :
  exists s,
    init roster5 (zeros 4) = Returned s [] /\
    map team (players s)
      = [Some TeamGood; Some TeamBad; Some TeamGood; Some TeamBad; Some TeamGood] /\
    winThresholds s = mkThresholds 5 4.
Proof.
  destruct (init_starts_the_duel roster5 (zeros 4))
    as (s & H1 & H2 & _ & _ & _ & H3 & _).
  - simpl. lia.
  - simpl. lia.
  - exists s. split; [exact H1 |]. rewrite H2. split; [reflexivity |].
    simpl in H3. by injection H3.
Defined.

(** X4: [init] of the duel throws exactly when the roster has fewer than
    3 or more than 8 players, with the message for the bound that is
    broken, and then leaves the duel as the constructor built it but for
    [this.players]: no threshold is set and no role is converted.  The
    checks of the threshold table and of the team conversion never
    fail. *)
Theorem init_exceptions (roster : list Player) (rs : list Q) (msg : string) (s : State) :
  init roster rs = Threw msg s <->
  (length roster < 3 /\ msg = minimumPlayers \/
   8 < length roster /\ msg = maximumPlayers) /\
  s = rejected roster.
Proof.
  unfold init. split.
  - intros H. case_decide; [simplify_eq; split; [by left | done] |].
    case_decide; [simplify_eq; split; [right; split; [lia | done] | done] |].
    destruct (thresholds_Some (length roster)) as (t & Ht & _); [lia |].
    rewrite Ht in H. rewrite convertRole_count in H.
    rewrite decide_False in H by (intros E; by apply E).
    by destruct (Shuffle.shuffleArray _ _) as [[? ?] |].
  - intros [[[Hn ->] | [Hn ->]] ->].
    + by rewrite decide_True by lia.
    + rewrite decide_False by lia. by rewrite decide_True by lia.
Qed.

(** *** The rotation of team leaders *)

Lemma step_rotationInv rot k (s : State) (e : Event) :
  0 < length rot ->
  rotationInv rot k s ->
  rotationInv rot ((if endsTurn s e then 1 else 0) + k) (step s e).
Proof.
  intros Hn (Hrot & Hptr & Hintro & Hlead).
  assert (Hsucc : (k `mod` length rot + 1) `mod` length rot
                  = (1 + k) `mod` length rot).
  { rewrite (Nat.add_comm 1 k). by rewrite Nat.Div0.add_mod_idemp_l. }
  unfold rotationInv, endsTurn.
  destruct e; handler_cases.
  all: try (destruct (Hintro eq_refl) as (-> & ? & ? & ?)).
  all: split; [done |].
  all: split; [by rewrite ?Hptr, ?Hsucc, ?Nat.Div0.mod_0_l |].
  all: split; [intros Hi; first [done | by apply Hintro | congruence] |].
  all: intros Hni He; simpl in *.
  all: first [done | by apply Hlead | by rewrite ?Hsucc, ?Nat.Div0.mod_0_l
             | congruence].
Qed.

Lemma run_rotationInv rot (es : list Event) :
  0 < length rot ->
  forall k s, rotationInv rot k s ->
              rotationInv rot (completedTurns s es + k) (run s es).
Proof.
  intros Hn. induction es as [| e es IH]; intros k s H; [done |].
  simpl. apply (step_rotationInv _ _ _ e Hn), IH in H.
  by rewrite Nat.add_assoc, (Nat.add_comm (completedTurns _ _)) in H.
Qed.

(** X5: the team leaders take turns in the order of the rotation that
    [init] drew, which no event changes.  After k completed turns (clicks
    on "Next Turn" that are handled) the pointer is k mod n, and once the
    introduction is left and until the game ends the leader is the player
    at that place of the rotation, a position of the roster: every player
    leads once in any n consecutive turns. *)
Theorem leaders_take_turns (roster : list Player) (rs rs' : list Q)
    (s0 : State) (es : list Event) :
  init roster rs = Returned s0 rs' ->
  let n := length roster in
  let s := run s0 es in
  let k := completedTurns s0 es in
  teamLeaderRotation s = teamLeaderRotation s0 /\
  teamLeaderRotation s0 ≡ₚ seq 0 n /\
  currentTeamLeaderIndex s = k `mod` n /\
  (screen s <> Introduction -> gameEnded s = false ->
   exists l, teamLeader s = Some l /\
             teamLeaderRotation s0 !! (k `mod` n) = Some l /\
             l < length (players s)).
Proof.
  intros Hinit. cbv zeta.
  assert (Hstart : 3 <= length roster /\
            teamLeaderRotation s0 ≡ₚ seq 0 (length roster) /\
            length (players s0) = length roster /\
            rotationInv (teamLeaderRotation s0) 0 s0).
  { unfold init in Hinit.
    repeat (first [ case_match | case_decide ]; simplify_eq/=).
    split; [lia |]. split; [by eapply ShuffleFacts.shuffleArray_Permutation |].
    split; [by rewrite length_map |].
    unfold rotationInv. simpl. split; [done |].
    split; [by rewrite Nat.Div0.mod_0_l |]. done. }
  destruct Hstart as (Hn & Hperm & Hplayers & Hinv).
  assert (Hlen : length (teamLeaderRotation s0) = length roster).
  { by rewrite Hperm, length_seq. }
  apply (run_rotationInv _ es) in Hinv; [| lia].
  unfold rotationInv in Hinv. rewrite Nat.add_0_r, Hlen in Hinv.
  destruct Hinv as (Hrot & Hptr & _ & Hlead).
  split; [done |]. split; [done |]. split; [done |].
  intros Hni He. specialize (Hlead Hni He).
  destruct (lookup_lt_is_Some_2 (teamLeaderRotation s0)
              (completedTurns s0 es `mod` length roster)) as [l Hl].
  { rewrite Hlen. apply Nat.mod_upper_bound. lia. }
  exists l. split; [congruence |]. split; [done |].
  destruct (run_constants s0 es) as (_ & -> & _). rewrite Hplayers.
  apply list_elem_of_lookup_2 in Hl. rewrite Hperm in Hl.
  apply elem_of_seq in Hl. lia.
Qed.

(** The theorem on three players: the rotation is 1, 2, 0 and after one
    completed turn player 2 leads. *)
Lemma leaders_take_turns_witness :
  exists s0 rs',
    init roster3 (zeros 8) = Returned s0 rs' /\
    teamLeaderRotation s0 = [1; 2; 0] /\
    teamLeader (run s0 (ClickBeginChallenge :: leaderPart 0 0 ++ actorPart paper 0
                          ++ [ClickNextTurn])) = Some 2.
Proof.
  eexists _, _. split; [reflexivity |]. split; [reflexivity |].
  destruct (leaders_take_turns roster3 (zeros 8) _ _
              (ClickBeginChallenge :: leaderPart 0 0 ++ actorPart paper 0
                 ++ [ClickNextTurn]) eq_refl) as (_ & _ & _ & H).
  destruct H as (l & -> & Hl & _); [by vm_compute | by vm_compute |].
  vm_compute in Hl. symmetry. exact Hl.
Defined.

(** *** The team vote *)

Lemma mset_fresh {V} k (v : V) (m : list (nat * V)) :
  k ∉ JSMap.mkeys m -> JSMap.mset k v m = m ++ [(k, v)].
Proof.
  induction m as [| [k' v'] m IH]; intros Hk; [done |].
  simpl in *. apply not_elem_of_cons in Hk as [Hne Hk].
  rewrite decide_False by done. by rewrite IH.
Qed.

Lemma numbered_keys (cast : list bool) :
  JSMap.mkeys (imap (fun i v => (i, v)) cast) = seq 0 (length cast).
Proof.
  unfold JSMap.mkeys. change (map fst ?l) with (fst <$> l).
  rewrite fmap_imap, (imap_ext _ (fun j _ => id j)) by done.
  by rewrite imap_seq_0, list_fmap_id.
Qed.

Lemma numbered_count (b : bool) (cast : list bool) :
  length (filter (fun v : nat * bool => snd v = b) (imap (fun i v => (i, v)) cast))
  = length (filter (fun v => v = b) cast).
Proof.
  induction cast as [| v cast IH] using rev_ind; [done |].
  rewrite imap_app, !filter_app, !length_app, IH. f_equal.
  simpl. rewrite !filter_cons, !filter_nil. simpl.
  destruct (decide (v = b)); done.
Qed.

Lemma strict_majority yes no :
  (yes + no) / 2 + 1 <= yes <-> no < yes.
Proof.
  pose proof (Nat.div_mod_eq (yes + no) 2) as H.
  pose proof (Nat.mod_upper_bound (yes + no) 2) as H'. lia.
Qed.

Lemma ballot_voteInv s total cast t v :
  voteInv s total cast t ->
  voteInv s total (if decide (length cast < total) then cast ++ [v] else cast)
          (step t (ClickVote v)).
Proof.
  intros (Hsc & Hv & Ho & Hc & Hl & Hp & Hlast & Hcase). unfold voteInv.
  unfold step. rewrite Hsc. unfold castVote.
  destruct (decide (length cast < total)) as [Hlt | Hge].
  - destruct Hcase as [Ha Hcomp]. rewrite Ha. simpl.
    rewrite bool_decide_eq_false_2 by lia.
    rewrite Hv, mset_fresh.
    2:{ rewrite numbered_keys, elem_of_seq. lia. }
    rewrite length_app. simpl.
    assert (Himap : imap (fun i v0 => (i, v0)) cast ++ [(length cast, v)]
                    = imap (fun i v0 => (i, v0)) (cast ++ [v])).
    { rewrite imap_app. simpl. by rewrite Nat.add_0_r. }
    destruct (decide (length cast + 1 < total)) as [Hlt' | Hge'].
    + rewrite bool_decide_eq_false_2 by lia. simpl. by rewrite Himap.
    + rewrite bool_decide_eq_true_2 by lia. simpl. rewrite Himap.
      repeat split; try done. lia.
  - destruct Hcase as (Ha & Hcomp & Ht & Hlen). rewrite Ha. simpl.
    rewrite decide_False by done. done.
Qed.

Lemma ballots_voteInv s total (vs : list bool) :
  forall cast t,
    voteInv s total cast t ->
    voteInv s total (take total (cast ++ vs)) (run t (ballots vs)).
Proof.
  induction vs as [| v vs IH]; intros cast t H.
  - simpl. rewrite app_nil_r.
    destruct H as (? & ? & ? & ? & ? & ? & ? & Hcase).
    rewrite take_ge; [done |].
    destruct (decide (length cast < total)); [lia |].
    destruct Hcase as (_ & _ & _ & ->). done.
  - simpl. apply (ballot_voteInv _ _ _ _ v), IH in H.
    case_decide as Hlt.
    + by rewrite <- app_assoc in H.
    + rewrite take_app_le in * by lia. done.
Qed.

Lemma showTeamVoting_voteInv (s : State) :
  exists total,
    total = length (filter (fun i => Some i <> teamLeader s)
                           (seq 0 (length (players s)))) /\
    (0 < total -> voteInv s total [] (showTeamVoting s)).
Proof.
  eexists. split; [reflexivity |]. intros Hpos.
  unfold voteInv, showTeamVoting. simpl.
  rewrite decide_True by done. done.
Qed.

(** X6: the intervention vote that [showTeamVoting] opens has one ballot
    for every player but the leader.  Ballots are numbered in the order
    of the clicks and those after the last one are ignored; while ballots
    are missing the timer leaves the vote open.  Once all are in, the
    result screen shows the counts of YES and NO and approves exactly on a
    strict majority of YES (a tie rejects).  "Continue" then lets the
    chosen player decide if the vote approved, and sends the same leader
    back to the console if it did not. *)
Theorem team_vote_is_a_strict_majority (s : State) (vs : list bool) :
  let total := length (filter (fun i => Some i <> teamLeader s)
                              (seq 0 (length (players s)))) in
  let s1 := run (showTeamVoting s) (ballots vs) in
  let s2 := step s1 VoteTimer in
  0 < total ->
  (length vs < total -> screen s2 = TeamVoting (length vs) total) /\
  (total <= length vs ->
   let yes := countYes (take total vs) in
   let no := total - yes in
   votes s1 = imap (fun i v => (i, v)) (take total vs) /\
   screen s2 = VoteResultScreen (bool_decide (no < yes)) yes no /\
   chosenPlayer s2 = chosenPlayer s /\ teamLeader s2 = teamLeader s /\
   forall r rs,
     let s3 := step s2 (ClickContinueVote r rs) in
     teamLeader s3 = teamLeader s /\
     (no < yes -> screen s3 = PlayerDecision None /\
                  chosenPlayer s3 = chosenPlayer s) /\
     (yes <= no -> length (players s) - 1 <= length rs ->
      isConsole (screen s3) = true)).
Proof.
  cbv zeta. intros Hpos.
  destruct (showTeamVoting_voteInv s) as (total & -> & H).
  set (total := length _) in *.
  specialize (H Hpos). apply (ballots_voteInv _ _ vs) in H.
  simpl in H.
  destruct H as (Hsc & Hv & Ho & Hc & Hl & Hp & Hlast & Hcase).
  set (s1 := run (showTeamVoting s) (ballots vs)) in *.
  split.
  - intros Hlt. rewrite take_ge in * by lia.
    rewrite decide_True in Hcase by done. destruct Hcase as [Ha Hcomp].
    unfold step. destruct (voteTimer s1); [| done].
    unfold processVoteResult. simpl. by rewrite Hcomp.
  - intros Hge. rewrite length_take_le in * by done.
    rewrite decide_False in Hcase by lia.
    destruct Hcase as (Ha & Hcomp & Ht & _).
    assert (Hyes : length (filter (fun v : nat * bool => snd v = true) (votes s1))
                   = countYes (take total vs)).
    { rewrite Hv. apply numbered_count. }
    assert (Hno : length (filter (fun v : nat * bool => snd v = false) (votes s1))
                  = total - countYes (take total vs)).
    { rewrite Hv, numbered_count.
      assert (Hsum : length (filter (fun v => v = true) (take total vs))
                     + length (filter (fun v => v = false) (take total vs))
                     = total).
      { rewrite <- (length_take_le vs total) at 3 by done.
        generalize (take total vs). intros l.
        induction l as [| [|] l IH]; simpl; rewrite ?filter_cons; simpl; lia. }
      unfold countYes. lia. }
    assert (Hs2 : step s1 VoteTimer =
              with_screen (VoteResultScreen
                             (bool_decide (total - countYes (take total vs)
                                           < countYes (take total vs)))
                             (countYes (take total vs))
                             (total - countYes (take total vs)))
                (with_voting (votes s1) false false false false s1)).
    { unfold step. rewrite Ht. unfold processVoteResult. simpl.
      rewrite Hcomp, Ho. simpl. rewrite Hyes, Hno.
      unfold cover. simpl. rewrite Hsc.
      f_equal. f_equal. apply bool_decide_ext, strict_majority. }
    split; [done |]. rewrite Hs2. simpl.
    split; [done |]. split; [done |]. split; [done |].
    intros r rs. unfold step. simpl.
    case_bool_decide as Hres; simpl.
    + split; [done |]. split; [done | lia].
    + split.
      * unfold startRockPaperScissors. by case_match.
      * split; [lia |]. intros _ Hrs.
        unfold startRockPaperScissors.
        edestruct renderPlayerSelection_draws as [options ->]; [| done].
        simpl. by rewrite Hp.
Qed.

(** The theorem at the second turn of three players, where player 2
    leads: two ballots, both YES. *)
Lemma team_vote_is_a_strict_majority_witness :
  screen (step (run (showTeamVoting secondTurn3) (ballots [true; true])) VoteTimer)
  = VoteResultScreen true 2 0.
Proof.
  pose proof (team_vote_is_a_strict_majority secondTurn3 [true; true]) as H.
  cbv zeta in H. destruct H as [_ H]; [vm_compute; lia |].
  destruct H as (_ & H & _); [vm_compute; lia |].
  exact H.
Defined.

End DuelTurnsFacts.

(** ** The duel: screens and the end *)

Module DuelScreensFacts.
Import RoleManager Duel Rand RandFacts Scenarios Examples DuelFacts DuelTurns DuelTurnsFacts DuelScreens.

Lemma moves_lookup r : unit_draw r -> exists m, moves !! randomInt r (length moves) = Some m.
Proof.
  intros Hr. apply lookup_lt_is_Some_2. apply randomInt_lt; [done |]. simpl. lia.
Qed.

Lemma init_screenInv roster rs s rs' :
  init roster rs = Returned s rs' -> screenInv s.
Proof.
  intros Hinit.
  assert (Hn : 3 <= length roster <= 8).
  { by destruct (init_thresholds _ _ _ _ Hinit). }
  destruct (thresholds_Some _ Hn) as (t & Ht & Hg & Hb).
  unfold init in Hinit. rewrite Ht in Hinit.
  repeat (first [ case_match | case_decide ]; simplify_eq/=).
  unfold screenInv. simpl. rewrite length_map.
  split; [done |]. split; [done |]. split; [lia |].
  split; [by eapply ShuffleFacts.shuffleArray_Permutation |].
  split; [lia |]. split; [done |]. split; [done |].
  split; [done |]. split; [lia |]. split; [lia |]. done.
Qed.

Lemma leader_in_range (s : State) :
  teamLeaderRotation s ≡ₚ seq 0 (length (players s)) ->
  forall k, k < length (players s) ->
  exists l, teamLeaderRotation s !! k = Some l /\ l < length (players s).
Proof.
  intros Hperm k Hk.
  destruct (lookup_lt_is_Some_2 (teamLeaderRotation s) k) as [l Hl].
  { by rewrite Hperm, length_seq. }
  exists l. split; [done |].
  apply list_elem_of_lookup_2 in Hl. rewrite Hperm in Hl.
  apply elem_of_seq in Hl. lia.
Qed.

Ltac same_state H := by (repeat case_match; exact H).

Ltac split_inv :=
  unfold screenInv; simpl;
  split; [| split; [| split; [| split; [| split; [| split; [| split;
    [| split; [| split; [| split]]]]]]]]].

Lemma options_in_range (s : State) rs options :
  renderPlayerSelection s rs = Some options ->
  forall i b, (i, b) ∈ options -> i < length (players s).
Proof.
  intros Hr i b Hin.
  by apply (renderPlayerSelection_options _ _ _ Hr) in Hin as [? _].
Qed.

Lemma autoSelected_in_range (s : State) c :
  autoSelected s = Some c -> c < length (players s).
Proof.
  unfold autoSelected. intros Hc.
  destruct (availablePlayers s) as [| x [| y l]] eqn:E; simplify_eq.
  assert (Hin : c ∈ availablePlayers s) by (rewrite E; by left).
  by apply availablePlayers_spec in Hin as [? _].
Qed.

Lemma startRockPaperScissors_screenInv (s : State) r rs :
  unit_draw r -> screenInv s -> screen s <> Introduction ->
  screen s <> FinalVictory ->
  screenInv (startRockPaperScissors r rs s).
Proof.
  intros Hr H Hni Hnf.
  pose proof H as (Hflag & Htimer & Hn & Hperm & Hptr & Hg & Hb & Hrun & Hrev
                   & Hana & Hsc).
  unfold startRockPaperScissors.
  destruct (moves_lookup r Hr) as [m Hm]. rewrite Hm.
  destruct (renderPlayerSelection _ rs) as [options |] eqn:Hopt; [| exact H].
  split_inv; try done.
  - intros Hp. by destruct (Hrev Hp).
  - split; [done |]. split.
    + intros i b Hin. by apply (options_in_range _ _ _ Hopt i b).
    + intros c Hc. by apply (autoSelected_in_range _ _ Hc).
Qed.

Lemma step_screenInv (s : State) (e : Event) :
  unitDraws e -> screenInv s -> screenInv (step s e).
Proof.
  intros He H.
  pose proof H as (Hflag & Htimer & Hn & Hperm & Hptr & Hg & Hb & Hrun & Hrev
                   & Hana & Hsc).
  assert (Hlen : length (teamLeaderRotation s) = length (players s)).
  { by rewrite Hperm, length_seq. }
  destruct e.
  - (* Begin Challenge *)
    unfold step. destruct (screen s) eqn:Escr; try same_state H.
    destruct Hsc as (Hr0 & Ha0 & Hend).
    destruct (Hrun Hend) as [Hgs Hbs].
    unfold startContinuousGameplay, nextTeamLeaderTurn, checkWinConditions.
    simpl. rewrite Hend. rewrite !decide_False by lia.
    destruct (leader_in_range s Hperm 0 ltac:(lia)) as (l & Hl & Hlt).
    unfold selectTeamLeader. split_inv; try done; try lia.
    rewrite Hl. by exists l.
  - (* Start Turn *)
    unfold step. destruct (screen s) eqn:Escr; try same_state H.
    destruct He as [Hr _].
    apply startRockPaperScissors_screenInv; try done; by rewrite Escr.
  - (* a teammate *)
    unfold step. destruct (screen s) eqn:Escr; try same_state H.
    case_decide as Hin; [| exact H].
    destruct Hsc as (Hai & Hopts & Hsel).
    split_inv; try done.
    split; [done |]. split; [done |].
    intros c [= <-]. by eapply Hopts.
  - (* a move *)
    unfold step. destruct (screen s) eqn:Escr; try same_state H.
    destruct Hsc as (Hai & Hopts & Hsel).
    split_inv; try done.
  - (* Confirm Selections *)
    unfold step. destruct (screen s) eqn:Escr; try same_state H.
    destruct Hsc as (Hai & Hopts & Hsel).
    unfold confirmSelections.
    destruct selectedPlayer as [c |]; [| exact H].
    destruct selectedMove as [m |]; [| exact H].
    unfold shouldVote. simpl. rewrite Hflag. simpl.
    unfold showPlayerDecision. split_inv; try done.
    split; [| done]. exists c. split; [done |]. by apply Hsel.
  - (* a vote *)
    unfold step. destruct (screen s) eqn:Escr; try same_state H. done.
  - (* the vote timer *)
    unfold step. by rewrite Htimer.
  - (* Continue after the vote *)
    unfold step. destruct (screen s) eqn:Escr; try same_state H. done.
  - (* a final move *)
    unfold step. destruct (screen s) eqn:Escr; try same_state H.
    destruct selectedMove; split_inv; done.
  - (* Confirm Choice *)
    unfold step. destruct (screen s) eqn:Escr; try same_state H.
    destruct selectedMove as [m |]; [| exact H].
    destruct Hsc as (Hc & Hsug & Hai).
    split_inv; try done. by rewrite Escr.
  - (* the battle begins *)
    unfold step. destruct (pendingReveal s) as [| k] eqn:Hk; [exact H |].
    destruct (Hrev ltac:(lia)) as [Hpm Hai].
    unfold cover. simpl.
    destruct (screen s) eqn:Escr; simpl; split_inv; try done;
      try (by intros _).
    all: try (destruct Hsc as (Ha & Hb' & Hc'); lia).
    by rewrite Escr.
  - (* the battle ends *)
    unfold step. destruct (pendingAnalysis s) as [| k] eqn:Hk; [exact H |].
    pose proof (Hana ltac:(lia)) as Hres.
    unfold showDeceptionAnalysis, checkWinConditions, cover. simpl.
    destruct (gameEnded s) eqn:Hend; simpl.
    + destruct (screen s) eqn:Escr; simpl; split_inv; try done;
        rewrite ?Hend, ?Escr; try done.
      all: destruct Hsc as (_ & Ha0 & _); lia.
    + repeat case_decide; simpl.
      all: destruct (screen s) eqn:Escr; simpl; split_inv; try done;
        rewrite ?Hend, ?Escr; try done; try lia.
      all: try (destruct Hsc as (_ & Ha0 & _); lia).
      all: try (intros _; lia).
  - (* Next Turn *)
    unfold step. destruct (screen s) eqn:Escr; try same_state H.
    unfold completeTurn, nextTeamLeaderTurn, checkWinConditions. simpl.
    assert (Hptr' : (currentTeamLeaderIndex s + 1) `mod` length (teamLeaderRotation s)
                    < length (players s)).
    { rewrite Hlen. apply Nat.mod_upper_bound. lia. }
    destruct (leader_in_range s Hperm _ Hptr') as (l & Hl & Hlt).
    assert (Hsel : screenInv
              (selectTeamLeader
                 (with_turn (chosenPlayer s)
                    ((currentTeamLeaderIndex s + 1)
                       `mod` length (teamLeaderRotation s)) s))).
    { unfold selectTeamLeader. split_inv; try done.
      simpl. rewrite Hl. by exists l. }
    destruct (gameEnded s) eqn:Hend; [exact Hsel |].
    destruct (Hrun eq_refl) as [Hgs Hbs].
    rewrite !decide_False by lia. exact Hsel.
Qed.

Lemma run_screenInv (s : State) (es : list Event) :
  Forall unitDraws es -> screenInv s -> screenInv (run s es).
Proof.
  revert s. induction es as [| e es IH]; intros s Hes H; [done |].
  apply Forall_cons in Hes as [He Hes]. simpl.
  by apply IH, step_screenInv.
Qed.

Lemma updateScore_one_point result coin g :
  let g' := updateScore result coin g in
  (goodTeam g' = goodTeam g /\ badTeam g' = badTeam g) \/
  (goodTeam g' = goodTeam g + 1 /\ badTeam g' = badTeam g) \/
  (goodTeam g' = goodTeam g /\ badTeam g' = badTeam g + 1).
Proof.
  unfold updateScore. cbv zeta.
  destruct result as [[| |] |]; simpl; auto;
    repeat case_decide; try destruct (below coin (1 # 2)); simpl; auto.
Qed.

Lemma unit_draw_zero : unit_draw 0.
Proof. split; [unfold Qle | unfold Qlt]; simpl; lia. Qed.

Lemma zeros_unit_draws n : Forall unit_draw (zeros n).
Proof.
  unfold zeros. induction n as [| n IH]; simpl; constructor;
    [apply unit_draw_zero | done].
Qed.

Lemma lastBattle_unitDraws : Forall unitDraws (lastBattle ++ [BattleEnds 0]).
Proof.
  pose proof unit_draw_zero. pose proof (zeros_unit_draws 8).
  unfold lastBattle, threeWins, leaderPart, actorPart.
  repeat (first [ apply Forall_nil_2 | apply Forall_cons_2 | apply Forall_app_2 ]);
    simpl; done.
Qed.

(** X9: in every state that a duel started by [init] reaches, whatever is
    clicked and in whatever order, the values that the template of the
    screen on the page interpolates are all there: the leader, the chosen
    player and every teammate of the console are players of the roster,
    and the moves and the result that the screen shows are set.  No
    template reads a field of [null] or [undefined].  The screens of the
    intervention vote are never among them. *)
Theorem every_screen_can_be_drawn (roster : list Player) (rs rs' : list Q)
    (s0 : State) (es : list Event) :
  init roster rs = Returned s0 rs' -> Forall unitDraws es ->
  let s := run s0 es in
  (exists view, render s = Some view) /\
  (forall votesCast totalVotes, screen s <> TeamVoting votesCast totalVotes) /\
  (forall result yesVotes noVotes,
     screen s <> VoteResultScreen result yesVotes noVotes).
Proof.
  intros Hinit Hes. cbv zeta.
  pose proof (run_screenInv s0 es Hes (init_screenInv _ _ _ _ Hinit)) as H.
  set (s := run s0 es) in *.
  destruct H as (_ & _ & Hn & _ & _ & _ & _ & _ & _ & _ & Hsc).
  split; [| split; intros; intros E; by rewrite E in Hsc].
  unfold render.
  destruct (screen s) as [| | options sel mv | | | mv | | |] eqn:Escr;
    try done.
  - by eexists.
  - destruct Hsc as (l & -> & Hl).
    destruct (lookup_lt_is_Some_2 (players s) l Hl) as [p Hp].
    simpl. rewrite Hp. simpl. by eexists.
  - destruct Hsc as (Hai & Hopts & _).
    destruct (aiMove s) as [a |]; [| done]. simpl.
    assert (Hall : is_Some (mapM (fun o : nat * bool =>
                                    p ← players s !! o.1; Some (o.1, name p, color p, o.2))
                                 options)).
    { apply mapM_is_Some, Forall_forall. intros [i b] Hin. simpl.
      destruct (lookup_lt_is_Some_2 (players s) i (Hopts i b Hin)) as [p Hp].
      rewrite Hp. simpl. by eexists. }
    destruct Hall as [teammates Ht]. simpl in *. rewrite Ht. simpl. by eexists.
  - destruct Hsc as ((c & Hc & Hlt) & Hsug & _).
    destruct (lookup_lt_is_Some_2 (players s) c Hlt) as [p Hp].
    unfold playerAt. rewrite Hc. simpl. rewrite Hp. simpl.
    destruct (suggestedMove s); [| done]. simpl. by eexists.
  - destruct Hsc as (Hpm & Hai & Hres).
    destruct (playerMove s); [| done]. destruct (aiMove s); [| done].
    destruct (gameResult s); [| done]. simpl. by eexists.
  - destruct (gameResult s); [| done]. simpl. by eexists.
  - by eexists.
Qed.

Lemma duel3_returned : init roster3 (zeros 8) = Returned duel3 (zeros 6).
Proof. vm_compute. reflexivity. Qed.

(** The theorem on three players at the battle of the fourth turn. *)
Lemma every_screen_can_be_drawn_witness :
  exists view, render (run duel3 lastBattle) = Some view.
Proof.
  assert (Hes : Forall unitDraws lastBattle).
  { pose proof lastBattle_unitDraws as H. by apply Forall_app in H as [H _]. }
  destruct (every_screen_can_be_drawn roster3 (zeros 8) _ _ lastBattle
              duel3_returned Hes) as [Hview _].
  exact Hview.
Defined.

(** X10: while a duel started by [init] is running, both teams are below
    their thresholds.  The event that ends it is the end of a battle:
    the victory screen comes up, and the winner has exactly its threshold
    while the other team is still below its own: Good wins on reaching its
    threshold, Bad on reaching its own when Good has not. *)
Theorem the_duel_ends_on_the_threshold (roster : list Player) (rs rs' : list Q)
    (s0 : State) (es : list Event) (e : Event) :
  init roster rs = Returned s0 rs' -> Forall unitDraws (es ++ [e]) ->
  let s := run s0 es in
  let s' := step s e in
  let g' := gameScore s' in
  let t := winThresholds s0 in
  gameEnded s = false ->
  goodTeam (gameScore s) < good t /\ badTeam (gameScore s) < bad t /\
  (gameEnded s' = true ->
   (exists coin, e = BattleEnds coin) /\ screen s' = FinalVictory /\
   (winningTeam s' = Some TeamGood /\ goodTeam g' = good t /\ badTeam g' < bad t
    \/ winningTeam s' = Some TeamBad /\ badTeam g' = bad t /\ goodTeam g' < good t)).
Proof.
  intros Hinit Hes. cbv zeta. intros Hend.
  apply Forall_app in Hes as [Hes He]. apply Forall_singleton in He.
  pose proof (run_screenInv s0 es Hes (init_screenInv _ _ _ _ Hinit)) as H.
  destruct (run_constants s0 es) as (_ & _ & Hth).
  set (s := run s0 es) in *. rewrite <- Hth.
  pose proof H as (Hflag & Htimer & Hn & Hperm & Hptr & Hg & Hb & Hrun & Hrev
                   & Hana & Hsc).
  destruct (Hrun Hend) as [Hgs Hbs].
  split; [done |]. split; [done |].
  destruct e; unfold step.
  all: try (destruct (screen s) eqn:Escr; repeat case_match; simpl;
            unfold startRockPaperScissors, confirmSelections, castVote,
              showPlayerDecision, showTeamVoting;
            repeat case_match; simpl; congruence).
  - (* Begin Challenge *)
    destruct (screen s); repeat case_match; try congruence.
    unfold startContinuousGameplay, nextTeamLeaderTurn, checkWinConditions.
    simpl. rewrite Hend, !decide_False by lia. simpl. congruence.
  - (* the battle begins *)
    destruct (pendingReveal s); [congruence |].
    unfold cover. simpl. destruct (screen s); repeat case_match; simpl; congruence.
  - (* the battle ends *)
    destruct (pendingAnalysis s) as [| k] eqn:Hk; [congruence |].
    unfold showDeceptionAnalysis, checkWinConditions. simpl. rewrite Hend.
    pose proof (updateScore_one_point (gameResult s) coin (gameScore s)) as Hone.
    cbv zeta in Hone.
    set (g' := updateScore (gameResult s) coin (gameScore s)) in *.
    case_decide as Hgood; simpl.
    + intros _. split; [by eexists |]. split; [done |]. left.
      split; [done |]. lia.
    + case_decide as Hbad; simpl.
      * intros _. split; [by eexists |]. split; [done |]. right.
        split; [done |]. lia.
      * unfold cover. simpl. destruct (screen s); repeat case_match; simpl; congruence.
  - (* Next Turn *)
    destruct (screen s); repeat case_match; try congruence.
    unfold completeTurn, nextTeamLeaderTurn, checkWinConditions.
    simpl. rewrite Hend, !decide_False by lia. simpl. congruence.
Qed.

(** The theorem on three players: the fourth battle ends the duel with
    the victory screen. *)
Lemma the_duel_ends_on_the_threshold_witness :
  screen (step (run duel3 lastBattle) (BattleEnds 0)) = FinalVictory.
Proof.
  assert (Hrunning : gameEnded (run duel3 lastBattle) = false)
    by (vm_compute; reflexivity).
  assert (Hended : gameEnded (step (run duel3 lastBattle) (BattleEnds 0)) = true)
    by (vm_compute; reflexivity).
  destruct (the_duel_ends_on_the_threshold roster3 (zeros 8) _ _ lastBattle
              (BattleEnds 0) duel3_returned lastBattle_unitDraws Hrunning)
    as (_ & _ & H).
  destruct (H Hended) as (_ & Hscreen & _). exact Hscreen.
Defined.

End DuelScreensFacts.

(** ** The suspicion vote: progress and analysis *)

Module VoteProgressFacts.
Import RoleManager FirstImpressions JSMap JSMapFacts FirstImpressionsFacts VoteProgress.

Lemma callNextPlayer_progressInv ps vs k sc :
  k <= length ps ->
  mkeys vs = seq 0 k ->
  (forall voter suspect, (voter, suspect) ∈ vs -> suspect < length ps) ->
  progressInv (callNextPlayer (mkState ps vs k sc None)).
Proof.
  intros Hk Hkeys Hsus. unfold callNextPlayer, progressInv, votesExpected. simpl.
  case_decide; simpl; rewrite Nat.add_0_r.
  - repeat split; try done. lia.
  - repeat split; try done. lia.
Qed.

Lemma step_progressInv (s : State) (e : Event) :
  progressInv s -> players (step s e) = players s /\ progressInv (step s e).
Proof.
  intros H. pose proof H as (Hle & Hkeys & Hsus & Hdone & Hfi & Hopt).
  unfold votesExpected in Hkeys.
  unfold step. destruct (screen s) as [| vp opts | |] eqn:Hsc; destruct e;
    try (by split; [| exact H]); rewrite ?Nat.add_0_r in *.
  - (* "ready" *)
    split; [done |]. unfold progressInv, votesExpected. simpl.
    rewrite Nat.add_0_r.
    split; [done |]. split; [done |]. split; [done |].
    split; [| split; [done | by intros ?? [= <- <-]]].
    split; [done |]. intros E. apply Hdone in E. done.
  - (* a suspect *)
    destruct (Hopt _ _ eq_refl) as [-> ->].
    case_decide as Hin; [| by split; [| exact H]].
    split; [done |]. apply suspectOptions_spec in Hin as [Hlt Hne].
    unfold progressInv, votesExpected. simpl.
    split; [done |]. split.
    { unfold recordVote. rewrite mkeys_mset, Hkeys.
      rewrite decide_False by (rewrite elem_of_seq; lia).
      by rewrite Nat.add_1_r, seq_S. }
    split.
    { intros voter suspect Hv. apply elem_of_mset in Hv as [[= -> ->] | Hv];
        [done | by eapply Hsus]. }
    split; [| split; [done | done]].
    split; [done |]. intros E. apply Hdone in E. done.
  - (* the timer *)
    split; [by unfold callNextPlayer; case_decide |].
    assert (Hlt : currentPlayerIndex s < length (players s)).
    { destruct (decide (currentPlayerIndex s = length (players s))) as [E | E];
        [| lia]. apply Hdone in E. done. }
    rewrite Hfi. apply callNextPlayer_progressInv; [lia | | done].
    by rewrite Hkeys, Nat.add_1_r.
Qed.

Lemma run_progressInv (s : State) (es : list Event) :
  progressInv s -> players (run s es) = players s /\ progressInv (run s es).
Proof.
  revert s. induction es as [| e es IH]; intros s H; [done |].
  destruct (step_progressInv s e H) as [Hp H']. simpl.
  destruct (IH _ H') as [Hp' H'']. split; [congruence | done].
Qed.

(** X7: the suspicion vote calls the players one by one in the order
    that [init] shuffled, which no event changes.  Whatever is clicked,
    the votes on record are exactly those of the players called so far,
    in that order, one each (and the current player's once it is
    confirmed); voter and suspect are positions of the roster and differ.
    The vote is complete exactly when every player has a vote on record,
    and the analysis is stored then and only then, computed from those
    votes. *)
Theorem vote_ends_when_all_have_voted (roster : list Player) (rs rs' : list Q)
    (s0 : State) (es : list Event) :
  init roster rs = Returned s0 rs' ->
  let n := length roster in
  let s := run s0 es in
  players s = players s0 /\ players s0 ≡ₚ roster /\
  currentPlayerIndex s <= n /\
  mkeys (votes s) = seq 0 (votesExpected s) /\
  (forall voter suspect,
     (voter, suspect) ∈ votes s -> voter < n /\ suspect < n /\ voter <> suspect) /\
  (screen s = VotingComplete <->
   mkeys (votes s) = seq 0 n /\ firstImpressions s = Some (analyzeVotes (votes s))) /\
  (screen s <> VotingComplete -> firstImpressions s = None).
Proof.
  intros Hinit. cbv zeta.
  pose proof (run_sound s0 es (init_sound _ _ _ _ Hinit)) as [Hself _].
  unfold init in Hinit.
  destruct (Shuffle.shuffleArray roster rs) as [[ps rest] |] eqn:E; [| done].
  injection Hinit as <- _.
  apply ShuffleFacts.shuffleArray_Permutation in E.
  assert (Hps : players (callNextPlayer (mkState ps [] 0 CallPlayer None)) = ps).
  { unfold callNextPlayer. by case_decide. }
  destruct (run_progressInv (callNextPlayer (mkState ps [] 0 CallPlayer None)) es)
    as [Hp (Hle & Hkeys & Hsus & Hdone & Hfi & _)].
  { apply callNextPlayer_progressInv; [lia | done |].
    intros ?? H. by apply elem_of_nil in H. }
  set (s := run _ _) in *. rewrite Hps in *. rewrite Hp in *.
  rewrite <- (Permutation_length E).
  split; [done |]. split; [done |]. split; [done |]. split; [done |].
  split.
  { intros voter suspect Hv. split; [| split; [by eapply Hsus | by eapply Hself]].
    assert (Hk : voter ∈ mkeys (votes s)).
    { unfold mkeys. apply list_elem_of_fmap. by exists (voter, suspect). }
    rewrite Hkeys, elem_of_seq in Hk. unfold votesExpected in Hk.
    destruct (screen s) eqn:Hsc; try lia.
    assert (currentPlayerIndex s <> length ps); [| lia].
    intros E'. apply Hdone in E'. done. }
  split.
  - split.
    + intros Hsc. rewrite Hkeys, Hfi. unfold votesExpected. rewrite Hsc.
      apply Hdone in Hsc. by rewrite Hsc, Nat.add_0_r.
    + intros [_ Hsome]. rewrite Hfi in Hsome. by destruct (screen s).
  - intros Hsc. rewrite Hfi. by destruct (screen s).
Qed.

(** The theorem on three players in the voting order 1, 2, 0: after the
    clicks of all three the vote is complete. *)
Lemma vote_ends_when_all_have_voted_witness :
  exists s0 rs',
    init Scenarios.roster3 (Scenarios.zeros 2) = Returned s0 rs' /\
    screen (run s0 (everybodyVotes [1; 2; 0])) = VotingComplete /\
    votes (run s0 (everybodyVotes [1; 2; 0])) = [(0, 1); (1, 2); (2, 0)].
Proof.
  eexists _, _. split; [reflexivity |].
  destruct (vote_ends_when_all_have_voted Scenarios.roster3 (Scenarios.zeros 2)
              _ _ (everybodyVotes [1; 2; 0]) eq_refl)
    as (_ & _ & _ & _ & _ & Hdone & _).
  split; [| reflexivity].
  apply Hdone. split; reflexivity.
Defined.

(** *** The stored analysis *)

Lemma mset_total k v (m : list (nat * nat)) :
  sum_list (map snd (mset k v m)) + default 0 (mget k m)
  = sum_list (map snd m) + v.
Proof.
  induction m as [| [k' c] m IH]; simpl; [lia |].
  destruct (decide (k = k')); simpl; lia.
Qed.

Lemma countStep_total (counts : list (nat * nat)) (vote : nat * nat) :
  sum_list (map snd (countStep counts vote)) = sum_list (map snd counts) + 1.
Proof.
  unfold countStep.
  pose proof (mset_total (snd vote) (default 0 (mget (snd vote) counts) + 1)
                counts). lia.
Qed.

Lemma countSuspicions_total (vs counts : list (nat * nat)) :
  sum_list (map snd (fold_left countStep vs counts))
  = sum_list (map snd counts) + length vs.
Proof.
  revert counts. induction vs as [| v vs IH]; intros counts; simpl; [lia |].
  rewrite IH, countStep_total. lia.
Qed.

(** X8: the analysis that [analyzeVotes] stores keeps the votes as they
    are; its suspicion counts have one entry for each player that got a
    vote and add up to the number of votes; there is a most suspected
    player unless there is no vote at all, and that player has a count of
    at least 1 that no other count exceeds. *)
Theorem analysis_totals (vs : list (nat * nat)) :
  let a := analyzeVotes vs in
  a_votes a = vs /\
  sum_list (map snd (suspicionCounts a)) = length vs /\
  NoDup (mkeys (suspicionCounts a)) /\
  (forall s, s ∈ mkeys (suspicionCounts a) <-> s ∈ map snd vs) /\
  (mostSuspected a = None <-> vs = []) /\
  (forall m,
     mostSuspected a = Some m ->
     exists cm,
       mget m (suspicionCounts a) = Some cm /\ 0 < cm /\
       forall s c, mget s (suspicionCounts a) = Some c -> c <= cm).
Proof.
  cbv zeta. split; [done |]. split; [| split; [| split; [| split]]].
  - unfold analyzeVotes. simpl. unfold countSuspicions.
    by rewrite countSuspicions_total.
  - unfold analyzeVotes. simpl. unfold countSuspicions.
    assert (H : forall counts : list (nat * nat),
              NoDup (mkeys counts) -> NoDup (mkeys (fold_left countStep vs counts))).
    { induction vs as [| v vs IH]; intros counts Hnd; [done |].
      simpl. apply IH. unfold countStep. by apply NoDup_mkeys_mset. }
    apply H. constructor.
  - intros s. unfold analyzeVotes. simpl. rewrite countSuspicions_spec.
    unfold mkeys. rewrite map_map. simpl. rewrite map_id.
    rewrite elem_of_keysAfter. set_solver.
  - rewrite mostSuspected_brute_force. unfold bruteForceMostSuspected.
    split.
    + intros Hnone. destruct vs as [| v vs]; [done |]. exfalso.
      destruct (greatest_exists (bruteForceCount (v :: vs)) (map snd (v :: vs)))
        as (x & Hx & Hmax); [done |].
      eapply find_none_iff in Hnone; [| exact Hx]. congruence.
    + by intros ->.
  - intros m. rewrite mostSuspected_brute_force. unfold bruteForceMostSuspected.
    intros Hfind. apply find_some in Hfind as [Hin Hmax].
    apply list_elem_of_In in Hin.
    pose proof (bruteForceCount_pos _ _ Hin) as Hpos.
    exists (bruteForceCount vs m).
    split; [| split; [done |]].
    + rewrite suspicionCounts_brute_force. rewrite decide_False by lia. done.
    + intros s c. rewrite suspicionCounts_brute_force.
      case_decide; [done |]. intros [= <-].
      destruct (decide (s ∈ map snd vs)) as [Hs | Hs].
      * rewrite forallb_elem in Hmax. apply Hmax in Hs.
        by apply Nat.leb_le in Hs.
      * rewrite (bruteForceCount_zero _ _ Hs) in *. lia.
Qed.

End VoteProgressFacts.

(** ** The key of the audio cache *)

Module VoiceFacts.
Import Voice.
Local Open Scope Z_scope.

Lemma toInt32_range x : - 2 ^ 31 <= toInt32 x < 2 ^ 31.
Proof. unfold toInt32. pose proof (Z.mod_pos_bound (x + 2 ^ 31) (2 ^ 32)). lia. Qed.

Lemma toInt32_small x : - 2 ^ 31 <= x < 2 ^ 31 -> toInt32 x = x.
Proof. intros H. unfold toInt32. rewrite Z.mod_small; lia. Qed.

Lemma toInt32_congr x y : (x - y) mod 2 ^ 32 = 0 -> toInt32 x = toInt32 y.
Proof.
  intros H. unfold toInt32. f_equal.
  apply Z.mod_divide in H; [| lia]. destruct H as [k Hk].
  replace (x + 2 ^ 31) with (y + 2 ^ 31 + k * 2 ^ 32) by lia.
  apply Z.mod_add. lia.
Qed.

Lemma toInt32_mod x : (toInt32 x - x) mod 2 ^ 32 = 0.
Proof.
  unfold toInt32. pose proof (Z.div_mod (x + 2 ^ 31) (2 ^ 32) ltac:(lia)) as H.
  replace ((x + 2 ^ 31) mod 2 ^ 32 - 2 ^ 31 - x)
    with (- ((x + 2 ^ 31) / 2 ^ 32) * 2 ^ 32) by lia.
  apply Z.mod_mul. lia.
Qed.

Lemma hashStep_shift h c :
  hashStep (toInt32 h) c
  = toInt32 (toInt32 (toInt32 h * 2 ^ 5) - toInt32 h + c).
Proof.
  unfold hashStep. cbv zeta. rewrite Z.land_diag.
  rewrite (toInt32_small (toInt32 h)) by apply toInt32_range.
  rewrite Z.shiftl_mul_pow2 by lia. reflexivity.
Qed.

Lemma shift_minus_is_31 h c :
  toInt32 (toInt32 (toInt32 h * 2 ^ 5) - toInt32 h + c) = toInt32 (31 * h + c).
Proof.
  apply toInt32_congr.
  pose proof (toInt32_mod (toInt32 h * 2 ^ 5)) as H1.
  pose proof (toInt32_mod h) as H2.
  apply Z.mod_divide in H1; [| lia]. apply Z.mod_divide in H2; [| lia].
  destruct H1 as [k1 H1], H2 as [k2 H2].
  apply Z.mod_divide; [lia |]. exists (k1 + 31 * k2). lia.
Qed.

Lemma hashStep_spec h c : hashStep (toInt32 h) c = toInt32 (31 * h + c).
Proof. rewrite hashStep_shift. apply shift_minus_is_31. Qed.

Lemma fold_left_pass {A B} (f : A -> B -> A) (x : B) (l : list B) (a : A) :
  fold_left f (x :: l) a = fold_left f l (f a x).
Proof. reflexivity. Qed.

Lemma hashCode_loop text : forall h,
  fold_left hashStep text (toInt32 h)
  = toInt32 (fold_left (fun h c => 31 * h + c) text h).
Proof.
  induction text as [| c text IH]; intros h; [reflexivity |].
  rewrite !fold_left_pass, hashStep_spec. apply IH.
Qed.

(** X11: [hashText], the key of the audio cache, is the decimal numeral
    of the polynomial hash text[0]*31^(n-1) + ... + text[n-1] of the code
    units, reduced to a signed 32-bit integer: the value lies in
    [-2^31, 2^31) and differs from the polynomial by a multiple of 2^32.
    Two texts have the same key exactly when they have the same 32-bit
    hash, and different texts can: a text with "Aa" (65, 97) at some
    place has the key of the text with "BB" (66, 66) there. *)
Theorem hashText_is_the_polynomial_hash (text : list Z) :
  hashCode text = toInt32 (polynomial31 text) /\
  - 2 ^ 31 <= hashCode text < 2 ^ 31 /\
  (hashCode text - polynomial31 text) mod 2 ^ 32 = 0 /\
  (forall text', hashText text = hashText text' <-> hashCode text = hashCode text') /\
  (forall suffix,
     hashText (text ++ [65; 97] ++ suffix) = hashText (text ++ [66; 66] ++ suffix)).
Proof.
  assert (H : forall t, hashCode t = toInt32 (polynomial31 t)).
  { intros t. unfold hashCode, polynomial31. rewrite <- hashCode_loop. done. }
  split; [done |]. rewrite H.
  split; [apply toInt32_range |]. split; [apply toInt32_mod |].
  split.
  - intros text'. unfold hashText. rewrite <- H. split; [| by intros ->].
    apply (inj pretty).
  - intros suffix. unfold hashText. f_equal. rewrite !H. f_equal.
    unfold polynomial31. rewrite !fold_left_app. simpl. f_equal. lia.
Qed.

End VoiceFacts.

(** ** The hand-out of the secrets and the accessors *)

Module RevealFacts.
Import RoleManager Rand RandFacts RoleManagerFacts Scenarios Examples Reveal.

Lemma handedTo_lookup k ps0 i :
  handedTo k ps0 !! i
  = (fun p => if decide (i < k) then set_hasReceived p else p) <$> ps0 !! i.
Proof. unfold handedTo. by rewrite list_lookup_imap. Qed.

Lemma handedTo_length k ps0 : length (handedTo k ps0) = length ps0.
Proof. unfold handedTo. by rewrite length_imap. Qed.

Lemma handedTo_S k ps0 :
  alter set_hasReceived k (handedTo k ps0) = handedTo (S k) ps0.
Proof.
  apply list_eq. intros i. rewrite !handedTo_lookup.
  destruct (decide (i = k)) as [-> | Hne].
  - rewrite list_lookup_alter_eq, handedTo_lookup.
    destruct (ps0 !! k); simpl; [| done].
    rewrite decide_False by lia. by rewrite decide_True by lia.
  - rewrite list_lookup_alter_ne by done. rewrite handedTo_lookup.
    destruct (ps0 !! i); simpl; [| done].
    destruct (decide (i < k)).
    + by rewrite decide_True by lia.
    + by rewrite decide_False by lia.
Qed.

Lemma findByIndex_received (f : nat -> Player -> Player) (ps : list Player) i :
  (forall j q, f j q = q \/ f j q = set_hasReceived q) ->
  panel <$> findByIndex (imap f ps) i = panel <$> findByIndex ps i.
Proof.
  unfold findByIndex. revert f.
  induction ps as [| q ps IH]; intros f Hf; [done |].
  simpl. destruct (Hf 0 q) as [-> | ->]; simpl.
  - case_bool_decide; [done |]. apply IH. intros j q'. apply Hf.
  - case_bool_decide; [done |]. apply IH. intros j q'. apply Hf.
Qed.

Lemma partnerOf_panel ps p :
  partnerOf ps p =
    match role p, partnerId p with
    | Bad, Some i => panel <$> findByIndex ps i
    | _, _ => None
    end.
Proof.
  unfold partnerOf. destruct (role p); [done |].
  destruct (partnerId p); [| done]. by destruct (findByIndex ps n).
Qed.

Lemma partnerOf_handedTo k ps0 p :
  partnerOf (handedTo k ps0) p = partnerOf ps0 p.
Proof.
  rewrite !partnerOf_panel. destruct (role p); [done |].
  destruct (partnerId p) as [i |]; [| done].
  apply findByIndex_received. intros j q. case_decide; auto.
Qed.

Lemma secretOf_handedTo k ps0 p :
  secretOf (handedTo k ps0) p = secretOf ps0 p.
Proof. unfold secretOf. by rewrite partnerOf_handedTo. Qed.

Lemma secretOf_received ps p : secretOf ps (set_hasReceived p) = secretOf ps p.
Proof. done. Qed.

Lemma completeRoleAssignment_revealInv ps0 sr0 skip (s : State) :
  players (manager s) = handedTo (currentPlayerIndex (manager s)) ps0 ->
  skipVotingScene s = skip ->
  currentPlayerIndex (manager s) = length ps0 ->
  revealInv ps0 sr0 skip (completeRoleAssignment s).
Proof.
  intros Hps Hskip Hk. unfold revealInv, completeRoleAssignment, received.
  simpl. rewrite Nat.add_0_r, Hskip. done.
Qed.

Lemma callNextPlayer_revealInv ps0 sr0 skip (s : State) :
  players (manager s) = handedTo (currentPlayerIndex (manager s)) ps0 ->
  skipVotingScene s = skip ->
  currentPlayerIndex (manager s) <= length ps0 ->
  isAssigningRoles (manager s) = true -> secretRoles s = sr0 ->
  revealInv ps0 sr0 skip (callNextPlayer s).
Proof.
  intros Hps Hskip Hk Ha Hsr. unfold callNextPlayer.
  assert (Hlen : length (players (manager s)) = length ps0).
  { rewrite Hps. apply handedTo_length. }
  case_decide.
  - apply completeRoleAssignment_revealInv; try done; lia.
  - unfold revealInv, received. simpl. rewrite Nat.add_0_r.
    repeat split; try done. lia.
Qed.

Lemma step_revealInv ps0 sr0 skip (s : State) (e : Event) :
  revealInv ps0 sr0 skip s -> revealInv ps0 sr0 skip (step s e).
Proof.
  intros H. pose proof H as (Hps & Hskip & Hsc).
  unfold received in Hps. unfold step.
  destruct (screen s) as [| i | i secret | | c] eqn:Escr; destruct e; try done;
    rewrite ?Nat.add_0_r in Hps.
  - destruct Hsc as (Hk & Ha & Hsr).
    apply callNextPlayer_revealInv; try done. lia.
  - destruct Hsc as (Hk & Ha & Hsr).
    apply callNextPlayer_revealInv; try done. lia.
  - destruct Hsc as (-> & Hk & Ha & Hsr).
    destruct (lookup_lt_is_Some_2 ps0 (currentPlayerIndex (manager s)) Hk)
      as [p Hp].
    unfold showPlayerSecret. rewrite Hps, handedTo_lookup, Hp. simpl.
    rewrite decide_False by lia.
    unfold revealInv, received. simpl.
    rewrite handedTo_S, Nat.add_1_r, secretOf_handedTo.
    repeat split; try done. by exists p.
  - destruct Hsc as (-> & Hk & _ & Ha & Hsr).
    unfold showNextPlayerPrompt.
    assert (Hlen : length (players (manager s)) = length ps0).
    { rewrite Hps. apply handedTo_length. }
    case_decide.
    + apply completeRoleAssignment_revealInv; simpl; try done; lia.
    + unfold revealInv, received. simpl. rewrite Nat.add_0_r.
      repeat split; try done. lia.
  - destruct Hsc as (Hk & Ha & Hsr).
    apply callNextPlayer_revealInv; try done. lia.
Qed.

Lemma run_revealInv ps0 sr0 skip (s : State) (es : list Event) :
  revealInv ps0 sr0 skip s -> revealInv ps0 sr0 skip (run s es).
Proof.
  revert s. induction es as [| e es IH]; intros s H; [done |].
  simpl. by apply IH, step_revealInv.
Qed.

Lemma showInitialInstructions_revealInv voice (m : RoleManager.State) sc sr skip :
  currentPlayerIndex m = 0 -> isAssigningRoles m = true ->
  revealInv (players m) sr skip
    (showInitialInstructions voice (mkState m sc sr skip)).
Proof.
  intros Hk Ha.
  assert (H0 : handedTo 0 (players m) = players m).
  { apply list_eq. intros i. rewrite handedTo_lookup.
    by destruct (players m !! i). }
  unfold showInitialInstructions. destruct voice.
  - unfold revealInv, received. simpl. rewrite Hk. simpl. by rewrite H0.
  - apply callNextPlayer_revealInv; simpl; try done.
    + by rewrite Hk, H0.
    + lia.
Qed.

Lemma startRoleAssignment_reset (self m : RoleManager.State) pd rs rs' :
  RoleManager.startRoleAssignment self pd rs = Returned m rs' ->
  currentPlayerIndex m = 0 /\ isAssigningRoles m = true.
Proof.
  unfold RoleManager.startRoleAssignment, generatePlayerRoles. intros H.
  repeat (first [ case_match | case_decide ]; simplify_eq/=); done.
Qed.

Lemma ready_shows_the_secret ps0 sr0 skip (s : State) i :
  revealInv ps0 sr0 skip s -> screen s = CallScreen i ->
  exists secret,
    screen (step s ClickReady) = SecretScreen i secret /\
    currentPlayerIndex (manager (step s ClickReady)) = i.
Proof.
  intros (Hps & _ & Hsc) E. rewrite E in Hsc.
  destruct Hsc as (-> & Hk & _).
  unfold received in Hps. rewrite E, Nat.add_0_r in Hps.
  unfold step. rewrite E. unfold showPlayerSecret.
  destruct (lookup_lt_is_Some_2 ps0 _ Hk) as [p Hp].
  rewrite Hps, handedTo_lookup, Hp. simpl. by eexists.
Qed.

Lemma continue_moves_on ps0 sr0 skip (s : State) i secret :
  revealInv ps0 sr0 skip s -> screen s = SecretScreen i secret ->
  currentPlayerIndex (manager (step s ClickContinue)) = i + 1 /\
  if decide (length ps0 <= i + 1)
  then exists c, screen (step s ClickContinue) = Started c
  else screen (step s ClickContinue) = NextPlayerPrompt.
Proof.
  intros (Hps & _ & Hsc) E. rewrite E in Hsc.
  destruct Hsc as (-> & Hk & _).
  assert (Hlen : length (players (manager s)) = length ps0).
  { rewrite Hps. apply handedTo_length. }
  unfold step. rewrite E. unfold showNextPlayerPrompt. rewrite Hlen.
  destruct (decide (length ps0 <= _)); simpl; [| done]. split; [done |].
  by eexists.
Qed.

Lemma finish_calls_the_next ps0 sr0 skip (s : State) :
  revealInv ps0 sr0 skip s -> screen s = NextPlayerPrompt ->
  screen (step s ClickFinish) = CallScreen (currentPlayerIndex (manager s)) /\
  currentPlayerIndex (manager (step s ClickFinish))
  = currentPlayerIndex (manager s).
Proof.
  intros (Hps & _ & Hsc) E. rewrite E in Hsc. destruct Hsc as (Hk & _).
  assert (Hlen : length (players (manager s)) = length ps0).
  { rewrite Hps. apply handedTo_length. }
  unfold step. rewrite E. unfold callNextPlayer. rewrite Hlen.
  by rewrite decide_False by lia.
Qed.

Lemma everybodyLooks_ends ps0 sr0 skip (d : nat) :
  forall s : State,
    revealInv ps0 sr0 skip s ->
    screen s = CallScreen (currentPlayerIndex (manager s)) ->
    currentPlayerIndex (manager s) + S d = length ps0 ->
    exists c, screen (run s (everybodyLooks (S d))) = Started c.
Proof.
  induction d as [| d IH]; intros s Hinv E Hd.
  - simpl.
    destruct (ready_shows_the_secret _ _ _ _ _ Hinv E) as (secret & E1 & Hk1).
    apply (step_revealInv _ _ _ _ ClickReady) in Hinv.
    destruct (continue_moves_on _ _ _ _ _ _ Hinv E1) as [_ H].
    rewrite decide_True in H by lia. done.
  - change (everybodyLooks (S (S d)))
      with ([ClickReady; ClickContinue; ClickFinish] ++ everybodyLooks (S d)).
    unfold run. rewrite fold_left_app. simpl.
    destruct (ready_shows_the_secret _ _ _ _ _ Hinv E) as (secret & E1 & Hk1).
    apply (step_revealInv _ _ _ _ ClickReady) in Hinv.
    destruct (continue_moves_on _ _ _ _ _ _ Hinv E1) as [Hk2 E2].
    rewrite decide_False in E2 by lia.
    apply (step_revealInv _ _ _ _ ClickContinue) in Hinv.
    destruct (finish_calls_the_next _ _ _ _ Hinv E2) as [E3 Hk3].
    apply (step_revealInv _ _ _ _ ClickFinish) in Hinv.
    apply IH; [done | by rewrite Hk3 | lia].
Qed.

Lemma handedTo_all ps0 : handedTo (length ps0) ps0 = map set_hasReceived ps0.
Proof.
  apply list_eq. intros i. rewrite handedTo_lookup, list_lookup_fmap.
  destruct (ps0 !! i) eqn:E; simpl; [| done].
  apply lookup_lt_Some in E. by rewrite decide_True.
Qed.

(** X12: after [startRoleAssignment] the secrets are handed out in the
    order of the shuffled array, whatever is clicked.  At any moment the
    players before the current one, and the current one once its secret
    is on the screen, have [hasReceived] set and nothing else of the array
    has changed; the call screen and the secret screen are those of the
    current player, and the secret is the one computed from the array as
    assigned.  Role assignment is over exactly when a challenge has
    started: then every player has received, [gameState.secretRoles] is
    the array, and the challenge is the duel if the voting scene is
    skipped and the suspicion vote otherwise; until then [secretRoles] is
    untouched.  It ends when every player in turn has pressed "Ready"
    and "Continue" (and, between two players, "Finish"). *)
Theorem secrets_are_handed_out_in_order (voiceManager : bool) (s0 s1 : State)
    (playersData : list PlayerData) (rs rs' : list Q) :
  startRoleAssignment voiceManager s0 playersData rs = Returned s1 rs' ->
  let ps0 := players (manager s1) in
  let n := length ps0 in
  (forall es,
     let s := run s1 es in
     players (manager s) = handedTo (received s) ps0 /\
     received s <= n /\
     (forall i, screen s = CallScreen i ->
                i = currentPlayerIndex (manager s) /\ i < n) /\
     (forall i secret,
        screen s = SecretScreen i secret ->
        i = currentPlayerIndex (manager s) /\
        exists p, ps0 !! i = Some p /\ secret = secretOf ps0 p) /\
     ((exists c, screen s = Started c) <-> isAssigningRoles (manager s) = false) /\
     (forall c,
        screen s = Started c ->
        players (manager s) = map set_hasReceived ps0 /\
        secretRoles s = Some (players (manager s)) /\
        c = (if skipVotingScene s0 then DeceptionDuel else SuspicionVote)) /\
     ((forall c, screen s <> Started c) -> secretRoles s = secretRoles s0)) /\
  (exists c,
     screen (run s1 ((if voiceManager then [InstructionsSpoken] else [])
                     ++ everybodyLooks n)) = Started c).
Proof.
  unfold startRoleAssignment. intros Hstart.
  destruct (RoleManager.startRoleAssignment (manager s0) playersData rs)
    as [m rest | |] eqn:Hm; [| done | done].
  injection Hstart as <- <-.
  destruct (startRoleAssignment_reset _ _ _ _ _ Hm) as [Hk Ha].
  pose proof (showInitialInstructions_revealInv voiceManager m (screen s0)
                (secretRoles s0) (skipVotingScene s0) Hk Ha) as Hinv.
  set (s1 := showInitialInstructions voiceManager _) in *.
  assert (Hps : players (manager s1) = players m).
  { unfold s1, showInitialInstructions, callNextPlayer.
    destruct voiceManager; [done |]. simpl. by case_decide. }
  cbv zeta. rewrite Hps. split.
  - intros es. apply (run_revealInv _ _ _ _ es) in Hinv.
    destruct Hinv as (Hplayers & Hskip & Hsc).
    set (s := run s1 es) in *. unfold received in *.
    split; [done |].
    destruct (screen s) as [| i | i secret | | c]; simpl in *;
      rewrite ?Nat.add_0_r in *.
    + destruct Hsc as (Hi & Hassign & Hsr).
      split; [lia |]. split; [done |]. split; [done |].
      split; [split; [by intros [c ?] | by rewrite Hassign] |].
      split; [done |]. done.
    + destruct Hsc as (Hi & Hlt & Hassign & Hsr).
      split; [lia |]. split; [intros ? [= <-]; split; [done | lia] |]. split; [done |].
      split; [split; [by intros [c ?] | by rewrite Hassign] |].
      split; [done |]. done.
    + destruct Hsc as (Hi & Hlt & Hp & Hassign & Hsr).
      split; [lia |]. split; [done |]. split; [intros ?? [= <- <-]; by split |].
      split; [split; [by intros [c ?] | by rewrite Hassign] |].
      split; [done |]. done.
    + destruct Hsc as (Hlt & Hassign & Hsr).
      split; [lia |]. split; [done |]. split; [done |].
      split; [split; [by intros [c ?] | by rewrite Hassign] |].
      split; [done |]. done.
    + destruct Hsc as (Hi & Hassign & Hsr & Hc).
      split; [lia |]. split; [done |]. split; [done |].
      split; [split; [done | by eexists] |].
      split.
      * intros ? [= <-]. split; [| done].
        by rewrite Hplayers, Hi, handedTo_all.
      * intros H. by destruct (H c).
  - assert (Hcall : exists s2,
              run s1 (if voiceManager then [InstructionsSpoken] else []) = s2 /\
              revealInv (players m) (secretRoles s0) (skipVotingScene s0) s2 /\
              currentPlayerIndex (manager s2) = 0 /\
              (screen s2 = CallScreen 0 \/
               players m = [] /\ exists c, screen s2 = Started c)).
    { eexists. split; [reflexivity |].
      split; [by apply run_revealInv |].
      unfold s1, showInitialInstructions.
      destruct voiceManager; simpl; unfold step, callNextPlayer; simpl;
        rewrite Hk; case_decide; simpl; (split; [done |]).
      all: first [ by left | right; split; [| by eexists] ].
      all: destruct (players m); [done | simpl in *; lia]. }
    destruct Hcall as (s2 & Hrun & Hinv2 & Hk2 & [Hsc2 | [Hnil Hsc2]]).
    + unfold run in *. rewrite fold_left_app, Hrun.
      destruct (players m) as [| p ps] eqn:Eps.
      { destruct Hinv2 as (_ & _ & Hsc). rewrite Hsc2 in Hsc. simpl in Hsc. lia. }
      simpl length.
      apply (everybodyLooks_ends _ _ _ (length ps) s2 Hinv2).
      * by rewrite Hk2.
      * rewrite Hk2. simpl. done.
    + unfold run in *. rewrite fold_left_app, Hrun, Hnil. simpl. done.
Qed.

Lemma sixDraws_unit : Forall unit_draw (sixDraws1 ++ sixDraws2).
Proof. repeat constructor; unfold Qle, Qlt; simpl; lia. Qed.

Lemma assignedSix_returned :
  RoleManager.startRoleAssignment freshManager sixColors (sixDraws1 ++ sixDraws2)
  = Returned assignedSix [].
Proof. vm_compute. reflexivity. Qed.

(** The theorem on six players, without a voice: the hand-out ends with
    the suspicion vote. *)
Lemma secrets_are_handed_out_in_order_witness :
  exists s1 rs',
    startRoleAssignment false beforeReveal sixColors (sixDraws1 ++ sixDraws2)
    = Returned s1 rs' /\
    screen (run s1 (everybodyLooks 6)) = Started SuspicionVote.
Proof.
  assert (Hret : startRoleAssignment false beforeReveal sixColors
                   (sixDraws1 ++ sixDraws2)
                 = Returned (showInitialInstructions false
                               (mkState assignedSix Instructions None false)) []).
  { unfold startRoleAssignment. simpl manager. by rewrite assignedSix_returned. }
  destruct (secrets_are_handed_out_in_order false beforeReveal _ sixColors
              (sixDraws1 ++ sixDraws2) _ Hret) as [Hall [c Hc]].
  eexists _, _. split; [exact Hret |].
  destruct (Hall (everybodyLooks 6)) as (_ & _ & _ & _ & _ & Hstarted & _).
  change ([] ++ everybodyLooks
            (length (players (manager (showInitialInstructions false
               (mkState assignedSix Instructions None false))))))
    with (everybodyLooks 6) in Hc.
  destruct (Hstarted c Hc) as (_ & _ & Hwhich). rewrite Hc. f_equal. exact Hwhich.
Defined.

(** *** The roster that role assignment returns *)

(** Every player of the returned roster is the player built for one
    entry. *)
Lemma assigned_roster (self st : RoleManager.State) (pd : list PlayerData)
    (rs rs' : list Q) :
  3 <= length pd <= 8 -> Forall unit_draw rs ->
  RoleManager.startRoleAssignment self pd rs = Returned st rs' ->
  exists idx,
    NoDup idx /\ length idx = tableBadCount (length pd) /\
    (forall i, i ∈ idx -> i < length pd) /\
    badPlayersKnowEachOther st = Some (tableKnowEachOther (length pd)) /\
    forall p,
      p ∈ players st <->
      exists j d, pd !! j = Some d /\
                  p = assigned (tableKnowEachOther (length pd)) idx j d.
Proof.
  intros Hn Hrs Hret.
  pose proof (startRoleAssignment_valid self pd rs Hn Hrs) as H.
  rewrite Hret in H. destruct H as (idx & Hnd & Hlen & Hlt & Hperm).
  exists idx. split; [done |]. split; [done |]. split; [done |]. split.
  - unfold RoleManager.startRoleAssignment, generatePlayerRoles in Hret.
    rewrite (roleDistribution_table _ Hn) in Hret.
    repeat (first [ case_match | case_decide ]; simplify_eq/=); done.
  - intros p. rewrite Hperm. apply elem_of_assigned.
Qed.

Lemma findByIndex_unique (ps : list Player) (q : Player) :
  q ∈ ps ->
  (forall q', q' ∈ ps -> index q' = index q -> q' = q) ->
  findByIndex ps (index q) = Some q.
Proof.
  unfold findByIndex. induction ps as [| x ps IH]; intros Hin Huniq.
  - by apply elem_of_nil in Hin.
  - simpl. case_bool_decide as Hx.
    + f_equal. apply Huniq; [by left | done].
    + apply IH.
      * apply elem_of_cons in Hin as [-> | Hin]; [done | done].
      * intros q' Hq'. apply Huniq. by right.
Qed.

Lemma entry_assigned know idx j d :
  name (assigned know idx j d) = pd_name d /\
  color (assigned know idx j d) = pd_color d /\
  colorName (assigned know idx j d) = pd_colorName d /\
  hasReceived (assigned know idx j d) = false.
Proof.
  unfold assigned, partnerWritten, roleWritten.
  destruct know; [| by case_decide].
  destruct idx as [| b0 [| b1 [| b2 idx]]]; by repeat case_decide.
Qed.

Lemma two_indices (idx : list nat) :
  NoDup idx -> length idx = 2 -> exists b0 b1, idx = [b0; b1] /\ b0 <> b1.
Proof.
  intros Hnd Hlen.
  destruct idx as [| b0 idx]; [done |]. destruct idx as [| b1 idx]; [done |].
  destruct idx as [| b2 idx]; [| done].
  exists b0, b1. split; [done |].
  apply NoDup_cons in Hnd as [Hb0 _]. set_solver.
Qed.

(** X13: the "YOUR PARTNER" panel of [showPlayerSecret].  For a player
    of a roster that [startRoleAssignment] returned on draws in [0,1): a
    Good player gets no panel, and nobody gets one unless there are 6 or
    7 players.  With 6 or 7 players a Bad player's panel shows the number
    (index + 1), the name and the colour that the other Bad player
    entered, and there are no Bad players but these two. *)
Theorem partner_panel_names_the_other_bad_player
    (self st : RoleManager.State) (playersData : list PlayerData)
    (rs rs' : list Q) (p : Player) :
  3 <= length playersData <= 8 -> Forall unit_draw rs ->
  RoleManager.startRoleAssignment self playersData rs = Returned st rs' ->
  p ∈ players st ->
  let n := length playersData in
  (role p = Good -> partnerOf (players st) p = None) /\
  (n <> 6 -> n <> 7 -> partnerOf (players st) p = None) /\
  (role p = Bad -> n = 6 \/ n = 7 ->
   exists q d,
     q ∈ players st /\ role q = Bad /\ index q <> index p /\
     partnerOf (players st) p = Some (panel q) /\
     playersData !! index q = Some d /\
     partnerNumber (panel q) = index q + 1 /\
     partnerName (panel q) = pd_name d /\
     partnerColor (panel q) = pd_color d /\
     (forall q', q' ∈ players st -> role q' = Bad -> q' = p \/ q' = q)).
Proof.
  intros Hn Hrs Hret Hp. cbv zeta.
  destruct (assigned_roster _ _ _ _ _ Hn Hrs Hret)
    as (idx & Hnd & Hlen & Hlt & _ & Hmem).
  set (know := tableKnowEachOther (length playersData)) in *.
  destruct (proj1 (Hmem p) Hp) as (j & d & Hd & Ep). subst p.
  split; [| split].
  - intros Hgood. unfold partnerOf. by rewrite Hgood.
  - intros H6 H7. unfold partnerOf. rewrite partnerId_assigned.
    assert (know = false) as ->.
    { unfold know, tableKnowEachOther. apply bool_decide_eq_false_2. lia. }
    by destruct (role _).
  - intros Hbad H67.
    assert (know = true) as Hk.
    { unfold know, tableKnowEachOther. by apply bool_decide_eq_true_2. }
    assert (Hlen2 : length idx = 2).
    { rewrite Hlen. by destruct H67 as [-> | ->]. }
    destruct (two_indices idx Hnd Hlen2) as (b0 & b1 & -> & Hne).
    rewrite role_assigned in Hbad.
    destruct (decide (j ∈ [b0; b1])) as [Hj | Hj]; [| done].
    assert (Hother : exists b, b ∈ [b0; b1] /\ b <> j /\
              partnerId (assigned know [b0; b1] j d) = Some b /\
              forall b', b' ∈ [b0; b1] -> b' = j \/ b' = b).
    { rewrite partnerId_assigned, Hk.
      destruct (decide (j = b1)) as [-> | Hj1].
      - exists b0. split; [set_solver |]. split; [done |]. split; [done |].
        set_solver.
      - assert (j = b0) as -> by set_solver. rewrite decide_True by done.
        exists b1. split; [set_solver |]. split; [done |]. split; [done |].
        set_solver. }
    destruct Hother as (b & Hb & Hbj & Hpid & Honly).
    destruct (lookup_lt_is_Some_2 playersData b (Hlt b Hb)) as [db Hdb].
    set (q := assigned know [b0; b1] b db).
    assert (Hq : q ∈ players st) by (apply Hmem; by exists b, db).
    assert (Hiq : index q = b) by apply index_assigned.
    exists q, db.
    split; [done |].
    split; [by unfold q; rewrite role_assigned, decide_True |].
    split; [by rewrite Hiq, index_assigned |].
    destruct (entry_assigned know [b0; b1] b db) as (Hname & Hcolor & _).
    split; [| split; [by rewrite Hiq | split; [done | split; [done | split; [done |]]]]].
    + unfold partnerOf. rewrite role_assigned, decide_True by done.
      rewrite Hpid, <- Hiq, findByIndex_unique; [done | done |].
      intros q' Hq' Hidx.
      destruct (proj1 (Hmem q') Hq') as (j' & d' & Hd' & ->).
      rewrite Hiq, index_assigned in Hidx. subst j'.
      unfold q. congruence.
    + intros q' Hq' Hbad'.
      destruct (proj1 (Hmem q') Hq') as (j' & d' & Hd' & ->).
      rewrite role_assigned in Hbad'.
      destruct (decide (j' ∈ [b0; b1])) as [Hj' | Hj']; [| done].
      destruct (Honly j' Hj') as [-> | ->].
      * left. congruence.
      * right. unfold q. congruence.
Qed.

(** The theorem on six players for Ada, who is Bad: the panel names the
    other Bad player. *)
Lemma partner_panel_names_the_other_bad_player_witness :
  exists q,
    q ∈ players assignedSix /\ role q = Bad /\ index q <> 0 /\
    partnerOf (players assignedSix) ada = Some (panel q).
Proof.
  assert (Hn : 3 <= length sixColors <= 8) by (simpl; lia).
  assert (Hin : ada ∈ players assignedSix).
  { apply list_elem_of_lookup. exists 3. vm_compute. reflexivity. }
  destruct (partner_panel_names_the_other_bad_player freshManager assignedSix
              sixColors _ _ ada Hn sixDraws_unit assignedSix_returned Hin)
    as (_ & _ & H).
  destruct H as (q & d & Hq & Hbad & Hidx & Hpanel & _);
    [reflexivity | left; reflexivity |].
  exists q. split; [exact Hq |]. split; [exact Hbad |].
  split; [exact Hidx | exact Hpanel].
Defined.

Lemma filter_ext_elem {A} (P Q : A -> Prop) `{!forall x, Decision (P x)}
    `{!forall x, Decision (Q x)} (l : list A) :
  (forall x, x ∈ l -> P x <-> Q x) -> filter P l = filter Q l.
Proof.
  induction l as [| x l IH]; intros Hext; [done |].
  rewrite !filter_cons.
  assert (Hx : P x <-> Q x) by (apply Hext; by left).
  rewrite IH by (intros y Hy; apply Hext; by right).
  destruct (decide (P x)), (decide (Q x)); tauto.
Qed.

Lemma filter_none {A} (P : A -> Prop) `{!forall x, Decision (P x)} (l : list A) :
  (forall x, x ∈ l -> ~ P x) -> filter P l = [].
Proof.
  induction l as [| x l IH]; intros Hno; [done |].
  rewrite filter_cons_False by (apply Hno; by left).
  apply IH. intros y Hy. apply Hno. by right.
Qed.

Lemma find_first {A} (f : A -> bool) (l : list A) (x : A) :
  x ∈ l -> f x = true -> (forall y, y ∈ l -> f y = true -> y = x) ->
  find f l = Some x.
Proof.
  induction l as [| y l IH]; intros Hin Hx Huniq.
  - by apply elem_of_nil in Hin.
  - simpl. destruct (f y) eqn:Hy.
    + f_equal. apply Huniq; [by left | done].
    + apply IH; [| done | intros z Hz; apply Huniq; by right].
      apply elem_of_cons in Hin as [-> | Hin]; [congruence | done].
Qed.

Lemma getVillain_assigned (self st : RoleManager.State)
    (pd : list PlayerData) (rs rs' : list Q) :
  3 <= length pd <= 8 -> Forall unit_draw rs ->
  RoleManager.startRoleAssignment self pd rs = Returned st rs' ->
  exists v, getVillain st = Some v /\ v ∈ players st /\ role v = Bad.
Proof.
  intros Hn Hrs Hret.
  destruct (assigned_roster _ _ _ _ _ Hn Hrs Hret)
    as (idx & Hnd & Hlen & Hlt & Hknow & Hmem).
  set (know := tableKnowEachOther (length pd)) in *.
  unfold getVillain.
  destruct (find _ (players st)) as [v |] eqn:Hfind.
  - apply find_some in Hfind as [Hin Hv].
    exists v. split; [done |]. split; [by apply list_elem_of_In |].
    by apply bool_decide_eq_true in Hv.
  - exfalso.
    assert (Hb : exists b, b ∈ idx).
    { destruct idx as [| b idx]; [| exists b; by left].
      simpl in Hlen. clear -Hn Hlen.
      destruct Hn as [H3 H8]. revert Hlen H3 H8.
      generalize (length pd). intros n Hlen H3 H8.
      do 9 (destruct n as [| n]; [simpl in *; lia |]). lia. }
    destruct Hb as [b Hb].
    destruct (lookup_lt_is_Some_2 pd b (Hlt b Hb)) as [d Hd].
    assert (Hin : assigned know idx b d ∈ players st)
      by (apply Hmem; by exists b, d).
    apply list_elem_of_In in Hin.
    apply (find_none _ _ Hfind) in Hin.
    apply bool_decide_eq_false in Hin. apply Hin.
    by rewrite role_assigned, decide_True.
Qed.

Lemma getPlayerByColor_assigned (self st : RoleManager.State)
    (pd : list PlayerData) (rs rs' : list Q) :
  3 <= length pd <= 8 -> Forall unit_draw rs ->
  RoleManager.startRoleAssignment self pd rs = Returned st rs' ->
  NoDup (map pd_color pd) ->
  forall p, p ∈ players st -> getPlayerByColor (color p) st = Some p.
Proof.
  intros Hn Hrs Hret Hcolors p Hp.
  destruct (assigned_roster _ _ _ _ _ Hn Hrs Hret)
    as (idx & Hnd & Hlen & Hlt & Hknow & Hmem).
  set (know := tableKnowEachOther (length pd)) in *.
  unfold getPlayerByColor.
  apply find_first; [done | by apply bool_decide_eq_true |].
  intros q Hq Hc. apply bool_decide_eq_true in Hc.
  destruct (proj1 (Hmem p) Hp) as (j & d & Hd & ->).
  destruct (proj1 (Hmem q) Hq) as (j' & d' & Hd' & ->).
  destruct (entry_assigned know idx j d) as (_ & Hcj & _).
  destruct (entry_assigned know idx j' d') as (_ & Hcj' & _).
  rewrite Hcj, Hcj' in Hc.
  assert (j' = j) as ->.
  { eapply (NoDup_lookup (map pd_color pd)); [done | |].
    - change (map pd_color ?l) with (pd_color <$> l).
      by rewrite list_lookup_fmap, Hd'.
    - change (map pd_color ?l) with (pd_color <$> l).
      by rewrite list_lookup_fmap, Hd, Hc. }
  congruence.
Qed.

(** X14: the accessors of the role manager after [startRoleAssignment]
    has returned on 3 to 8 entries and draws in [0,1).  [getVillain]
    finds a Bad player of the roster; [doBadPlayersKnowEachOther] is
    true exactly for 6 or 7 players; [getBadPlayerPartners] is then the
    same list as [getBadPlayers] and is empty otherwise;
    [getPlayerByColor] finds every player by its own colour when the
    colours entered are distinct, and finds nobody for a colour that
    was not entered. *)
Theorem accessors_after_assignment (self st : RoleManager.State)
    (playersData : list PlayerData) (rs rs' : list Q) :
  3 <= length playersData <= 8 -> Forall unit_draw rs ->
  RoleManager.startRoleAssignment self playersData rs = Returned st rs' ->
  let know := tableKnowEachOther (length playersData) in
  (exists v, getVillain st = Some v /\ v ∈ players st /\ role v = Bad) /\
  doBadPlayersKnowEachOther st = know /\
  getBadPlayerPartners st = (if know then getBadPlayers st else []) /\
  (NoDup (map pd_color playersData) ->
   forall p, p ∈ players st -> getPlayerByColor (color p) st = Some p) /\
  (forall c, c ∉ map pd_color playersData -> getPlayerByColor c st = None).
Proof.
  intros Hn Hrs Hret. cbv zeta.
  destruct (assigned_roster _ _ _ _ _ Hn Hrs Hret)
    as (idx & Hnd & Hlen & Hlt & Hknow & Hmem).
  set (know := tableKnowEachOther (length playersData)) in *.
  split; [by eapply getVillain_assigned |].
  split; [| split; [| split]].
  - unfold doBadPlayersKnowEachOther. by rewrite Hknow.
  - unfold getBadPlayerPartners, getBadPlayers.
    destruct know eqn:Hk.
    + apply filter_ext_elem. intros p Hp.
      destruct (proj1 (Hmem p) Hp) as (j & d & Hd & ->).
      split; [by intros [? _] |]. intros Hbad. split; [done |].
      rewrite partnerId_assigned.
      assert (Hlen2 : length idx = 2).
      { rewrite Hlen. unfold know, tableKnowEachOther in Hk.
        apply bool_decide_eq_true in Hk. by destruct Hk as [-> | ->]. }
      destruct (two_indices idx Hnd Hlen2) as (b0 & b1 & -> & Hne).
      rewrite role_assigned in Hbad.
      destruct (decide (j ∈ [b0; b1])) as [Hj | Hj]; [| done].
      repeat case_decide; try done. set_solver.
    + apply filter_none. intros p Hp [_ Hpartner].
      destruct (proj1 (Hmem p) Hp) as (j & d & Hd & ->).
      by rewrite partnerId_assigned in Hpartner.
  - by eapply getPlayerByColor_assigned.
  - intros c Hc. unfold getPlayerByColor.
    destruct (find _ (players st)) as [p |] eqn:Hfind; [| done].
    exfalso. apply find_some in Hfind as [Hin Hp].
    apply list_elem_of_In in Hin. apply bool_decide_eq_true in Hp.
    destruct (proj1 (Hmem p) Hin) as (j & d & Hd & ->).
    destruct (entry_assigned know idx j d) as (_ & Hcj & _).
    apply Hc. rewrite <- Hp, Hcj.
    change (map pd_color ?l) with (pd_color <$> l).
    apply list_elem_of_fmap. exists d. split; [done |].
    by eapply list_elem_of_lookup_2.
Qed.

(** The theorem on six players. *)
Lemma accessors_after_assignment_witness :
  (exists v, getVillain assignedSix = Some v /\ role v = Bad) /\
  doBadPlayersKnowEachOther assignedSix = true /\
  getBadPlayerPartners assignedSix = getBadPlayers assignedSix.
Proof.
  assert (Hn : 3 <= length sixColors <= 8) by (simpl; lia).
  destruct (accessors_after_assignment freshManager assignedSix sixColors _ _
              Hn sixDraws_unit assignedSix_returned)
    as ((v & Hv & _ & Hbad) & Hknow & Hpartners & _).
  split; [by exists v |]. split; [exact Hknow | exact Hpartners].
Defined.

End RevealFacts.

(** ** The game manager *)

Module GameManagerFacts.
Import RoleManager Rand RandFacts RoleManagerFacts Scenarios Examples Reveal RevealFacts
  GameManager.

Lemma size_list_to_set_le_length (l : list string) :
  size (list_to_set l : gset string) <= length l.
Proof.
  induction l as [| x l IH]; [done |]. simpl.
  pose proof (size_union_alt {[x]} (list_to_set l : gset string)) as H.
  rewrite size_singleton in H.
  pose proof (subseteq_size (list_to_set l ∖ {[x]}) (list_to_set l : gset string)
                ltac:(set_solver)).
  lia.
Qed.

Lemma distinct_colors (l : list string) :
  size (list_to_set l : gset string) = length l <-> NoDup l.
Proof.
  split; [| apply size_list_to_set].
  induction l as [| x l IH]; intros Hsize; [constructor |].
  simpl in Hsize.
  pose proof (size_list_to_set_le_length l) as Hle.
  destruct (decide (x ∈ l)) as [Hin | Hin].
  - exfalso.
    assert (Heq : {[x]} ∪ list_to_set l = (list_to_set l : gset string)).
    { apply set_eq. set_solver. }
    rewrite Heq in Hsize. lia.
  - constructor; [done |]. apply IH.
    rewrite size_union in Hsize by set_solver.
    rewrite size_singleton in Hsize. lia.
Qed.

Lemma validateGameSetup_true config count data :
  validateGameSetup config count data = true <->
  limit minPlayers 2 config <= count <= limit maxPlayers 8 config /\
  length data = count /\
  (forall p, p ∈ data -> invalidEntry p = false) /\
  NoDup (map pd_color data).
Proof.
  unfold validateGameSetup. cbv zeta.
  rewrite <- distinct_colors.
  assert (Hentries : existsb invalidEntry data = false <->
                     forall p, p ∈ data -> invalidEntry p = false).
  { split.
    - intros E p Hp. apply list_elem_of_In in Hp.
      destruct (invalidEntry p) eqn:Ep; [| done].
      assert (existsb invalidEntry data = true); [| congruence].
      apply existsb_exists. by exists p.
    - intros Hall. destruct (existsb invalidEntry data) eqn:E; [| done].
      apply existsb_exists in E as (p & Hp & Hbad).
      apply list_elem_of_In in Hp. rewrite (Hall p Hp) in Hbad. done. }
  rewrite <- Hentries.
  case_bool_decide as H1; [split; [done | intros (? & _); lia] |].
  case_bool_decide as H2; [split; [done | intros (_ & ? & _); lia] |].
  destruct (existsb invalidEntry data);
    [split; [done | by intros (_ & _ & ? & _)] |].
  case_bool_decide as H3; [split; [done | by intros (_ & _ & _ & ?)] |].
  split; [| done]. intros _.
  split; [lia |]. split; [lia |]. split; [done |].
  by destruct (decide (size (list_to_set (map pd_color data) : gset string)
                       = length (map pd_color data))).
Qed.

(** The role manager that [setupGame] finds or creates. *)
Lemma setupGame_returns (gm : State) count data rs rm0 :
  validateGameSetup (config gm) count data = true ->
  (if isInitialized (gameState gm) then roleManager gm = Some rm0
   else roleManagerLoaded gm = true /\ rm0 = newRoleManager) ->
  setupGame gm count data rs =
    match RoleManager.startRoleAssignment rm0 data rs with
    | Returned rm rs' =>
        Returned
          (mkState (config gm) (roleManagerLoaded gm)
             (mkGameState count (map (fun p => (pd_color p, pd_colorName p)) data)
                (Some data) 1 true true)
             (Some rm) (shownError gm)) rs'
    | Threw msg rm =>
        Threw msg
          (mkState (config gm) (roleManagerLoaded gm)
             (mkGameState count (map (fun p => (pd_color p, pd_colorName p)) data)
                (Some data) 1 true true)
             (Some rm) (Some startFailed))
    | OutOfDraws => OutOfDraws
    end.
Proof.
  intros Hvalid Hrm. unfold setupGame. rewrite Hvalid. simpl.
  destruct (isInitialized (gameState gm)) eqn:Hinit.
  - simpl. rewrite Hrm.
    by destruct (RoleManager.startRoleAssignment rm0 data rs).
  - destruct Hrm as [Hloaded ->]. unfold initializeManagers. simpl.
    rewrite Hloaded. simpl.
    by destruct (RoleManager.startRoleAssignment newRoleManager data rs).
Qed.

(** X15: [setupGame] with the shipped configuration (3 to 8 players),
    when [validateGameSetup] accepts the entries, a role manager is there
    or its class is loaded, and the draws suffice.  The count is then
    between 3 and 8 and the colours are distinct; [setupGame] returns
    with the game started on challenge 1, the entries stored and no error
    put up; [getSecretRoles] is the role manager's roster, one player for
    each entry; [getBadPlayers] has the size of the table, [getVillain]
    finds a Bad player, and every player is found by its colour. *)
Theorem validated_setup_starts_the_game (gm : State) (count : nat)
    (data : list PlayerData) (draws1 draws2 : list Q) (rm0 : RoleManager.State) :
  config gm = Some shipped ->
  validateGameSetup (config gm) count data = true ->
  (if isInitialized (gameState gm) then roleManager gm = Some rm0
   else roleManagerLoaded gm = true /\ rm0 = newRoleManager) ->
  Forall unit_draw (draws1 ++ draws2) ->
  tableBadCount count <= size (list_to_set (drawnIndices count draws1) : gset nat) ->
  count - 1 <= length draws2 ->
  3 <= count <= 8 /\ NoDup (map pd_color data) /\
  exists gm' rs' rm,
    setupGame gm count data (draws1 ++ draws2) = Returned gm' rs' /\
    roleManager gm' = Some rm /\
    gameState gm' =
      mkGameState count (map (fun p => (pd_color p, pd_colorName p)) data)
                  (Some data) 1 true true /\
    shownError gm' = shownError gm /\
    getSecretRoles gm' = players rm /\ length (players rm) = count /\
    length (GameManager.getBadPlayers gm') = tableBadCount count /\
    (exists v, GameManager.getVillain gm' = Some v /\ role v = Bad) /\
    (forall p, p ∈ players rm -> getPlayerByColor (color p) rm = Some p).
Proof.
  intros Hconfig Hvalid Hrm Hdraws Hbad Hshuffle.
  pose proof Hvalid as Hv. rewrite Hconfig in Hv.
  apply validateGameSetup_true in Hv as (Hcount & Hlen & Hentries & Hcolors).
  change (limit minPlayers 2 (Some shipped)) with 3 in Hcount.
  change (limit maxPlayers 8 (Some shipped)) with 8 in Hcount.
  subst count.
  split; [lia |]. split; [done |].
  destruct (startRoleAssignment_returns rm0 data draws1 draws2 Hcount Hdraws
              Hbad Hshuffle) as (rm & rs' & Hret).
  exists (mkState (config gm) (roleManagerLoaded gm)
            (mkGameState (length data)
               (map (fun p => (pd_color p, pd_colorName p)) data) (Some data) 1 true true)
            (Some rm) (shownError gm)), rs', rm.
  split; [by rewrite (setupGame_returns _ _ _ _ rm0), Hret |].
  split; [done |]. split; [done |]. split; [done |]. split; [done |].
  assert (Hunit : Forall unit_draw (draws1 ++ draws2)) by done.
  pose proof (startRoleAssignment_valid rm0 data (draws1 ++ draws2)
                Hcount Hunit) as Hperm.
  rewrite Hret in Hperm. destruct Hperm as (idx' & Hnd' & Hidx' & Hlt' & Hperm).
  split; [by rewrite Hperm, length_imap |].
  split.
  { unfold GameManager.getBadPlayers. simpl. unfold RoleManager.getBadPlayers.
    rewrite Hperm.
    destruct (roster_before_shuffle data (tableKnowEachOther (length data)) idx'
                Hnd' Hlt') as (_ & _ & _ & Hcount').
    unfold isBad in Hcount'. by rewrite Hcount'. }
  split.
  - destruct (getVillain_assigned _ _ _ _ _ Hcount Hunit Hret) as (v & Hv & _ & Hb).
    by exists v.
  - by apply (getPlayerByColor_assigned _ _ _ _ _ Hcount Hunit Hret).
Qed.

(** The theorem on six entries with six colours, on a manager as
    constructed. *)
Lemma validated_setup_starts_the_game_witness :
  exists gm' rs',
    setupGame (constructed (Some shipped) true) 6 sixColors (sixDraws1 ++ sixDraws2)
    = Returned gm' rs' /\
    length (getSecretRoles gm') = 6 /\
    length (GameManager.getBadPlayers gm') = 2.
Proof.
  assert (Hvalid : validateGameSetup (config (constructed (Some shipped) true))
                     6 sixColors = true) by (vm_compute; reflexivity).
  assert (Hbad : tableBadCount 6
                 <= size (list_to_set (drawnIndices 6 sixDraws1) : gset nat))
    by (vm_compute; lia).
  assert (Hshuffle : 6 - 1 <= length sixDraws2) by (simpl; lia).
  destruct (validated_setup_starts_the_game (constructed (Some shipped) true) 6
              sixColors sixDraws1 sixDraws2 newRoleManager eq_refl Hvalid
              (conj eq_refl eq_refl) sixDraws_unit Hbad Hshuffle)
    as (_ & _ & gm' & rs' & rm & Hret & _ & _ & _ & Hroles & Hlen & Hcount & _).
  exists gm', rs'. split; [exact Hret |].
  split; [rewrite Hroles; exact Hlen | exact Hcount].
Defined.

(** X16: how [setupGame] fails.  Entries that [validateGameSetup]
    rejects give "Invalid game setup parameters" and leave the game
    state as it was.  Every exception puts up the "Failed to start"
    message, and every one but that of the validation leaves the game
    marked as started.  With the shipped configuration and draws in
    [0,1) the only exceptions are that of the validation, "RoleManager
    class not loaded" and "Role Manager not available".  Without
    [window.gameConfig] the minimum falls back to 2: two valid entries
    pass the validation, are stored, and role assignment then throws
    its player-count error with the game marked as started and no
    role assigned. *)
Theorem setupGame_failures (gm : State) (count : nat) (data : list PlayerData)
    (rs : list Q) :
  (validateGameSetup (config gm) count data = false ->
   setupGame gm count data rs = Threw invalidSetup (with_error startFailed gm)) /\
  (forall msg gm',
     setupGame gm count data rs = Threw msg gm' ->
     shownError gm' = Some startFailed /\
     (msg <> invalidSetup -> gameStarted (gameState gm') = true)) /\
  (config gm = Some shipped -> Forall unit_draw rs ->
   forall msg gm',
     setupGame gm count data rs = Threw msg gm' ->
     msg = invalidSetup /\ validateGameSetup (config gm) count data = false \/
     msg = classNotLoaded /\ isInitialized (gameState gm) = false /\
       roleManagerLoaded gm = false \/
     msg = notAvailable /\ isInitialized (gameState gm) = true /\
       roleManager gm = None) /\
  (config gm = None -> count = 2 ->
   validateGameSetup (config gm) count data = true ->
   isInitialized (gameState gm) = false -> roleManagerLoaded gm = true ->
   exists gm',
     setupGame gm count data rs = Threw invalidPlayerCount gm' /\
     gameStarted (gameState gm') = true /\
     playerCount (gameState gm') = 2 /\
     getSecretRoles gm' = []).
Proof.
  split; [| split; [| split]].
  - intros Hinvalid. unfold setupGame. by rewrite Hinvalid.
  - intros msg gm'. unfold setupGame, initializeManagers.
    destruct (validateGameSetup (config gm) count data); cbn [negb].
    2:{ by intros [= <- <-]. }
    destruct (isInitialized (gameState gm)), (roleManagerLoaded gm),
      (roleManager gm) as [rm0 |]; cbn -[validateGameSetup];
      try (intros [= <- <-]; by split).
    all: destruct (RoleManager.startRoleAssignment _ data rs);
      try done; intros [= <- <-]; by split.
  - intros Hconfig Hrs msg gm' Hthrow.
    destruct (validateGameSetup (config gm) count data) eqn:Hvalid.
    2:{ left. unfold setupGame in Hthrow. rewrite Hvalid in Hthrow.
        simpl in Hthrow. by simplify_eq. }
    right.
    pose proof Hvalid as Hv. rewrite Hconfig in Hv.
    apply validateGameSetup_true in Hv as (Hcount & Hlen & _).
    change (limit minPlayers 2 (Some shipped)) with 3 in Hcount.
    change (limit maxPlayers 8 (Some shipped)) with 8 in Hcount.
    subst count.
    unfold setupGame in Hthrow. rewrite Hvalid in Hthrow. simpl in Hthrow.
    destruct (isInitialized (gameState gm)) eqn:Hinit.
    + simpl in Hthrow. destruct (roleManager gm) as [rm0 |] eqn:Hrm.
      * pose proof (startRoleAssignment_valid rm0 data rs Hcount Hrs) as H.
        by destruct (RoleManager.startRoleAssignment rm0 data rs).
      * right. by simplify_eq.
    + unfold initializeManagers in Hthrow. simpl in Hthrow.
      destruct (roleManagerLoaded gm) eqn:Hloaded.
      * simpl in Hthrow.
        pose proof (startRoleAssignment_valid newRoleManager data rs Hcount Hrs) as H.
        by destruct (RoleManager.startRoleAssignment newRoleManager data rs).
      * left. by simplify_eq.
  - intros Hconfig -> Hvalid Hinit Hloaded.
    pose proof Hvalid as Hv.
    apply validateGameSetup_true in Hv as (_ & Hlen & _).
    rewrite (setupGame_returns gm 2 data rs newRoleManager Hvalid)
      by (by rewrite Hinit).
    unfold RoleManager.startRoleAssignment, generatePlayerRoles.
    rewrite Hlen. simpl. by eexists.
Qed.

(** The last part of the theorem on two entries. *)
Lemma setupGame_failures_witness :
  exists gm',
    setupGame (constructed None true) 2 twoColors []
    = Threw invalidPlayerCount gm' /\
    gameStarted (gameState gm') = true.
Proof.
  assert (Hvalid : validateGameSetup (config (constructed None true)) 2 twoColors
                   = true) by (vm_compute; reflexivity).
  destruct (setupGame_failures (constructed None true) 2 twoColors [])
    as (_ & _ & _ & H).
  destruct (H eq_refl eq_refl Hvalid eq_refl eq_refl) as (gm' & H1 & H2 & _).
  exists gm'. split; [exact H1 | exact H2].
Defined.

End GameManagerFacts.

(** ** One roster for the three phases *)

Module SessionFacts.
Import RoleManager Rand RandFacts RoleManagerFacts Scenarios Examples Reveal RevealFacts
  Session.

Lemma received_count (ps : list Player) :
  length (filter (fun p => role p = Bad) (map set_hasReceived ps))
  = length (filter (fun p => role p = Bad) ps).
Proof.
  induction ps as [| p ps IH]; [done |].
  cbn [map]. destruct (decide (role p = Bad)) as [Hb | Hb].
  - rewrite (filter_cons_True _ (set_hasReceived p)) by done.
    rewrite (filter_cons_True _ p) by done. simpl. by rewrite IH.
  - rewrite (filter_cons_False _ (set_hasReceived p)) by done.
    by rewrite (filter_cons_False _ p) by done.
Qed.

Lemma assigned_count (self m0 : RoleManager.State) (pd : list PlayerData)
    (rs rs' : list Q) :
  3 <= length pd <= 8 -> Forall unit_draw rs ->
  RoleManager.startRoleAssignment self pd rs = Returned m0 rs' ->
  length (players m0) = length pd /\
  length (filter (fun p => role p = Bad) (players m0)) = tableBadCount (length pd).
Proof.
  intros Hn Hrs Hret.
  pose proof (startRoleAssignment_valid self pd rs Hn Hrs) as H.
  rewrite Hret in H. destruct H as (idx & Hnd & Hlen & Hlt & Hperm).
  split; [by rewrite Hperm, length_imap |].
  rewrite Hperm.
  destruct (roster_before_shuffle pd (tableKnowEachOther (length pd)) idx Hnd Hlt)
    as (_ & _ & _ & Hcount).
  unfold isBad in Hcount. by rewrite Hcount.
Qed.

Lemma vote_init_returns (ps : list Player) (rs : list Q) :
  length ps - 1 <= length rs ->
  exists v,
    FirstImpressions.init ps rs = Returned v (drop (length ps - 1) rs) /\
    FirstImpressions.players v ≡ₚ ps.
Proof.
  intros Hrs. unfold FirstImpressions.init.
  destruct (ShuffleFacts.shuffleArray_draws ps rs Hrs) as [b Hb].
  rewrite Hb. eexists. split; [reflexivity |].
  apply ShuffleFacts.shuffleArray_Permutation in Hb.
  unfold FirstImpressions.callNextPlayer. by case_decide.
Qed.

Lemma vote_with_players_id (v : FirstImpressions.State) :
  vote_with_players (FirstImpressions.players v) v = v.
Proof. by destruct v. Qed.

Lemma duel_with_players_id (d : Duel.State) :
  duel_with_players (Duel.players d) d = d.
Proof. by destruct d. Qed.

(** X17: the roster from role assignment to the duel.  Let
    [startRoleAssignment] return on 3 to 8 entries, and let every player
    have seen the secret.  The suspicion vote then starts on the role
    manager's own array, which it shuffles: afterwards the role manager
    and the vote hold the same rearranged roster, with as many Bad
    players as the table gives.  Whatever the vote does next, the duel
    started after it takes that roster in that order, puts every player
    on the team of its role, so that team Bad has the size of the table,
    takes the thresholds of the player count, and role manager, vote and
    duel hold the same players. *)
Theorem the_phases_share_one_roster (self m0 m : RoleManager.State)
    (playersData : list PlayerData) (rs0 rs0' rs1 rs2 : list Q) :
  3 <= length playersData <= 8 -> Forall unit_draw rs0 ->
  RoleManager.startRoleAssignment self playersData rs0 = Returned m0 rs0' ->
  players m = map set_hasReceived (players m0) ->
  let n := length playersData in
  n - 1 <= length rs1 -> n - 1 <= length rs2 ->
  exists s1 v,
    startFirstImpressionsChallenge (mkState m None None) rs1
      = Returned s1 (drop (n - 1) rs1) /\
    suspicionVote s1 = Some v /\
    players (roleManager s1) = FirstImpressions.players v /\
    players (roleManager s1) ≡ₚ players m /\
    length (getBadPlayers (roleManager s1)) = tableBadCount n /\
    forall es,
      exists s2 d,
        startFirstChallenge (voteRun s1 es) rs2 = Returned s2 (drop (n - 1) rs2) /\
        deceptionDuel s2 = Some d /\
        players (roleManager s2) = Duel.players d /\
        FirstImpressions.players <$> suspicionVote s2 = Some (Duel.players d) /\
        Duel.players d = map Duel.convertRole (FirstImpressions.players v) /\
        length (filter (fun p => team p = Some TeamBad) (Duel.players d))
          = tableBadCount n /\
        Duel.thresholds n = Some (Duel.winThresholds d).
Proof.
  intros Hn Hrs0 Hret Hm. cbv zeta. intros Hrs1 Hrs2.
  destruct (assigned_count _ _ _ _ _ Hn Hrs0 Hret) as [Hlen0 Hbad0].
  assert (Hlen : length (players m) = length playersData).
  { by rewrite Hm, length_map. }
  assert (Hbad : length (filter (fun p => role p = Bad) (players m))
                 = tableBadCount (length playersData)).
  { by rewrite Hm, received_count. }
  destruct (vote_init_returns (players m) rs1) as (v & Hv & Hperm).
  { by rewrite Hlen. }
  rewrite Hlen in Hv.
  unfold startFirstImpressionsChallenge. simpl. rewrite Hv.
  unfold with_roster. simpl. rewrite vote_with_players_id.
  eexists _, v. split; [reflexivity |]. simpl.
  split; [done |]. split; [done |]. split; [done |].
  split.
  { unfold getBadPlayers. simpl. by rewrite Hperm. }
  intros es. unfold startFirstChallenge, voteRun. simpl.
  assert (Hlv : length (FirstImpressions.players v) = length playersData).
  { by rewrite Hperm. }
  destruct (DuelTurnsFacts.init_returns (FirstImpressions.players v) rs2)
    as (d & Hd & Hps & _ & Hth & _).
  { by rewrite Hlv. }
  { by rewrite Hlv. }
  rewrite Hlv in Hd, Hth.
  rewrite Hd.
  unfold with_roster. simpl. rewrite duel_with_players_id.
  eexists _, d. split; [reflexivity |]. simpl.
  split; [done |]. split; [done |]. split; [done |]. split; [done |].
  split; [| done].
  rewrite Hps, DuelTurnsFacts.convertRole_count. by rewrite Hperm.
Qed.

(** The theorem on six players: two of them are Bad after the vote has
    shuffled the roster. *)
Lemma the_phases_share_one_roster_witness :
  exists s1 v,
    startFirstImpressionsChallenge (mkState revealedSix None None) (zeros 5)
    = Returned s1 [] /\
    suspicionVote s1 = Some v /\
    length (getBadPlayers (roleManager s1)) = 2.
Proof.
  assert (Hn : 3 <= length sixColors <= 8) by (simpl; lia).
  assert (Hdraws : length sixColors - 1 <= length (zeros 5)) by (simpl; lia).
  destruct (the_phases_share_one_roster freshManager assignedSix revealedSix
              sixColors _ _ (zeros 5) (zeros 5) Hn sixDraws_unit
              assignedSix_returned eq_refl Hdraws Hdraws)
    as (s1 & v & Hret & Hvote & _ & _ & Hbad & _).
  exists s1, v. split; [exact Hret |]. split; [exact Hvote | exact Hbad].
Defined.

End SessionFacts.

(** ** [trim] is idempotent *)

Module TrimFacts.
Import GameManager Init.Byte.

Lemma trimStart_unfold (bs : list byte) :
  trimStart bs
  = match leadingSpace bs with 0 => bs | k => trimStart (drop k bs) end.
Proof.
  destruct bs as [| b1 bs]; [reflexivity |].
  destruct b1; try reflexivity;
    (destruct bs as [| b2 bs]; [reflexivity |];
     destruct b2; try reflexivity;
     (destruct bs as [| b3 bs]; [reflexivity |]; destruct b3; reflexivity)).
Qed.

Lemma trimEndReversed_unfold (bs : list byte) :
  trimEndReversed bs
  = match trailingSpace bs with 0 => bs | k => trimEndReversed (drop k bs) end.
Proof.
  destruct bs as [| b1 bs]; [reflexivity |].
  destruct b1; try reflexivity;
    (destruct bs as [| b2 bs]; [reflexivity |];
     destruct b2; try reflexivity;
     (destruct bs as [| b3 bs]; [reflexivity |]; destruct b3; reflexivity)).
Qed.

Lemma leadingSpace_app (u v : list byte) :
  leadingSpace u <> 0 -> leadingSpace (u ++ v) = leadingSpace u.
Proof.
  intros H.
  destruct u as [| b1 u]; [done |].
  destruct b1; try reflexivity; try (exfalso; apply H; reflexivity);
    (destruct u as [| b2 u]; [exfalso; apply H; reflexivity |];
     destruct b2; try reflexivity; try (exfalso; apply H; reflexivity);
     (destruct u as [| b3 u]; [exfalso; apply H; reflexivity |];
      destruct b3; try reflexivity; exfalso; apply H; reflexivity)).
Qed.

(** What is left has no white space at its head. *)
Lemma trimStart_done (bs : list byte) : leadingSpace (trimStart bs) = 0.
Proof.
  remember (length bs) as n eqn:Hn. revert bs Hn.
  induction n as [n IH] using lt_wf_ind. intros bs ->.
  rewrite trimStart_unfold.
  destruct (leadingSpace bs) as [| k] eqn:Hk; [done |].
  destruct bs as [| b bs]; [done |].
  apply (IH (length (drop (S k) (b :: bs)))); [| done].
  rewrite length_drop. simpl. lia.
Qed.

Lemma trimEndReversed_done (bs : list byte) :
  trailingSpace (trimEndReversed bs) = 0.
Proof.
  remember (length bs) as n eqn:Hn. revert bs Hn.
  induction n as [n IH] using lt_wf_ind. intros bs ->.
  rewrite trimEndReversed_unfold.
  destruct (trailingSpace bs) as [| k] eqn:Hk; [done |].
  destruct bs as [| b bs]; [done |].
  apply (IH (length (drop (S k) (b :: bs)))); [| done].
  rewrite length_drop. simpl. lia.
Qed.

Lemma trimStart_id (bs : list byte) : leadingSpace bs = 0 -> trimStart bs = bs.
Proof. intros H. by rewrite trimStart_unfold, H. Qed.

Lemma trimEndReversed_id (bs : list byte) :
  trailingSpace bs = 0 -> trimEndReversed bs = bs.
Proof. intros H. by rewrite trimEndReversed_unfold, H. Qed.

(** The loop only drops bytes from the head. *)
Lemma trimEndReversed_drop (bs : list byte) :
  exists k, trimEndReversed bs = drop k bs.
Proof.
  remember (length bs) as n eqn:Hn. revert bs Hn.
  induction n as [n IH] using lt_wf_ind. intros bs ->.
  rewrite trimEndReversed_unfold.
  destruct (trailingSpace bs) as [| k] eqn:Hk; [by exists 0 |].
  destruct bs as [| b bs]; [done |].
  destruct (IH (length (drop (S k) (b :: bs)))) with (bs := drop (S k) (b :: bs))
    as [k' Hk']; [rewrite length_drop; simpl; lia | done |].
  exists (S k + k'). by rewrite Hk', drop_drop.
Qed.

Lemma bytes_of_trim (s : string) :
  String.list_byte_of_string (trim s)
  = rev (trimEndReversed (rev (trimStart (String.list_byte_of_string s)))).
Proof. unfold trim. apply String.list_byte_of_string_of_list_byte. Qed.

(** [trim] is idempotent. *)
Lemma trim_trim (s : string) : trim (trim s) = trim s.
Proof.
  unfold trim at 1. rewrite bytes_of_trim.
  set (t := trimStart (String.list_byte_of_string s)).
  assert (Hstart : trimStart (rev (trimEndReversed (rev t)))
                   = rev (trimEndReversed (rev t))).
  { apply trimStart_id.
    destruct (trimEndReversed_drop (rev t)) as [k Hk]. rewrite Hk.
    destruct (decide (leadingSpace (rev (drop k (rev t))) = 0)) as [| Hne];
      [done |].
    exfalso.
    assert (Ht : t = rev (drop k (rev t)) ++ rev (take k (rev t))).
    { rewrite <- rev_app_distr, take_drop. by rewrite rev_involutive. }
    pose proof (leadingSpace_app _ (rev (take k (rev t))) Hne) as Happ.
    rewrite <- Ht in Happ. unfold t in Happ at 1.
    rewrite trimStart_done in Happ. congruence. }
  rewrite Hstart, rev_involutive.
  rewrite (trimEndReversed_id (trimEndReversed (rev t)))
    by apply trimEndReversed_done.
  done.
Qed.

End TrimFacts.

(** ** The colour selection page *)

Module ColorSelectionFacts.
Import RoleManager ColorSelection.

Section Sparse.
Context {A : Type}.

Lemma at_index_assign (i : nat) (x : A) (a : list (option A)) (j : nat) :
  at_index (assign i x a) j = if decide (j = i) then Some x else at_index a j.
Proof.
  unfold at_index, assign. case_decide as Hlt.
  - destruct (decide (j = i)) as [-> | Hne].
    + by rewrite list_lookup_insert_eq.
    + by rewrite list_lookup_insert_ne.
  - destruct (decide (j = i)) as [-> | Hne].
    + rewrite lookup_app_r by lia. rewrite lookup_app_r; rewrite length_replicate.
      * by rewrite Nat.sub_diag.
      * lia.
    + destruct (decide (j < length a)) as [Hj | Hj].
      * by rewrite lookup_app_l.
      * rewrite (lookup_ge_None_2 a j) by lia.
        rewrite lookup_app_r by lia.
        destruct (decide (j < i)) as [Hji | Hji].
        -- rewrite lookup_app_l by (rewrite length_replicate; lia).
           rewrite lookup_replicate_2 by lia. done.
        -- rewrite lookup_ge_None_2; [done |].
           rewrite length_app, length_replicate. simpl. lia.
Qed.

Lemma length_assign (i : nat) (x : A) (a : list (option A)) :
  length (assign i x a) = length a `max` S i.
Proof.
  unfold assign. case_decide.
  - rewrite length_insert. lia.
  - rewrite !length_app, length_replicate. simpl. lia.
Qed.

Lemma last_insert_Some (a : list (option A)) (i : nat) (x : A) :
  (exists c, last a = Some (Some c)) -> i < length a ->
  exists c, last (<[i := Some x]> a) = Some (Some c).
Proof.
  intros [c Hc] Hi. rewrite last_lookup in *. rewrite length_insert.
  destruct (decide (pred (length a) = i)) as [<- | Hne].
  - exists x. by rewrite list_lookup_insert_eq by lia.
  - exists c. by rewrite list_lookup_insert_ne.
Qed.

Lemma last_assign (i : nat) (x : A) (a : list (option A)) :
  a = [] \/ (exists c, last a = Some (Some c)) ->
  exists c, last (assign i x a) = Some (Some c).
Proof.
  intros Ha. unfold assign. case_decide as Hlt.
  - destruct Ha as [-> | Ha]; [simpl in Hlt; lia |].
    by apply last_insert_Some.
  - exists x. by rewrite app_assoc, last_snoc.
Qed.

Lemma some_from_spec (f : A -> nat -> bool) (a : list (option A)) :
  forall k,
    some_from f k a = true <->
    exists idx c, at_index a idx = Some c /\ f c (k + idx) = true.
Proof.
  unfold at_index.
  induction a as [| [x |] a IH]; intros k; simpl.
  - split; [done | by intros (idx & c & H & _)].
  - rewrite orb_true_iff, IH. split.
    + intros [H | (idx & c & Hc & H)].
      * exists 0, x. by rewrite Nat.add_0_r.
      * exists (S idx), c. split; [done |]. by rewrite Nat.add_succ_r.
    + intros ([| idx] & c & Hc & H); simpl in Hc.
      * left. simplify_eq. by rewrite Nat.add_0_r in H.
      * right. exists idx, c. split; [done |]. by rewrite Nat.add_succ_r in H.
  - rewrite IH. split.
    + intros (idx & c & Hc & H). exists (S idx), c.
      split; [done |]. by rewrite Nat.add_succ_r.
    + intros ([| idx] & c & Hc & H); simpl in Hc; [done |].
      exists idx, c. split; [done |]. by rewrite Nat.add_succ_r in H.
Qed.

Lemma some_spec (f : A -> nat -> bool) (a : list (option A)) :
  some f a = true <-> exists idx c, at_index a idx = Some c /\ f c idx = true.
Proof. apply (some_from_spec f a 0). Qed.

Lemma every_from_spec (f : A -> nat -> bool) (a : list (option A)) :
  forall k,
    every_from f k a = true <->
    forall idx c, at_index a idx = Some c -> f c (k + idx) = true.
Proof.
  unfold at_index.
  induction a as [| [x |] a IH]; intros k; simpl.
  - split; [by intros _ idx c H | done].
  - rewrite andb_true_iff, IH. split.
    + intros [H0 H] [| idx] c Hc; simpl in Hc.
      * simplify_eq. by rewrite Nat.add_0_r.
      * rewrite Nat.add_succ_r. by apply H.
    + intros H. split.
      * specialize (H 0 x eq_refl). by rewrite Nat.add_0_r in H.
      * intros idx c Hc. specialize (H (S idx) c Hc).
        by rewrite Nat.add_succ_r in H.
  - rewrite IH. split.
    + intros H [| idx] c Hc; simpl in Hc; [done |].
      rewrite Nat.add_succ_r. by apply H.
    + intros H idx c Hc. specialize (H (S idx) c Hc).
      by rewrite Nat.add_succ_r in H.
Qed.

Lemma every_spec (f : A -> nat -> bool) (a : list (option A)) :
  every f a = true <-> forall idx c, at_index a idx = Some c -> f c idx = true.
Proof. apply (every_from_spec f a 0). Qed.

Lemma at_index_take (a : list (option A)) (n i : nat) (c : A) :
  at_index (take n a) i = Some c -> at_index a i = Some c.
Proof.
  unfold at_index. intros H.
  destruct (take n a !! i) as [o |] eqn:E; [| done].
  apply lookup_take_Some in E as [-> _]. done.
Qed.

Lemma at_index_lt (a : list (option A)) (i : nat) (c : A) :
  at_index a i = Some c -> i < length a.
Proof.
  unfold at_index. intros H. apply lookup_lt_is_Some.
  destruct (a !! i); [by eexists | done].
Qed.

End Sparse.

Lemma color_not_empty (c : Choice) : c ∈ colors -> c_color c <> "".
Proof.
  unfold colors. intros H.
  repeat (apply elem_of_cons in H as [-> | H]; [done |]).
  by apply elem_of_nil in H.
Qed.

Lemma colors_eta (c : Choice) : mkChoice (c_color c) (c_name c) = c.
Proof. by destruct c. Qed.

(** Under the invariant the test of [checkColorSelectionComplete] only
    looks at the length of the array. *)
Lemma allSelected_length (s : State) :
  (forall i c, at_index (selectedColors s) i = Some c -> c ∈ colors) ->
  allSelected s = bool_decide (playerCount s <= length (selectedColors s)).
Proof.
  intros Hpal. unfold allSelected.
  assert (Hevery : every (fun c (_ : nat) => bool_decide (c_color c <> ""))
                     (take (playerCount s) (selectedColors s)) = true).
  { apply every_spec. intros idx c Hc. apply at_index_take in Hc.
    apply bool_decide_eq_true, color_not_empty. by eapply Hpal. }
  rewrite Hevery. apply andb_true_r.
Qed.

Lemma checkColorSelectionComplete_fields (s : State) :
  let s' := checkColorSelectionComplete s in
  playerCount s' = playerCount s /\ selectedColors s' = selectedColors s /\
  playerNames s' = playerNames s /\ handedOver s' = handedOver s /\
  typeErrors s' = typeErrors s.
Proof. unfold checkColorSelectionComplete. by case_match. Qed.

Lemma init_pageInv (n : nat) (disabled : bool) :
  pageInv n (setupColorSelection n disabled).
Proof.
  unfold pageInv, setupColorSelection. simpl.
  split; [done |]. split; [lia |]. split; [by intros [| i] c |].
  split; [by intros [| i] j ci cj |]. split; [by left |].
  split; [by rewrite length_map, length_seq |].
  split.
  - intros i name Hname. left.
    change (map defaultName ?l) with (defaultName <$> l) in Hname.
    rewrite list_lookup_fmap in Hname.
    destruct (seq 0 n !! i) as [k |] eqn:Ek; [| done].
    apply lookup_seq in Ek as [-> _]. by simplify_eq/=.
  - intros data Hin. by apply elem_of_nil in Hin.
Qed.

(** The entries that the confirm handler builds. *)
Lemma entries_built (n : nat) (s : State) (data : list PlayerData) :
  pageInv n s ->
  mapM (entryFor s) (seq 0 n) = Some data ->
  length data = n /\
  NoDup (map pd_color data) /\
  forall i d, data !! i = Some d ->
    (exists c, at_index (selectedColors s) i = Some c /\ c ∈ colors /\
               pd_color d = c_color c /\ pd_colorName d = c_name c) /\
    (pd_name d = defaultName i \/
     pd_name d <> "" /\ exists value, pd_name d = GameManager.trim value).
Proof.
  intros (Hn & Hlen & Hpal & Hdist & Hlast & Hnames & Hname & Hover) Hdata.
  apply mapM_Some in Hdata.
  assert (Hl : length data = n).
  { apply Forall2_length in Hdata. by rewrite length_seq in Hdata. }
  assert (Hentry : forall i d, data !! i = Some d -> entryFor s i = Some d).
  { intros i d Hd.
    destruct (Forall2_lookup_r _ _ _ _ _ Hdata Hd) as (k & Hk & Hf).
    apply lookup_seq in Hk as [-> _]. done. }
  assert (Hfields : forall i d, data !! i = Some d ->
            exists c, at_index (selectedColors s) i = Some c /\
                      pd_color d = c_color c /\ pd_colorName d = c_name c).
  { intros i d Hd. apply Hentry in Hd. unfold entryFor in Hd.
    destruct (at_index (selectedColors s) i) as [c |]; [| done].
    simpl in Hd. injection Hd as <-. by exists c. }
  split; [done |]. split.
  - apply NoDup_alt. intros i j col Hi Hj.
    change (map pd_color ?l) with (pd_color <$> l) in *.
    rewrite list_lookup_fmap in Hi, Hj.
    destruct (data !! i) as [di |] eqn:Edi; [| done].
    destruct (data !! j) as [dj |] eqn:Edj; [| done].
    destruct (Hfields i di Edi) as (ci & Hci & Hcol_i & _).
    destruct (Hfields j dj Edj) as (cj & Hcj & Hcol_j & _).
    simplify_eq/=. eapply Hdist; eauto. congruence.
  - intros i d Hd.
    destruct (Hfields i d Hd) as (c & Hc & Hcol & Hcn).
    split; [exists c; split; [done |]; split; [by eapply Hpal | done] |].
    apply Hentry in Hd. unfold entryFor in Hd. rewrite Hc in Hd. simpl in Hd.
    injection Hd as <-. simpl.
    destruct (playerNames s !! i) as [name |] eqn:En; [| by left].
    case_decide as Hempty; [by left |].
    destruct (Hname i name En) as [-> | [_ Hv]]; [by left | by right].
Qed.

Lemma step_pageInv (n : nat) (s : State) (e : Event) :
  pageInv n s -> pageInv n (step s e).
Proof.
  intros H.
  pose proof H as (Hn & Hlen & Hpal & Hdist & Hlast & Hnames & Hname & Hover).
  destruct e as [playerIdx colorIdx | playerIdx value |]; unfold step.
  - (* a colour *)
    destruct (colors !! colorIdx) as [c |] eqn:Ec; [| done].
    case_decide as Hp; [| done]. unfold colorClick.
    destruct (some _ (selectedColors s)) eqn:Hsome; [done |].
    destruct (checkColorSelectionComplete_fields
                (mkState (playerCount s)
                   (assign playerIdx (mkChoice (c_color c) (c_name c))
                      (selectedColors s))
                   (playerNames s) (confirmDisplay s) (confirmDisabled s)
                   (handedOver s) (typeErrors s)))
      as (E1 & E2 & E3 & E4 & E5).
    unfold pageInv. rewrite E1, E2, E3, E4. simpl. rewrite colors_eta.
    split; [done |].
    split; [rewrite length_assign; lia |].
    split.
    { intros i ci. rewrite at_index_assign. case_decide.
      - intros [= <-]. by eapply list_elem_of_lookup_2.
      - apply Hpal. }
    split.
    { assert (Hfree : forall j cj, at_index (selectedColors s) j = Some cj ->
                        c_color cj = c_color c -> j = playerIdx).
      { intros j cj Hj Hcol.
        destruct (decide (j = playerIdx)) as [| Hne]; [done |].
        assert (some (fun sc idx => bool_decide (c_color sc = c_color c
                                                 /\ idx <> playerIdx))
                  (selectedColors s) = true); [| congruence].
        apply some_spec. exists j, cj. split; [done |].
        by apply bool_decide_eq_true. }
      intros i j ci cj. rewrite !at_index_assign.
      destruct (decide (i = playerIdx)) as [-> | Hi],
               (decide (j = playerIdx)) as [-> | Hj]; try done.
      - intros [= <-] Hcj Hcol. symmetry. by eapply Hfree.
      - intros Hci [= <-] Hcol. by eapply Hfree.
      - apply Hdist. }
    split; [right; apply last_assign; tauto |].
    done.
  - (* a name *)
    case_decide as Hp; [| done]. unfold nameInput. cbv zeta.
    match goal with |- pageInv n (checkColorSelectionComplete ?t) =>
      destruct (checkColorSelectionComplete_fields t) as (E1 & E2 & E3 & E4 & E5)
    end.
    unfold pageInv. rewrite E1, E2, E3, E4. simpl.
    split; [done |]. split; [done |]. split; [done |]. split; [done |].
    split; [done |]. split; [by rewrite length_insert |].
    split; [| done].
    intros i name.
    destruct (decide (i = playerIdx)) as [-> | Hne].
    + rewrite list_lookup_insert_eq by lia. intros [= <-].
      case_decide; [by left |]. right. split; [done |]. by eexists.
    + rewrite list_lookup_insert_ne by done. apply Hname.
  - (* Confirm *)
    unfold confirmHandler. destruct (confirmDisabled s); [done |].
    destruct (mapM (entryFor s) (seq 0 (playerCount s))) as [data |] eqn:Hdata.
    + unfold pageInv. simpl.
      split; [done |]. split; [done |]. split; [done |]. split; [done |].
      split; [done |]. split; [done |]. split; [done |].
      intros data' Hin. apply elem_of_app in Hin as [Hin | Hin]; [by apply Hover |].
      apply list_elem_of_singleton in Hin as ->.
      rewrite Hn in Hdata.
      destruct (entries_built n s data H Hdata) as (Hl & Hnd & Hfields).
      split; [done |]. split; [done |].
      intros i d Hd. destruct (Hfields i d Hd) as [(c & _ & Hc) Hnm].
      split; [by exists c | done].
    + unfold pageInv. simpl. done.
Qed.

Lemma run_pageInv (n : nat) (s : State) (es : list Event) :
  pageInv n s -> pageInv n (run s es).
Proof.
  revert s. induction es as [| e es IH]; intros s H; [done |].
  simpl. by apply IH, step_pageInv.
Qed.

(** The array is as long as there are players exactly when the last
    player has a colour. *)
Lemma full_length (n : nat) (s : State) :
  pageInv n s ->
  (n <= length (selectedColors s) <->
   n = 0 \/ at_index (selectedColors s) (n - 1) <> None).
Proof.
  intros (Hn & Hlen & Hpal & Hdist & Hlast & _). split.
  - intros Hle. destruct n as [| n]; [by left |]. right.
    destruct Hlast as [Hnil | [c Hc]]; [rewrite Hnil in Hle; simpl in Hle; lia |].
    rewrite last_lookup in Hc. unfold at_index.
    replace (S n - 1) with (pred (length (selectedColors s))) by lia.
    by rewrite Hc.
  - intros [-> | Hc]; [lia |].
    destruct (at_index (selectedColors s) (n - 1)) as [c |] eqn:E; [| done].
    apply at_index_lt in E. lia.
Qed.

(** X18: on the colour selection page no colour is ever held by two
    players, whatever is clicked: every colour held is one of the
    palette, held by a player of the game.  A click of a player on a
    colour that another player holds changes nothing; a click on a free
    colour gives the player that colour (in place of the one held
    before); no click changes what another player holds. *)
Theorem a_colour_has_one_player (n : nat) (disabled : bool) (es : list Event) :
  let s := run (setupColorSelection n disabled) es in
  (forall i c, at_index (selectedColors s) i = Some c -> i < n /\ c ∈ colors) /\
  (forall i j ci cj,
     at_index (selectedColors s) i = Some ci ->
     at_index (selectedColors s) j = Some cj ->
     c_color ci = c_color cj -> i = j) /\
  (forall playerIdx colorIdx c,
     playerIdx < n -> colors !! colorIdx = Some c ->
     let s' := step s (ClickColor playerIdx colorIdx) in
     (forall j, j <> playerIdx ->
                at_index (selectedColors s') j = at_index (selectedColors s) j) /\
     ((exists j cj, j <> playerIdx /\ at_index (selectedColors s) j = Some cj /\
                    c_color cj = c_color c) ->
      s' = s) /\
     ((forall j cj, j <> playerIdx -> at_index (selectedColors s) j = Some cj ->
                    c_color cj <> c_color c) ->
      at_index (selectedColors s') playerIdx = Some c)).
Proof.
  cbv zeta.
  pose proof (run_pageInv n _ es (init_pageInv n disabled)) as H.
  set (s := run _ es) in *.
  pose proof H as (Hn & Hlen & Hpal & Hdist & Hlast & _).
  split; [| split; [done |]].
  - intros i c Hc. split; [| by eapply Hpal].
    apply at_index_lt in Hc. lia.
  - intros playerIdx colorIdx c Hp Hcol.
    unfold step. rewrite Hcol, Hn. rewrite decide_True by done.
    unfold colorClick.
    destruct (some _ (selectedColors s)) eqn:Hsome.
    + split; [done |]. split; [done |].
      intros Hfree. apply some_spec in Hsome as (j & cj & Hj & Hb).
      apply bool_decide_eq_true in Hb as [Hb Hne]. by destruct (Hfree j cj).
    + match goal with |- context [checkColorSelectionComplete ?t] =>
        destruct (checkColorSelectionComplete_fields t) as (_ & -> & _)
      end. simpl. rewrite colors_eta.
      split; [| split].
      * intros j Hj. rewrite at_index_assign. by rewrite decide_False.
      * intros (j & cj & Hne & Hj & Hc). exfalso.
        assert (some (fun sc idx => bool_decide (c_color sc = c_color c
                                                 /\ idx <> playerIdx))
                  (selectedColors s) = true); [| congruence].
        apply some_spec. exists j, cj. split; [done |].
        by apply bool_decide_eq_true.
      * intros _. rewrite at_index_assign. by rewrite decide_True.
Qed.

(** X19: when "Confirm" appears and what it does.  After every name
    input and every click on a colour that no other player holds, the
    button is shown and enabled exactly when the last player holds a
    colour (or there is no player), and is hidden otherwise: the test
    skips the players before the last one that have not chosen yet,
    since they are holes of the array.  A
    click on the enabled button disables it; if every player holds a
    colour it hands over one entry for each player, with the colour and
    colour name held, and if some player holds none it ends in a
    [TypeError] and hands over nothing. *)
Theorem confirm_waits_for_the_last_player_only (n : nat) (disabled : bool)
    (es : list Event) :
  let s := run (setupColorSelection n disabled) es in
  (forall e,
     checksCompletion s e ->
     let s' := step s e in
     if decide (n = 0 \/ at_index (selectedColors s') (n - 1) <> None)
     then confirmDisplay s' = Some "block" /\ confirmDisabled s' = false
     else confirmDisplay s' = Some "none") /\
  (let s' := step s ClickConfirm in
   if confirmDisabled s then s' = s
   else
     confirmDisabled s' = true /\ selectedColors s' = selectedColors s /\
     ((forall i, i < n -> at_index (selectedColors s) i <> None) ->
      typeErrors s' = typeErrors s /\
      exists data,
        handedOver s' = handedOver s ++ [data] /\ length data = n /\
        forall i d, data !! i = Some d ->
          exists c, at_index (selectedColors s) i = Some c /\
                    pd_color d = c_color c /\ pd_colorName d = c_name c) /\
     ((exists i, i < n /\ at_index (selectedColors s) i = None) ->
      typeErrors s' = S (typeErrors s) /\ handedOver s' = handedOver s)).
Proof.
  cbv zeta.
  pose proof (run_pageInv n _ es (init_pageInv n disabled)) as H.
  set (s := run _ es) in *.
  pose proof H as (Hn & Hlen & Hpal & Hdist & Hlast & _).
  split.
  - intros e He.
    pose proof (step_pageInv n s e H) as H'.
    pose proof (full_length n _ H') as Hfull.
    destruct H' as (Hn' & _ & Hpal' & _).
    assert (Hcheck : exists t, step s e = checkColorSelectionComplete t).
    { destruct e as [playerIdx colorIdx | playerIdx value |]; simpl in He.
      - destruct He as (Hp & c & Hc & Hsome). unfold step, colorClick.
        rewrite Hc, decide_True, Hsome by done. by eexists.
      - unfold step, nameInput. rewrite decide_True by done. by eexists.
      - done. }
    destruct Hcheck as [t Ht].
    pose proof (allSelected_length t) as Hall.
    destruct (checkColorSelectionComplete_fields t) as (E1 & E2 & _).
    rewrite <- Ht in E1, E2. rewrite <- E1, <- E2, Hn' in Hall.
    specialize (Hall Hpal').
    rewrite Ht in *. unfold checkColorSelectionComplete in *.
    destruct (allSelected t); simpl in *; symmetry in Hall.
    + apply bool_decide_eq_true in Hall. by rewrite decide_True by tauto.
    + apply bool_decide_eq_false in Hall. by rewrite decide_False by tauto.
  - unfold step, confirmHandler.
    destruct (confirmDisabled s); [done |]. rewrite Hn.
    destruct (mapM (entryFor s) (seq 0 n)) as [data |] eqn:Hdata; simpl.
    + split; [done |]. split; [done |]. split.
      * intros _. split; [done |]. exists data. split; [done |].
        destruct (entries_built n s data H Hdata) as (Hl & _ & Hfields).
        split; [done |]. intros i d Hd.
        destruct (Hfields i d Hd) as [(c & Hc & _ & Hcol) _]. by exists c.
      * intros (i & Hi & Hnone). exfalso.
        apply mapM_Some in Hdata.
        destruct (Forall2_lookup_l _ _ _ i i Hdata) as (d & _ & Hd).
        { by apply lookup_seq. }
        unfold entryFor in Hd. by rewrite Hnone in Hd.
    + split; [done |]. split; [done |]. split; [| done].
      intros Hall. exfalso.
      assert (is_Some (mapM (entryFor s) (seq 0 n))) as [data' Hd'];
        [| congruence].
      apply mapM_is_Some, Forall_forall. intros i Hi.
      apply elem_of_seq in Hi. simpl. unfold entryFor.
      destruct (at_index (selectedColors s) i) as [c |] eqn:Ec.
      * simpl. by eexists.
      * exfalso. apply (Hall i); [lia | done].
Qed.

(** The theorem on three players: the third player is the first to
    choose; "Confirm" is shown, and its click fails. *)
Lemma confirm_waits_for_the_last_player_only_witness :
  let s := step (setupColorSelection 3 true) (ClickColor 2 0) in
  confirmDisplay s = Some "block" /\ confirmDisabled s = false /\
  typeErrors (step s ClickConfirm) = 1 /\ handedOver (step s ClickConfirm) = [].
Proof.
  cbv zeta.
  destruct (confirm_waits_for_the_last_player_only 3 true []) as [Hshown _].
  specialize (Hshown (ClickColor 2 0)). cbv zeta in Hshown.
  destruct (confirm_waits_for_the_last_player_only 3 true [ClickColor 2 0])
    as [_ Hconfirm].
  cbv zeta in Hconfirm.
  assert (Hev : checksCompletion (run (setupColorSelection 3 true) [])
                  (ClickColor 2 0)).
  { split; [simpl; lia |]. eexists. split; reflexivity. }
  specialize (Hshown Hev).
  change (run (setupColorSelection 3 true) [ClickColor 2 0])
    with (step (setupColorSelection 3 true) (ClickColor 2 0)) in Hconfirm.
  change (run (setupColorSelection 3 true) [])
    with (setupColorSelection 3 true) in Hshown.
  set (s := step (setupColorSelection 3 true) (ClickColor 2 0)) in *.
  assert (Hlast : at_index (selectedColors s) (3 - 1) <> None)
    by (vm_compute; congruence).
  rewrite decide_True in Hshown by (right; exact Hlast).
  destruct Hshown as [Hdisplay Hdisabled].
  rewrite Hdisabled in Hconfirm. destruct Hconfirm as (_ & _ & _ & Hfail).
  destruct Hfail as [Herr Hover].
  { exists 0. split; [lia | vm_compute; reflexivity]. }
  split; [exact Hdisplay |]. split; [exact Hdisabled |].
  split; [exact Herr | exact Hover].
Defined.

Lemma name_not_empty (c : Choice) : c ∈ colors -> c_name c <> "".
Proof.
  unfold colors. intros H.
  repeat (apply elem_of_cons in H as [-> | H]; [done |]).
  by apply elem_of_nil in H.
Qed.

Lemma defaultName_valid (i : nat) :
  i < 8 -> defaultName i <> "" /\ GameManager.trim (defaultName i) <> "".
Proof.
  intros Hi.
  do 8 (destruct i as [| i]; [split; vm_compute; congruence |]). lia.
Qed.

(** X20: what "Confirm" hands over passes [validateGameSetup].  For 3 to
    8 players, every argument of a call of [startGameWithPlayers] has
    one entry for each player and is accepted by [validateGameSetup]
    under the shipped configuration, with its own length as the player
    count: the names are the trimmed input or "Player i", never blank,
    and the colours are distinct colours of the palette.  So [setupGame]
    never fails with "Invalid game setup parameters" on data that comes
    from the page. *)
Theorem confirmed_players_pass_validation (n : nat) (disabled : bool)
    (es : list Event) (data : list PlayerData) :
  3 <= n <= 8 ->
  data ∈ handedOver (run (setupColorSelection n disabled) es) ->
  length data = n /\
  GameManager.validateGameSetup (Some GameManager.shipped) (length data) data
  = true.
Proof.
  intros Hn Hin.
  pose proof (run_pageInv n _ es (init_pageInv n disabled)) as H.
  destruct H as (_ & _ & _ & _ & _ & _ & _ & Hover).
  destruct (Hover data Hin) as (Hlen & Hnd & Hentries).
  split; [done |].
  apply GameManagerFacts.validateGameSetup_true.
  change (GameManager.limit GameManager.minPlayers 2 (Some GameManager.shipped))
    with 3.
  change (GameManager.limit GameManager.maxPlayers 8 (Some GameManager.shipped))
    with 8.
  split; [lia |]. split; [done |]. split; [| done].
  intros d Hd. apply list_elem_of_lookup in Hd as [i Hd].
  destruct (Hentries i d Hd) as [(c & Hc & Hcol & Hcn) Hname].
  assert (Hi : i < 8).
  { apply lookup_lt_Some in Hd. lia. }
  assert (Hvalid : pd_name d <> "" /\ GameManager.trim (pd_name d) <> "").
  { destruct Hname as [-> | [Hne [value Hv]]].
    - by apply defaultName_valid.
    - split; [done |]. rewrite Hv, TrimFacts.trim_trim. by rewrite <- Hv. }
  destruct Hvalid as [Hne Htrim].
  unfold GameManager.invalidEntry.
  rewrite (bool_decide_eq_false_2 (GameManager.trim (pd_name d) = "")) by done.
  rewrite orb_false_r. apply bool_decide_eq_false_2.
  intros [Hbad | [Hbad | Hbad]]; [done | |].
  - rewrite Hcol in Hbad. by apply (color_not_empty c).
  - rewrite Hcn in Hbad. by apply (name_not_empty c).
Qed.

(** The theorem on three players: the second types a name with blanks
    around it, all three choose a colour. *)
Lemma confirmed_players_pass_validation_witness :
  GameManager.validateGameSetup (Some GameManager.shipped) 3
    [mkPlayerData "Player 1" "#ff0000" "Red"; mkPlayerData "Bob" "#00ff00" "Green";
     mkPlayerData "Player 3" "#0080ff" "Blue"] = true.
Proof.
  assert (Hin : [mkPlayerData "Player 1" "#ff0000" "Red";
                 mkPlayerData "Bob" "#00ff00" "Green";
                 mkPlayerData "Player 3" "#0080ff" "Blue"]
                ∈ handedOver (run (setupColorSelection 3 true)
                                [ClickColor 0 0; ClickColor 1 1;
                                 InputName 1 "  Bob "; ClickColor 2 2;
                                 ClickConfirm])).
  { assert (E : handedOver (run (setupColorSelection 3 true)
                              [ClickColor 0 0; ClickColor 1 1;
                               InputName 1 "  Bob "; ClickColor 2 2;
                               ClickConfirm])
                = [[mkPlayerData "Player 1" "#ff0000" "Red";
                    mkPlayerData "Bob" "#00ff00" "Green";
                    mkPlayerData "Player 3" "#0080ff" "Blue"]])
      by (vm_compute; reflexivity).
    rewrite E. apply list_elem_of_here. }
  assert (Hn : 3 <= 3 <= 8) by lia.
  exact (proj2 (confirmed_players_pass_validation 3 true _ _ Hn Hin)).
Defined.

End ColorSelectionFacts.
